(** * Doomscroller: the workflow orchestrator and its job/video record model

    A shallow embedding of the orchestration core of the repository:

    - [src/types/index.ts]                    the data model (records and enums);
    - [src/lib/database.ts]                   [DatabaseService], the record store;
    - [src/lib/storage.ts]                    [StorageService.uploadVideo];
    - [src/services/workflow-orchestrator.ts] [WorkflowOrchestratorService];
    - [src/services/video-generator.ts]       the fal.ai and Replicate polling loops;
    - [src/functions/analytics-collector.ts]  [calculateEngagementRate].

    Conventions of the embedding.

    - A JavaScript [string] is a [string] of 8-bit characters; names and keywords are
      taken to be ASCII, so [toLowerCase] only moves [A-Z] to [a-z].
    - A JavaScript [number] is an IEEE 754 binary64 value, Rocq's primitive [float].
    - A [Date] is a reading of a logical clock (a [nat]) that advances by one at every
      awaited external operation.
    - A thrown value is represented by its message (what [error.message] or
      [String(error)] yields); [Result] is the outcome of an awaited promise.
    - Everything outside the process (Firestore, Cloud Storage, the model, the video
      provider and the three platforms) lives in a [World] that is threaded through the
      code, together with the log of the calls made to it; what the outside answers is
      given by an [Env].  Logging ([Logger]) never throws and is not modelled. *)

From Stdlib Require Import Floats.
From Stdlib Require Import Ascii String.
From stdpp Require Import gmap strings list sorting pretty.
From Equations Require Import Equations.

Set Default Proof Using "Type".
Local Open Scope string_scope.
Local Open Scope list_scope.

(* ================================================================= *)
(** ** Outcomes of awaited operations *)

Inductive Result (A : Type) : Type :=
| Ok (a : A)
| Throw (e : string).
Arguments Ok {A} a.
Arguments Throw {A} e.

Definition isOk {A} (r : Result A) : bool :=
  match r with Ok _ => true | Throw _ => false end.

(** JavaScript truthiness of an optional string: [undefined] and [""] are falsy. *)
Definition truthy (s : option string) : bool :=
  match s with
  | Some s => negb (String.eqb s "")
  | None => false
  end.

Abbreviation Date := nat (only parsing).
Abbreviation Buffer := string (only parsing).

(* ================================================================= *)
(** ** Data model ([src/types/index.ts]) *)

Inductive Platform := youtube | instagram | tiktok.

Global Instance Platform_eq_dec : EqDecision Platform.
Proof. solve_decision. Defined.

Module PostStatus.
Inductive t := pending | posted | failed.
Global Instance eq_dec : EqDecision t.
Proof. solve_decision. Defined.
End PostStatus.

Module VideoStatus.
Inductive t := generating | ready | posted | failed.
Global Instance eq_dec : EqDecision t.
Proof. solve_decision. Defined.
End VideoStatus.

Module JobStatus.
Inductive t := queued | running | completed | failed.
Global Instance eq_dec : EqDecision t.
Proof. solve_decision. Defined.
End JobStatus.

Module JobType.
Inductive t := generate | post | analytics.
End JobType.

Module Style.
Inductive t := educational | motivational | entertainment | news.
Global Instance eq_dec : EqDecision t.
Proof. solve_decision. Defined.
End Style.

Module PlatformPost.
Record t := mk {
  platform : Platform;
  postId : option string;
  postedAt : option Date;
  status : PostStatus.t;
  error : option string;
  views : option float;
  likes : option float;
  comments : option float
}.
End PlatformPost.

Module VideoMetadata.
Record t := mk {
  id : string;
  niche : string;
  prompt : string;
  videoUrl : string;
  storagePath : string;
  duration : float;
  createdAt : Date;
  status : VideoStatus.t;
  platforms : list PlatformPost.t
}.

(** [video.platforms.push(post)] on the caller's copy of the record. *)
Definition push (post : PlatformPost.t) (v : t) : t :=
  mk (id v) (niche v) (prompt v) (videoUrl v) (storagePath v) (duration v)
     (createdAt v) (status v) (platforms v ++ [post]).

(** The record with another list of platform posts. *)
Definition with_platforms (l : list PlatformPost.t) (v : t) : t :=
  mk (id v) (niche v) (prompt v) (videoUrl v) (storagePath v) (duration v)
     (createdAt v) (status v) l.

(** The merge Firestore's [update({ status })] performs on a stored video. *)
Definition with_status (s : VideoStatus.t) (v : t) : t :=
  mk (id v) (niche v) (prompt v) (videoUrl v) (storagePath v) (duration v)
     (createdAt v) s (platforms v).
End VideoMetadata.

Module YouTubeAccount.
Record t := mk { channelId : string; refreshToken : string }.
End YouTubeAccount.

Module InstagramAccount.
Record t := mk { accountId : string; accessToken : string }.
End InstagramAccount.

Module TikTokAccount.
Record t := mk { username : string; accessToken : option string }.
End TikTokAccount.

Module SocialAccountConfig.
Record t := mk {
  youtube : option YouTubeAccount.t;
  instagram : option InstagramAccount.t;
  tiktok : option TikTokAccount.t
}.
End SocialAccountConfig.

Module PostingSchedule.
Record t := mk {
  timesPerDay : float;
  preferredTimes : list string;
  timezone : string
}.
End PostingSchedule.

Module ContentNiche.
Record t := mk {
  id : string;
  name : string;
  description : string;
  keywords : list string;
  promptTemplate : string;
  targetAudience : string;
  postingSchedule : PostingSchedule.t;
  socialAccounts : SocialAccountConfig.t
}.
End ContentNiche.

Module TopicSource.
Inductive t := google_trends | twitter | manual.
End TopicSource.

Module TrendingTopic.
Record t := mk {
  topic : string;
  score : float;
  source : TopicSource.t;
  relatedKeywords : list string;
  fetchedAt : Date
}.
End TrendingTopic.

Module WorkflowJob.
Record t := mk {
  id : string;
  type : JobType.t;
  status : JobStatus.t;
  niche : string;
  videoId : option string;
  createdAt : Date;
  startedAt : option Date;
  completedAt : option Date;
  error : option string;
  retryCount : nat
}.
End WorkflowJob.

Module Resolution.
Inductive t := r720p | r1080p | r4k.
End Resolution.

Module VideoGenerationRequest.
Record t := mk {
  prompt : string;
  duration : option float;
  resolution : option Resolution.t;
  includeAudio : option bool;
  niche : string
}.
End VideoGenerationRequest.

Module VideoGenerationResponse.
Record t := mk {
  videoUrl : string;
  duration : float;
  format : string;
  size : float;
  generatedAt : Date
}.
End VideoGenerationResponse.

Module PromptGenerationRequest.
Record t := mk {
  niche : string;
  trendingTopics : option (list TrendingTopic.t);
  previousPrompts : option (list string);
  style : option Style.t
}.
End PromptGenerationRequest.

Module Engagement.
Inductive t := low | medium | high.
End Engagement.

Module PromptGenerationResponse.
Record t := mk {
  prompt : string;
  description : string;
  suggestedHashtags : list string;
  estimatedEngagement : Engagement.t
}.
End PromptGenerationResponse.

(* ================================================================= *)
(** ** String primitives of the JavaScript runtime used by the code *)

(** A string is the sequence of its characters, eight bits each.  On ASCII text (every
    character below 128) the functions below are those of JavaScript; white space and
    letter case beyond ASCII are not modelled, and what depends on them is stated for
    ASCII text. *)

(** [c.toLowerCase()] on one ASCII code unit. *)
Definition lowerAscii (c : Ascii.ascii) : Ascii.ascii :=
  let n := Ascii.nat_of_ascii c in
  if (65 <=? n)%nat && (n <=? 90)%nat then Ascii.ascii_of_nat (n + 32) else c.

(** [s.toLowerCase()]. *)
Fixpoint toLowerCase (s : string) : string :=
  match s with
  | EmptyString => EmptyString
  | String c s' => String (lowerAscii c) (toLowerCase s')
  end.

(** [s.startsWith(p)]. *)
Fixpoint startsWith (p s : string) : bool :=
  match p, s with
  | EmptyString, _ => true
  | String a p', String b s' => if Ascii.eqb a b then startsWith p' s' else false
  | String _ _, EmptyString => false
  end.

(** [s.includes(sub)]: [sub] occurs in [s] at some offset. *)
Fixpoint includes (s sub : string) : bool :=
  startsWith sub s ||
  match s with
  | EmptyString => false
  | String _ s' => includes s' sub
  end.

(** [s.substring(0, n)]. *)
Fixpoint substring0 (n : nat) (s : string) : string :=
  match n, s with
  | S n', String c s' => String c (substring0 n' s')
  | _, _ => EmptyString
  end.

(** [s.split(/[.!?]/)[0]]: the text before the first sentence terminator. *)
Fixpoint firstSentence (s : string) : string :=
  match s with
  | EmptyString => EmptyString
  | String c s' =>
      if Ascii.eqb c "." || Ascii.eqb c "!" || Ascii.eqb c "?" then EmptyString
      else String c (firstSentence s')
  end.

Definition isSpace (c : Ascii.ascii) : bool :=
  let n := Ascii.nat_of_ascii c in
  (n =? 32)%nat || ((9 <=? n)%nat && (n <=? 13)%nat).

Fixpoint trimStart (s : string) : string :=
  match s with
  | String c s' => if isSpace c then trimStart s' else s
  | EmptyString => EmptyString
  end.

(** [s.trimEnd()]: a character is kept when something other than white space
    follows it or it is not white space itself. *)
Fixpoint trimEnd (s : string) : string :=
  match s with
  | EmptyString => EmptyString
  | String c s' =>
      match trimEnd s' with
      | EmptyString => if isSpace c then EmptyString else String c EmptyString
      | rest => String c rest
      end
  end.

(** [s.trim()]. *)
Definition trim (s : string) : string := trimEnd (trimStart s).

(** [parts.join(sep)]. *)
Fixpoint join (sep : string) (parts : list string) : string :=
  match parts with
  | [] => ""
  | [p] => p
  | p :: rest => p +:+ sep +:+ join sep rest
  end.

(** [hashtags.map(tag => `#${tag}`).join(" ")]. *)
Definition hashtagLine (hashtags : list string) : string :=
  join " " (map (fun tag => "#" +:+ tag) hashtags).

(* ================================================================= *)
(** ** Style inference ([WorkflowOrchestratorService.getStyleFromNiche]) *)

Definition getStyleFromNiche (niche : ContentNiche.t) : Style.t :=
  let nicheNameLower := toLowerCase (ContentNiche.name niche) in
  if includes nicheNameLower "education" || includes nicheNameLower "learn"
     || includes nicheNameLower "tutorial" then Style.educational
  else if includes nicheNameLower "motivation" || includes nicheNameLower "inspire"
     || includes nicheNameLower "success" then Style.motivational
  else if includes nicheNameLower "news" || includes nicheNameLower "current"
     || includes nicheNameLower "trending" then Style.news
  else Style.entertainment.

(** The specification's wording of style inference: an ordered table of buckets, each
    a set of keywords; the first bucket one of whose keywords occurs in the lower-cased
    name wins, and [entertainment] is the default. *)
Definition styleBuckets : list (Style.t * list string) :=
  [ (Style.educational, ["education"; "learn"; "tutorial"]);
    (Style.motivational, ["motivation"; "inspire"; "success"]);
    (Style.news, ["news"; "current"; "trending"]) ].

Fixpoint firstMatchingBucket (lowered : string) (buckets : list (Style.t * list string))
  : Style.t :=
  match buckets with
  | [] => Style.entertainment
  | (style, keywords) :: rest =>
      if existsb (includes lowered) keywords then style
      else firstMatchingBucket lowered rest
  end.

Definition styleOfName (name : string) : Style.t :=
  firstMatchingBucket (toLowerCase name) styleBuckets.

(* ================================================================= *)
(** ** The world outside the process *)

Module UploadResult.
Record t := mk { publicUrl : string; storagePath : string }.
End UploadResult.

Module YouTubeUpload.
Record t := mk { videoId : string; url : string }.
End YouTubeUpload.

Module Reel.
Record t := mk { mediaId : string; permalink : string }.
End Reel.

Module TikTokPost.
Record t := mk { publishId : string; status : string }.
End TikTokPost.

Module TikTokOptions.
Record t := mk {
  privacyLevel : string;
  disableComment : bool;
  disableDuet : bool;
  disableStitch : bool
}.
End TikTokOptions.

(** The calls the process makes to the outside, in the vocabulary of the services that
    make them.  A call is logged when it is issued, whatever its outcome. *)
Inductive Call :=
| SaveVideoMetadata (video : VideoMetadata.t)
| GetVideoMetadata (videoId : string)
| UpdateVideoStatus (videoId : string) (status : VideoStatus.t)
| GetVideosByNiche (niche : string) (limit : nat)
| GetContentNiche (nicheId : string)
| CreateJob (jobId : string) (status : JobStatus.t)
| UpdateJobStatus (jobId : string) (status : JobStatus.t) (error : option string)
| GetJob (jobId : string)
| SaveTrendingTopics (topics : list TrendingTopic.t)
| UploadVideo (fileName : string)
| GetTrendingForNiche (niche : string) (keywords : list string)
| GeneratePrompt (request : PromptGenerationRequest.t)
| GenerateVideo (request : VideoGenerationRequest.t)
| DownloadVideo (videoUrl : string)
| YouTubeSetCredentials (refreshToken : string)
| YouTubeUploadShort (title description : string) (hashtags : list string)
| InstagramPostReel (accountId videoUrl caption : string)
| TikTokPostVideo (caption : string) (options : TikTokOptions.t).

(** Which platform's post operation a call is, if any. *)
Definition postOperation (c : Call) : option Platform :=
  match c with
  | YouTubeUploadShort _ _ _ => Some youtube
  | InstagramPostReel _ _ _ => Some instagram
  | TikTokPostVideo _ _ => Some tiktok
  | _ => None
  end.

Record World := mkWorld {
  jobs : gmap string WorkflowJob.t;          (* Firestore collection "jobs" *)
  videos : gmap string VideoMetadata.t;      (* Firestore collection "videos" *)
  niches : gmap string ContentNiche.t;       (* Firestore collection "niches" *)
  trending : list TrendingTopic.t;           (* Firestore collection "trending", a log *)
  blobs : gmap string Buffer;                (* the Cloud Storage bucket *)
  clock : nat;                               (* logical time *)
  autoIds : nat;                             (* Firestore auto ids handed out so far *)
  uuids : nat;                               (* uuids handed out so far *)
  calls : list Call                          (* calls issued, most recent first *)
}.

Definition set_jobs (f : gmap string WorkflowJob.t -> gmap string WorkflowJob.t)
    (w : World) : World :=
  mkWorld (f (jobs w)) (videos w) (niches w) (trending w) (blobs w) (clock w)
          (autoIds w) (uuids w) (calls w).

Definition set_videos (f : gmap string VideoMetadata.t -> gmap string VideoMetadata.t)
    (w : World) : World :=
  mkWorld (jobs w) (f (videos w)) (niches w) (trending w) (blobs w) (clock w)
          (autoIds w) (uuids w) (calls w).

Definition set_trending (f : list TrendingTopic.t -> list TrendingTopic.t)
    (w : World) : World :=
  mkWorld (jobs w) (videos w) (niches w) (f (trending w)) (blobs w) (clock w)
          (autoIds w) (uuids w) (calls w).

Definition set_blobs (f : gmap string Buffer -> gmap string Buffer) (w : World) : World :=
  mkWorld (jobs w) (videos w) (niches w) (trending w) (f (blobs w)) (clock w)
          (autoIds w) (uuids w) (calls w).

Definition next_autoId (w : World) : World :=
  mkWorld (jobs w) (videos w) (niches w) (trending w) (blobs w) (clock w)
          (S (autoIds w)) (uuids w) (calls w).

Definition next_uuid (w : World) : World :=
  mkWorld (jobs w) (videos w) (niches w) (trending w) (blobs w) (clock w)
          (autoIds w) (S (uuids w)) (calls w).

(** Issuing a call: it is logged and time passes. *)
Definition issue (c : Call) (w : World) : World :=
  mkWorld (jobs w) (videos w) (niches w) (trending w) (blobs w) (S (clock w))
          (autoIds w) (uuids w) (c :: calls w).

(** The calls issued so far, oldest first. *)
Definition history (w : World) : list Call := rev (calls w).

(** What the outside answers.  [fault c t] is the error with which Firestore or Cloud
    Storage rejects the call [c] issued at time [t], if it does; a rejected call has no
    effect.  The adapters' answers are the values their promises settle with.
    [schedule] is the order in which the awaited operations of concurrently running
    platform posts complete: its n-th entry is the index of the post that runs its next
    step. *)
Record Env := mkEnv {
  firestore_autoId : nat -> string;
  uuidv4 : nat -> string;
  fault : Call -> nat -> option string;
  storageBucket : string;
  trendingTopics_getTrendingForNiche : string -> list string -> list TrendingTopic.t;
  promptGenerator_generatePrompt :
    PromptGenerationRequest.t -> Result PromptGenerationResponse.t;
  videoGenerator_generateVideo :
    VideoGenerationRequest.t -> Result VideoGenerationResponse.t;
  videoGenerator_downloadVideo : string -> Result Buffer;
  youtube_setCredentials : string -> Result unit;
  youtube_uploadShortFromBuffer :
    Buffer -> string -> string -> list string -> Result YouTubeUpload.t;
  instagram_postReel : string -> string -> string -> string -> Result Reel.t;
  tiktok_postVideo : string -> Buffer -> string -> TikTokOptions.t -> Result TikTokPost.t;
  schedule : list nat
}.

(* ================================================================= *)
(** ** Sequential code: state and exceptions *)

(** An [async] function that is awaited to completion before its caller goes on. *)
Definition M (A : Type) : Type := World -> Result A * World.

(** A suspended [async] function whose steps may interleave with those of others: it
    has settled, or it is waiting at an [await]; when resumed in world [w] it changes
    the world to [effect w] and goes on as [next w]. *)
Inductive Async (A : Type) : Type :=
| Settled (r : Result A)
| Await (effect : World -> World) (next : World -> Async A).
Arguments Settled {A} r.
Arguments Await {A} effect next.

Class Monad (F : Type -> Type) := {
  ret : forall {A}, A -> F A;
  throw : forall {A}, string -> F A;
  bind : forall {A B}, F A -> (A -> F B) -> F B;
  tryCatch : forall {A}, F A -> (string -> F A) -> F A
}.

Notation "'let*' x ':=' m 'in' k" := (bind m (fun x => k))
  (at level 10, x name, m at level 100, k at level 200).
Notation "m ';;' k" := (bind m (fun _ => k))
  (at level 100, k at level 200, right associativity).

Definition M_bind {A B} (m : M A) (k : A -> M B) : M B :=
  fun w =>
    match m w with
    | (Ok a, w') => k a w'
    | (Throw e, w') => (Throw e, w')
    end.

Definition M_tryCatch {A} (m : M A) (handler : string -> M A) : M A :=
  fun w =>
    match m w with
    | (Ok a, w') => (Ok a, w')
    | (Throw e, w') => handler e w'
    end.

Global Instance M_monad : Monad M := {
  ret A a := fun w => (Ok a, w);
  throw A e := fun w => (Throw e, w);
  bind A B := M_bind;
  tryCatch A := M_tryCatch
}.

Fixpoint Async_bind {A B} (t : Async A) (k : A -> Async B) : Async B :=
  match t with
  | Settled (Ok a) => k a
  | Settled (Throw e) => Settled (Throw e)
  | Await effect next => Await effect (fun w => Async_bind (next w) k)
  end.

Fixpoint Async_tryCatch {A} (t : Async A) (handler : string -> Async A) : Async A :=
  match t with
  | Settled (Ok a) => Settled (Ok a)
  | Settled (Throw e) => handler e
  | Await effect next => Await effect (fun w => Async_tryCatch (next w) handler)
  end.

Global Instance Async_monad : Monad Async := {
  ret A a := Settled (Ok a);
  throw A e := Settled (Throw e);
  bind A B := Async_bind;
  tryCatch A := Async_tryCatch
}.

(** [await m] inside an interleavable function: one atomic step. *)
Definition await {A} (m : M A) : Async A :=
  Await (fun w => snd (m w)) (fun w => Settled (fst (m w))).

(** Running a suspended function alone until it settles. *)
Fixpoint settle {A} (t : Async A) : M A :=
  fun w =>
    match t with
    | Settled r => (r, w)
    | Await effect next => settle (next w) (effect w)
    end.

(** Running the suspended functions of a list one after the other. *)
Fixpoint settleAll {A} (ts : list (Async A)) : World -> list (Result A) * World :=
  fun w =>
    match ts with
    | [] => ([], w)
    | t :: ts' =>
        let '(r, w1) := settle t w in
        let '(rs, w2) := settleAll ts' w1 in
        (r :: rs, w2)
    end.

(** [Promise.allSettled(ts)]: the functions of [ts] advance one step at a time in the
    order the schedule dictates (an entry that names no waiting function is skipped);
    when the schedule is used up the remaining ones run one after the other.  Every
    interleaving of the steps is the behaviour under some schedule.  The promise never
    rejects: it collects the outcomes. *)
Fixpoint allSettled {A} (sched : list nat) (ts : list (Async A)) : M (list (Result A)) :=
  fun w =>
    match sched with
    | [] => let '(rs, w') := settleAll ts w in (Ok rs, w')
    | i :: sched' =>
        match ts !! i with
        | Some (Await effect next) => allSettled sched' (<[i := next w]> ts) (effect w)
        | _ => allSettled sched' ts w
        end
    end.

(** [new Date()] and [Timestamp.now()]. *)
Definition now : M Date := fun w => (Ok (clock w), w).

(* ================================================================= *)
(** ** The record store and the asset store *)

(** The order of [orderBy("createdAt", "desc")]. *)
Definition newerFirst (a b : VideoMetadata.t) : Prop :=
  VideoMetadata.createdAt b <= VideoMetadata.createdAt a.

Global Instance newerFirst_dec : RelDecision newerFirst.
Proof. intros a b. unfold newerFirst. apply _. Defined.

Section Services.
Variable env : Env.

(** A call to Firestore or Cloud Storage: logged, then rejected with the fault the
    environment has for it, or carried out. *)
Definition request {A} (c : Call) (body : Date -> World -> Result A * World) : M A :=
  fun w =>
    match fault env c (clock w) with
    | Some e => (Throw e, issue c w)
    | None => body (clock w) (issue c w)
    end.

(** What Firestore's [update] answers for a document that does not exist. *)
Definition NOT_FOUND : string := "NOT_FOUND: No document to update".

(* ===== Video Metadata Operations ===== *)

Definition saveVideoMetadata (video : VideoMetadata.t) : M unit :=
  request (SaveVideoMetadata video) (fun _ w =>
    (Ok tt, set_videos (insert (VideoMetadata.id video) video) w)).

Definition getVideoMetadata (videoId : string) : M (option VideoMetadata.t) :=
  request (GetVideoMetadata videoId) (fun _ w => (Ok (videos w !! videoId), w)).

Definition updateVideoStatus (videoId : string) (status : VideoStatus.t) : M unit :=
  request (UpdateVideoStatus videoId status) (fun _ w =>
    match videos w !! videoId with
    | Some video =>
        (Ok tt, set_videos (insert videoId (VideoMetadata.with_status status video)) w)
    | None => (Throw NOT_FOUND, w)
    end).

(** The query [where niche == n, orderBy createdAt desc, limit l]. *)
Definition getVideosByNiche (niche : string) (limit : nat) : M (list VideoMetadata.t) :=
  request (GetVideosByNiche niche limit) (fun _ w =>
    let matching :=
      filter (fun v => VideoMetadata.niche v = niche) (map snd (map_to_list (videos w))) in
    let newestFirst :=
      merge_sort newerFirst matching in
    (Ok (take limit newestFirst), w)).

(* ===== Content Niche Operations ===== *)

Definition getContentNiche (nicheId : string) : M (option ContentNiche.t) :=
  request (GetContentNiche nicheId) (fun _ w => (Ok (niches w !! nicheId), w)).

(* ===== Workflow Job Operations ===== *)

(** [createJob(job)]: the [id] and [createdAt] of the argument are replaced by a
    fresh auto id and the current time. *)
Definition createJob (job : WorkflowJob.t) : M string :=
  fun w =>
    let id := firestore_autoId env (autoIds w) in
    let jobData :=
      WorkflowJob.mk id (WorkflowJob.type job) (WorkflowJob.status job)
        (WorkflowJob.niche job) (WorkflowJob.videoId job) (clock w)
        (WorkflowJob.startedAt job) (WorkflowJob.completedAt job)
        (WorkflowJob.error job) (WorkflowJob.retryCount job) in
    request (CreateJob id (WorkflowJob.status job)) (fun _ w =>
      (Ok id, set_jobs (insert id jobData) w)) (next_autoId w).

(** The [updates] object [updateJobStatus] builds. *)
Record JobUpdates := mkJobUpdates {
  u_status : JobStatus.t;
  u_startedAt : option Date;
  u_completedAt : option Date;
  u_error : option string
}.

Definition jobUpdates (timestamp : Date) (status : JobStatus.t) (error : option string)
  : JobUpdates :=
  let updates := mkJobUpdates status None None None in
  let updates :=
    if bool_decide (status = JobStatus.running) && negb (bool_decide (is_Some (u_startedAt updates)))
    then mkJobUpdates (u_status updates) (Some timestamp) (u_completedAt updates)
                      (u_error updates)
    else updates in
  let updates :=
    if bool_decide (status = JobStatus.completed) || bool_decide (status = JobStatus.failed)
    then mkJobUpdates (u_status updates) (u_startedAt updates) (Some timestamp)
                      (u_error updates)
    else updates in
  if truthy error
  then mkJobUpdates (u_status updates) (u_startedAt updates) (u_completedAt updates) error
  else updates.

(** The merge Firestore's [update(updates)] performs on a stored job: the fields
    present in [updates] replace the stored ones. *)
Definition applyJobUpdates (updates : JobUpdates) (job : WorkflowJob.t) : WorkflowJob.t :=
  WorkflowJob.mk (WorkflowJob.id job) (WorkflowJob.type job) (u_status updates)
    (WorkflowJob.niche job) (WorkflowJob.videoId job) (WorkflowJob.createdAt job)
    (match u_startedAt updates with Some t => Some t | None => WorkflowJob.startedAt job end)
    (match u_completedAt updates with
     | Some t => Some t
     | None => WorkflowJob.completedAt job
     end)
    (match u_error updates with Some e => Some e | None => WorkflowJob.error job end)
    (WorkflowJob.retryCount job).

Definition updateJobStatus (jobId : string) (status : JobStatus.t) (error : option string)
  : M unit :=
  request (UpdateJobStatus jobId status error) (fun timestamp w =>
    match jobs w !! jobId with
    | Some job =>
        (Ok tt,
         set_jobs (insert jobId (applyJobUpdates (jobUpdates timestamp status error) job)) w)
    | None => (Throw NOT_FOUND, w)
    end).

Definition getJob (jobId : string) : M (option WorkflowJob.t) :=
  request (GetJob jobId) (fun _ w => (Ok (jobs w !! jobId), w)).

(* ===== Trending Topics Operations ===== *)

(** One batch write; the rows go to the end of the log (their document ids are not
    modelled). *)
Definition saveTrendingTopics (topics : list TrendingTopic.t) : M unit :=
  request (SaveTrendingTopics topics) (fun _ w =>
    (Ok tt, set_trending (fun log => (log ++ topics)%list) w)).

(* ===== StorageService ===== *)

Definition uploadVideo (videoBuffer : Buffer) (videoId niche : string)
  : M UploadResult.t :=
  let fileName := "videos/" +:+ niche +:+ "/" +:+ videoId +:+ ".mp4" in
  request (UploadVideo fileName) (fun _ w =>
    let publicUrl :=
      "https://storage.googleapis.com/" +:+ storageBucket env +:+ "/" +:+ fileName in
    (Ok (UploadResult.mk publicUrl fileName), set_blobs (insert fileName videoBuffer) w)).

(* ===== Adapters: the call is logged and answers what the environment says ===== *)

Definition adapter {A} (c : Call) (answer : Result A) : M A :=
  fun w => (answer, issue c w).

(** [TrendingTopicsService.getTrendingForNiche] catches its own errors and answers
    [[]]: it never throws. *)
Definition getTrendingForNiche (niche : string) (nicheKeywords : list string)
  : M (list TrendingTopic.t) :=
  adapter (GetTrendingForNiche niche nicheKeywords)
          (Ok (trendingTopics_getTrendingForNiche env niche nicheKeywords)).

Definition generatePrompt (request : PromptGenerationRequest.t)
  : M PromptGenerationResponse.t :=
  adapter (GeneratePrompt request) (promptGenerator_generatePrompt env request).

Definition generateVideo (request : VideoGenerationRequest.t)
  : M VideoGenerationResponse.t :=
  adapter (GenerateVideo request) (videoGenerator_generateVideo env request).

Definition downloadVideo (videoUrl : string) : M Buffer :=
  adapter (DownloadVideo videoUrl) (videoGenerator_downloadVideo env videoUrl).

Definition setCredentials (refreshToken : string) : M unit :=
  adapter (YouTubeSetCredentials refreshToken) (youtube_setCredentials env refreshToken).

Definition uploadShortFromBuffer (videoBuffer : Buffer) (title description : string)
    (hashtags : list string) : M YouTubeUpload.t :=
  adapter (YouTubeUploadShort title description hashtags)
          (youtube_uploadShortFromBuffer env videoBuffer title description hashtags).

Definition postReel (accessToken accountId videoUrl caption : string) : M Reel.t :=
  adapter (InstagramPostReel accountId videoUrl caption)
          (instagram_postReel env accessToken accountId videoUrl caption).

Definition postVideo (accessToken : string) (videoBuffer : Buffer) (caption : string)
    (options : TikTokOptions.t) : M TikTokPost.t :=
  adapter (TikTokPostVideo caption options)
          (tiktok_postVideo env accessToken videoBuffer caption options).

(** [uuidv4()]: synchronous; the next identifier of the generator. *)
Definition uuid : M string := fun w => (Ok (uuidv4 env (uuids w)), next_uuid w).

(* ================================================================= *)
(** ** [WorkflowOrchestratorService] *)

Definition newline : string := String (Ascii.ascii_of_nat 10) "".

(** [generateTitle]: the first sentence, cut to 60 characters. *)
Definition generateTitle (description : string) : string :=
  let firstSentence := firstSentence description in
  trim (substring0 60 firstSentence).

(** The entry every platform branch pushes on success. *)
Definition postedEntry (platform : Platform) (postId : string) (postedAt : Date)
  : PlatformPost.t :=
  PlatformPost.mk platform (Some postId) (Some postedAt) PostStatus.posted
                  None None None None.

Definition postToYouTube (videoId : string) (videoBuffer : Buffer) (description : string)
    (hashtags : list string) (youtubeAccount : YouTubeAccount.t) : Async unit :=
  tryCatch
    (await (setCredentials (YouTubeAccount.refreshToken youtubeAccount));;
     let title := generateTitle description in
     let* result := await (uploadShortFromBuffer videoBuffer title description hashtags) in
     (* Update video metadata *)
     let* video := await (getVideoMetadata videoId) in
     match video with
     | Some video =>
         await (let* postedAt := now in
                saveVideoMetadata
                  (VideoMetadata.push
                     (postedEntry youtube (YouTubeUpload.videoId result) postedAt) video))
     | None => ret tt
     end)
    (fun error => (* Don't throw - allow other platforms to continue *) ret tt).

Definition postToInstagram (videoId : string) (description : string)
    (hashtags : list string) (niche : ContentNiche.t) : Async unit :=
  tryCatch
    (let* video := await (getVideoMetadata videoId) in
     match video with
     | None => throw "Video not found"
     | Some video =>
         match SocialAccountConfig.instagram (ContentNiche.socialAccounts niche) with
         | None => throw "TypeError: Cannot read properties of undefined"
         | Some account =>
             let caption := description +:+ newline +:+ newline +:+ hashtagLine hashtags in
             let* result :=
               await (postReel (InstagramAccount.accessToken account)
                               (InstagramAccount.accountId account)
                               (VideoMetadata.videoUrl video) caption) in
             (* Update video metadata *)
             await (let* postedAt := now in
                    saveVideoMetadata
                      (VideoMetadata.push
                         (postedEntry instagram (Reel.mediaId result) postedAt) video))
         end
     end)
    (fun error => ret tt).

Definition postToTikTok (videoId : string) (videoBuffer : Buffer) (description : string)
    (hashtags : list string) (accessToken : string) : Async unit :=
  tryCatch
    (let caption := description +:+ " " +:+ hashtagLine hashtags in
     let* result :=
       await (postVideo accessToken videoBuffer caption
                (TikTokOptions.mk "PUBLIC_TO_EVERYONE" false false false)) in
     (* Update video metadata *)
     let* video := await (getVideoMetadata videoId) in
     match video with
     | Some video =>
         await (let* postedAt := now in
                saveVideoMetadata
                  (VideoMetadata.push
                     (postedEntry tiktok (TikTokPost.publishId result) postedAt) video))
     | None => ret tt
     end)
    (fun error => ret tt).

(** The [platforms] array [postToAllPlatforms] builds: one pending post per enabled
    platform, in the order YouTube, Instagram, TikTok.  Each is tagged with the
    platform it posts to. *)
Definition platformPosts (videoId : string) (videoBuffer : Buffer) (description : string)
    (hashtags : list string) (niche : ContentNiche.t) : list (Platform * Async unit) :=
  let accounts := ContentNiche.socialAccounts niche in
  let platforms := [] in
  (* YouTube *)
  let platforms :=
    match SocialAccountConfig.youtube accounts with
    | Some account =>
        platforms ++ [(youtube, postToYouTube videoId videoBuffer description hashtags account)]
    | None => platforms
    end in
  (* Instagram *)
  let platforms :=
    match SocialAccountConfig.instagram accounts with
    | Some _ => platforms ++ [(instagram, postToInstagram videoId description hashtags niche)]
    | None => platforms
    end in
  (* TikTok: [niche.socialAccounts.tiktok?.accessToken] *)
  let platforms :=
    match SocialAccountConfig.tiktok accounts with
    | Some account =>
        if truthy (TikTokAccount.accessToken account)
        then platforms ++
             [(tiktok, postToTikTok videoId videoBuffer description hashtags
                         (default "" (TikTokAccount.accessToken account)))]
        else platforms
    | None => platforms
    end in
  platforms.

(** Post to all platforms in parallel. *)
Definition postToAllPlatforms (videoId : string) (videoBuffer : Buffer)
    (description : string) (hashtags : list string) (niche : ContentNiche.t) : M unit :=
  allSettled (schedule env)
             (map snd (platformPosts videoId videoBuffer description hashtags niche));;
  ret tt.

(** The [catch] block of [generateAndPostVideo], with the value [jobId] holds when the
    error is caught. *)
Definition workflowFailed {A} (jobId : option string) (error : string) : M A :=
  (if truthy jobId
   then updateJobStatus (default "" jobId) JobStatus.failed (Some error)
   else ret tt);;
  throw error.

(** Main workflow: generate and post a video for a niche.  [jobId] is [null] until
    [createJob] has answered. *)
Definition generateAndPostVideo (niche : ContentNiche.t) : M string :=
  let* jobId :=
    tryCatch
      (createJob (WorkflowJob.mk "" JobType.generate JobStatus.queued
                    (ContentNiche.id niche) None 0 None None None 0))
      (workflowFailed None) in
  tryCatch
    (updateJobStatus jobId JobStatus.running None;;
     (* Step 1: Fetch trending topics *)
     let* trendingTopics :=
       getTrendingForNiche (ContentNiche.name niche) (ContentNiche.keywords niche) in
     (if (0 <? length trendingTopics)%nat then saveTrendingTopics trendingTopics
      else ret tt);;
     (* Step 2: Generate prompt *)
     let* recentVideos := getVideosByNiche (ContentNiche.id niche) 10 in
     let previousPrompts := map VideoMetadata.prompt recentVideos in
     let* promptResponse :=
       generatePrompt
         (PromptGenerationRequest.mk (ContentNiche.name niche)
            (if (0 <? length trendingTopics)%nat then Some trendingTopics else None)
            (Some previousPrompts)
            (Some (getStyleFromNiche niche))) in
     (* Step 3: Generate video *)
     let* videoId := uuid in
     let* videoResponse :=
       generateVideo
         (VideoGenerationRequest.mk (PromptGenerationResponse.prompt promptResponse)
            None None None (ContentNiche.id niche)) in
     (* Step 4: Download and store video *)
     let* videoBuffer := downloadVideo (VideoGenerationResponse.videoUrl videoResponse) in
     let* stored := uploadVideo videoBuffer videoId (ContentNiche.id niche) in
     (* Step 5: Save video metadata *)
     let* createdAt := now in
     let videoMetadata :=
       VideoMetadata.mk videoId (ContentNiche.id niche)
         (PromptGenerationResponse.prompt promptResponse)
         (UploadResult.publicUrl stored) (UploadResult.storagePath stored)
         (VideoGenerationResponse.duration videoResponse)
         createdAt VideoStatus.ready [] in
     saveVideoMetadata videoMetadata;;
     (* Step 6: Post to social media platforms *)
     postToAllPlatforms videoId videoBuffer
       (PromptGenerationResponse.description promptResponse)
       (PromptGenerationResponse.suggestedHashtags promptResponse) niche;;
     (* Step 7: Update job status *)
     updateJobStatus jobId JobStatus.completed None;;
     updateVideoStatus videoId VideoStatus.posted;;
     ret videoId)
    (workflowFailed (Some jobId)).

(** Retry failed job. *)
Definition retryFailedJob (jobId : string) : M unit :=
  tryCatch
    (let* job := getJob jobId in
     match job with
     | Some job =>
         if bool_decide (WorkflowJob.status job = JobStatus.failed)
         then
           let* niche := getContentNiche (WorkflowJob.niche job) in
           match niche with
           | Some niche => generateAndPostVideo niche;; ret tt
           | None => throw "Niche not found"
           end
         else throw "Job not found or not in failed status"
     | None => throw "Job not found or not in failed status"
     end)
    (fun error => throw error).

End Services.

(* ================================================================= *)
(** ** [VideoGeneratorService]: submitting a request and polling for the result *)

Module VideoGenerator.

(** [config.videoGeneration]. *)
Record Config := mkConfig {
  provider : string;
  defaultDuration : float;
  defaultResolution : Resolution.t;
  includeAudio : bool
}.

(** The body of the answer to the submitting [axios.post]. *)
Record Submitted := mkSubmitted {
  request_id : string;            (* fal.ai *)
  prediction_id : string;         (* Replicate: [data.id] *)
  urls_get : string;              (* Replicate: [data.urls.get] *)
  predictions : list string       (* Vertex AI: [data.predictions[i].videoUrl] *)
}.

(** The body of the answer to a polling [axios.get]. *)
Record StatusData := mkStatusData {
  status : string;
  video_url : option string;      (* fal.ai *)
  output : option string          (* Replicate *)
}.

(** What the provider answers: to the submission, and to the n-th status request. *)
Record Http := mkHttp {
  post : Result Submitted;
  get : nat -> Result StatusData
}.

(** The part of the outside the video generator acts on: the time spent in [sleep],
    in milliseconds, the number of status requests issued, and a logical clock that
    advances at every awaited operation. *)
Record Net := mkNet {
  elapsed : N;
  gets : nat;
  clock : nat
}.

Definition sleep (ms : N) (net : Net) : Net :=
  mkNet (elapsed net + ms) (gets net) (S (clock net)).

Definition axios_post (http : Http) (net : Net) : Result Submitted * Net :=
  (post http, mkNet (elapsed net) (gets net) (S (clock net))).

Definition axios_get (http : Http) (net : Net) : Result StatusData * Net :=
  (get http (gets net), mkNet (elapsed net) (S (gets net)) (S (clock net))).

Definition maxAttempts : nat := 60.

(** [x || d] on an optional number: [undefined], [0] and [NaN] are falsy. *)
Definition orDefault (x : option float) (d : float) : float :=
  match x with
  | Some x => if PrimFloat.eqb x 0 || PrimFloat.is_nan x then d else x
  | None => d
  end.

Definition response (cfg : Config) (request : VideoGenerationRequest.t)
    (videoUrl : string) (net : Net) : VideoGenerationResponse.t :=
  VideoGenerationResponse.mk videoUrl
    (orDefault (VideoGenerationRequest.duration request) (defaultDuration cfg))
    "mp4" 0 (clock net).

(** The [while (attempts < maxAttempts)] loop of [generateWithFal], from the value
    [attempts] has on entry; it yields the value [videoUrl] holds at the loop's exit,
    or the error thrown inside it. *)
Equations? pollFal (http : Http) (attempts : nat) (net : Net)
  : Result (option string) * Net by wf (maxAttempts - attempts) lt :=
  pollFal http attempts net with decide (attempts < maxAttempts) => {
    | right _ := (Ok None, net);
    | left _ :=
        let net := sleep 5000%N net in
        match axios_get http net with
        | (Throw e, net) => (Throw e, net)
        | (Ok data, net) =>
            if String.eqb (status data) "COMPLETED" then (Ok (video_url data), net)
            else if String.eqb (status data) "FAILED"
                 then (Throw "Video generation failed", net)
                 else pollFal http (S attempts) net
        end }.
Proof. all: unfold maxAttempts in *; lia. Qed.

Definition generateWithFal (cfg : Config) (http : Http)
    (request : VideoGenerationRequest.t) (net : Net)
  : Result VideoGenerationResponse.t * Net :=
  match axios_post http net with
  | (Throw e, net) => (Throw e, net)
  | (Ok submitted, net) =>
      match pollFal http 0 net with
      | (Throw e, net) => (Throw e, net)
      | (Ok videoUrl, net) =>
          if truthy videoUrl
          then (Ok (response cfg request (default "" videoUrl) net), net)
          else (Throw "Video generation timed out", net)
      end
  end.

(** The polling loop of [generateWithReplicate]. *)
Equations? pollReplicate (http : Http) (attempts : nat) (net : Net)
  : Result (option string) * Net by wf (maxAttempts - attempts) lt :=
  pollReplicate http attempts net with decide (attempts < maxAttempts) => {
    | right _ := (Ok None, net);
    | left _ :=
        let net := sleep 5000%N net in
        match axios_get http net with
        | (Throw e, net) => (Throw e, net)
        | (Ok data, net) =>
            if String.eqb (status data) "succeeded" then (Ok (output data), net)
            else if String.eqb (status data) "failed" || String.eqb (status data) "canceled"
                 then (Throw ("Video generation " +:+ status data), net)
                 else pollReplicate http (S attempts) net
        end }.
Proof. all: unfold maxAttempts in *; lia. Qed.

Definition generateWithReplicate (cfg : Config) (http : Http)
    (request : VideoGenerationRequest.t) (net : Net)
  : Result VideoGenerationResponse.t * Net :=
  match axios_post http net with
  | (Throw e, net) => (Throw e, net)
  | (Ok submitted, net) =>
      match pollReplicate http 0 net with
      | (Throw e, net) => (Throw e, net)
      | (Ok videoUrl, net) =>
          if truthy videoUrl
          then (Ok (response cfg request (default "" videoUrl) net), net)
          else (Throw "Video generation timed out", net)
      end
  end.

(** [generateWithVertexAI]: one request, no polling. *)
Definition generateWithVertexAI (cfg : Config) (http : Http)
    (request : VideoGenerationRequest.t) (net : Net)
  : Result VideoGenerationResponse.t * Net :=
  match axios_post http net with
  | (Throw e, net) => (Throw e, net)
  | (Ok submitted, net) =>
      match predictions submitted with
      | videoUrl :: _ => (Ok (response cfg request videoUrl net), net)
      | [] => (Throw "TypeError: Cannot read properties of undefined", net)
      end
  end.

Definition generateVideo (cfg : Config) (http : Http)
    (request : VideoGenerationRequest.t) (net : Net)
  : Result VideoGenerationResponse.t * Net :=
  if String.eqb (provider cfg) "vertex" then generateWithVertexAI cfg http request net
  else if String.eqb (provider cfg) "fal" then generateWithFal cfg http request net
  else if String.eqb (provider cfg) "replicate"
       then generateWithReplicate cfg http request net
       else (Throw ("Unsupported video provider: " +:+ provider cfg), net).

End VideoGenerator.

(* ================================================================= *)
(** ** Analytics collector: the engagement rate *)

(** [calculateEngagementRate(views, likes, comments, shares = 0)]. *)
Definition calculateEngagementRate (views likes comments : float) (shares : option float)
  : float :=
  let shares := default 0%float shares in
  if PrimFloat.eqb views 0 then 0%float
  else
    let totalEngagements := (likes + comments + shares)%float in
    ((totalEngagements / views) * 100)%float.

(* ================================================================= *)
(** * Vocabulary of the properties *)

(* ================================================================= *)
(** ** Answers of the video provider *)

(** A status answer that lets the fal.ai loop go round again. *)
Definition falPending (http : VideoGenerator.Http) (k : nat) : Prop :=
  exists data, VideoGenerator.get http k = Ok data
               /\ VideoGenerator.status data <> "COMPLETED"
               /\ VideoGenerator.status data <> "FAILED".

(** A status answer that ends the fal.ai loop with a video. *)
Definition falReady (http : VideoGenerator.Http) (k : nat) (videoUrl : string) : Prop :=
  exists data, VideoGenerator.get http k = Ok data
               /\ VideoGenerator.status data = "COMPLETED"
               /\ VideoGenerator.video_url data = Some videoUrl.

Definition replicatePending (http : VideoGenerator.Http) (k : nat) : Prop :=
  exists data, VideoGenerator.get http k = Ok data
               /\ VideoGenerator.status data <> "succeeded"
               /\ VideoGenerator.status data <> "failed"
               /\ VideoGenerator.status data <> "canceled".

Definition replicateReady (http : VideoGenerator.Http) (k : nat) (videoUrl : string)
  : Prop :=
  exists data, VideoGenerator.get http k = Ok data
               /\ VideoGenerator.status data = "succeeded"
               /\ VideoGenerator.output data = Some videoUrl.

(** A provider that accepts the request and then answers every status request with a
    status that is not terminal. *)
Definition stalledProvider : VideoGenerator.Http :=
  VideoGenerator.mkHttp
    (Ok (VideoGenerator.mkSubmitted "req-1" "pred-1" "https://poll" []))
    (fun _ => Ok (VideoGenerator.mkStatusData "IN_PROGRESS" None None)).

Definition falConfig : VideoGenerator.Config :=
  VideoGenerator.mkConfig "fal" 8 Resolution.r1080p true.

(* ================================================================= *)
(** ** Status updates of a job *)

(** One call [updateJobStatus(jobId, status, error)] that Firestore accepts at time
    [timestamp], as it acts on the stored job. *)
Definition StatusUpdate : Type := Date * JobStatus.t * option string.

Definition applyStatusUpdate (job : WorkflowJob.t) (u : StatusUpdate) : WorkflowJob.t :=
  let '(timestamp, status, error) := u in
  applyJobUpdates (jobUpdates timestamp status error) job.

Definition applyStatusUpdates (us : list StatusUpdate) (job : WorkflowJob.t)
  : WorkflowJob.t :=
  foldl applyStatusUpdate job us.

(** The update carries a [startedAt] (a [completedAt]) field: it writes the field. *)
Definition writesStartedAt (u : StatusUpdate) : bool :=
  let '(timestamp, status, error) := u in
  bool_decide (is_Some (u_startedAt (jobUpdates timestamp status error))).

Definition writesCompletedAt (u : StatusUpdate) : bool :=
  let '(timestamp, status, error) := u in
  bool_decide (is_Some (u_completedAt (jobUpdates timestamp status error))).

Definition terminal (status : JobStatus.t) : bool :=
  bool_decide (status = JobStatus.completed) || bool_decide (status = JobStatus.failed).

(** A job as [createJob] stores it for the orchestrator. *)
Definition queuedJob : WorkflowJob.t :=
  WorkflowJob.mk "job-0" JobType.generate JobStatus.queued "n1" None 0 None None None 0.

(* ================================================================= *)
(** ** Enabled platforms *)

(** The platform's credential bundle is present on the niche. *)
Definition credentialPresent (niche : ContentNiche.t) (p : Platform) : bool :=
  let accounts := ContentNiche.socialAccounts niche in
  match p with
  | youtube => bool_decide (is_Some (SocialAccountConfig.youtube accounts))
  | instagram => bool_decide (is_Some (SocialAccountConfig.instagram accounts))
  | tiktok => bool_decide (is_Some (SocialAccountConfig.tiktok accounts))
  end.

(** The platform's credential bundle is present and, for TikTok, holds a non-empty
    access token. *)
Definition platformEnabled (niche : ContentNiche.t) (p : Platform) : bool :=
  match p with
  | tiktok =>
      match SocialAccountConfig.tiktok (ContentNiche.socialAccounts niche) with
      | Some account => truthy (TikTokAccount.accessToken account)
      | None => false
      end
  | _ => credentialPresent niche p
  end.

(** The platforms whose post the fan-out starts, in the order it starts them. *)
Definition attemptedPlatforms (env : Env) (videoId : string) (videoBuffer : Buffer)
    (description : string) (hashtags : list string) (niche : ContentNiche.t)
  : list Platform :=
  map fst (platformPosts env videoId videoBuffer description hashtags niche).

Definition nicheWith (accounts : SocialAccountConfig.t) : ContentNiche.t :=
  ContentNiche.mk "n1" "Daily Motivation Boost" "Short motivational clips"
    ["motivation"; "success"] "template" "everyone"
    (PostingSchedule.mk 3 ["09:00"; "14:00"; "18:00"] "UTC") accounts.

(** A niche whose TikTok bundle names the user but holds no access token. *)
Definition nicheWithoutTikTokToken : ContentNiche.t :=
  nicheWith (SocialAccountConfig.mk None None (Some (TikTokAccount.mk "user" None))).

(** A niche with all three bundles, each complete. *)
Definition nicheWithAllAccounts : ContentNiche.t :=
  nicheWith (SocialAccountConfig.mk
               (Some (YouTubeAccount.mk "channel" "refresh-token"))
               (Some (InstagramAccount.mk "account" "instagram-token"))
               (Some (TikTokAccount.mk "user" (Some "tiktok-token")))).

(* ================================================================= *)
(** ** What a run did *)

(** The calls issued between two worlds of one execution, oldest first. *)
Definition issuedDuring (w w' : World) : list Call :=
  rev (take (length (calls w') - length (calls w)) (calls w')).

(** The statuses written to the job [jobId] by a list of calls, in order. *)
Definition jobStatuses (jobId : string) (cs : list Call) : list JobStatus.t :=
  omap (fun c =>
          match c with
          | CreateJob id status =>
              if bool_decide (id = jobId) then Some status else None
          | UpdateJobStatus id status _ =>
              if bool_decide (id = jobId) then Some status else None
          | _ => None
          end) cs.

(** The platforms whose post operation was called by a list of calls, in order. *)
Definition postOperations (cs : list Call) : list Platform := omap postOperation cs.

Definition isGenerateVideo (c : Call) : bool :=
  match c with GenerateVideo _ => true | _ => false end.

Definition isGeneratePrompt (c : Call) : bool :=
  match c with GeneratePrompt _ => true | _ => false end.

Definition isSaveVideoMetadata (c : Call) : bool :=
  match c with SaveVideoMetadata _ => true | _ => false end.

Definition isSaveTrendingTopics (c : Call) : bool :=
  match c with SaveTrendingTopics _ => true | _ => false end.

Definition isCreateJob (c : Call) : bool :=
  match c with CreateJob _ _ => true | _ => false end.

(** A platform post as the orchestrator writes it: posted, with the platform's id and
    a time. *)
Definition wellPosted (post : PlatformPost.t) : Prop :=
  PlatformPost.status post = PostStatus.posted
  /\ is_Some (PlatformPost.postId post)
  /\ is_Some (PlatformPost.postedAt post).

(* ================================================================= *)
(** ** Environments and worlds to run the code in *)

Definition emptyWorld : World := mkWorld ∅ ∅ ∅ [] ∅ 0 0 0 [].

Definition aPrompt : PromptGenerationResponse.t :=
  PromptGenerationResponse.mk "A sunrise over the sea" "Rise early. Win the day!"
    ["motivation"; "sunrise"] Engagement.high.

Definition aTopic : TrendingTopic.t :=
  TrendingTopic.mk "motivation monday" 90 TopicSource.twitter ["motivation"] 0.

Definition anUpload : YouTubeUpload.t := YouTubeUpload.mk "yt-1" "https://youtu.be/yt-1".

Definition aPublication : TikTokPost.t := TikTokPost.mk "tt-1" "processing".

(** An environment in which the model, storage and YouTube and TikTok work; the
    faults of the stores, the topics fetched, the answers of the video provider and of
    Instagram, and the schedule of the fan-out are the arguments. *)
Definition testEnv (faults : Call -> nat -> option string)
    (topics : list TrendingTopic.t)
    (video : Result VideoGenerationResponse.t) (reel : Result Reel.t)
    (sched : list nat) : Env :=
  mkEnv (fun n => "job-" +:+ pretty n) (fun n => "video-" +:+ pretty n) faults "bucket"
    (fun _ _ => topics) (fun _ => Ok aPrompt) (fun _ => video) (fun _ => Ok "bytes")
    (fun _ => Ok tt) (fun _ _ _ _ => Ok anUpload)
    (fun _ _ _ _ => reel) (fun _ _ _ _ => Ok aPublication)
    sched.

Definition noFaults : Call -> nat -> option string := fun _ _ => None.

Definition aResponse : VideoGenerationResponse.t :=
  VideoGenerationResponse.mk "https://provider/video.mp4" 8 "mp4" 0 0.

Definition aVideo : Result VideoGenerationResponse.t := Ok aResponse.

Definition aReel : Result Reel.t := Ok (Reel.mk "ig-1" "https://instagram/ig-1").

(** The platforms of the posts of the video [videoId], as stored. *)
Definition storedPlatforms (videoId : string) (w : World) : option (list Platform) :=
  (fun v => map PlatformPost.platform (VideoMetadata.platforms v)) <$> videos w !! videoId.

Definition storedJobStatus (jobId : string) (w : World) : option JobStatus.t :=
  WorkflowJob.status <$> jobs w !! jobId.

(* ================================================================= *)
(** ** Interleavable functions that keep a property of the world *)

(** [Keeps I Q t]: every step of [t], taken in a world with the property [I], leads to
    a world with [I]; and when [t] settles with a value, the value satisfies [Q]. *)
Inductive Keeps (I : World -> Prop) {A : Type} (Q : A -> Prop) : Async A -> Prop :=
| Keeps_value (a : A) : Q a -> Keeps I Q (Settled (Ok a))
| Keeps_error (e : string) : Keeps I Q (Settled (Throw e))
| Keeps_await (effect : World -> World) (next : World -> Async A) :
    (forall w, I w -> I (effect w)) ->
    (forall w, I w -> Keeps I Q (next w)) ->
    Keeps I Q (Await effect next).

(* ================================================================= *)
(** ** What the fan-out keeps *)

(** The calls the platform posts issue for the video [v0]: calls to the platforms,
    reads of the video record, and writes of [v0] with a list of posts that all
    satisfy [E]. *)
Definition fanOutCall (E : PlatformPost.t -> Prop) (v0 : VideoMetadata.t) (c : Call)
  : Prop :=
  match c with
  | YouTubeSetCredentials _ | YouTubeUploadShort _ _ _ | InstagramPostReel _ _ _
  | TikTokPostVideo _ _ | GetVideoMetadata _ => True
  | SaveVideoMetadata v =>
      exists l, v = VideoMetadata.with_platforms l v0 /\ Forall E l
  | _ => False
  end.

(** The world [w] is the world [w0] after some steps of the platform posts for the
    video [v0]: only the record of [v0] changed, and only in its list of posts, all of
    which satisfy [E]. *)
Record FanOut (E : PlatformPost.t -> Prop) (v0 : VideoMetadata.t) (w0 w : World)
  : Prop := mkFanOut {
  fan_jobs : jobs w = jobs w0;
  fan_niches : niches w = niches w0;
  fan_trending : trending w = trending w0;
  fan_blobs : blobs w = blobs w0;
  fan_autoIds : autoIds w = autoIds w0;
  fan_uuids : uuids w = uuids w0;
  fan_clock : clock w0 <= clock w;
  fan_calls :
    exists new, calls w = new ++ calls w0 /\ Forall (fanOutCall E v0) new;
  fan_video :
    exists l, videos w !! VideoMetadata.id v0 = Some (VideoMetadata.with_platforms l v0)
              /\ Forall E l;
  fan_others :
    forall k, k <> VideoMetadata.id v0 -> videos w !! k = videos w0 !! k
}.

(** The platform answers the post of the video [v0] with the id [postId]: the calls
    that the platform's function makes to the platform succeed, the last with that
    id. *)
Definition answered (env : Env) (videoBuffer : Buffer) (description : string)
    (hashtags : list string) (niche : ContentNiche.t) (v0 : VideoMetadata.t)
    (p : Platform) (postId : string) : Prop :=
  let accounts := ContentNiche.socialAccounts niche in
  match p with
  | youtube =>
      exists account result,
        SocialAccountConfig.youtube accounts = Some account
        /\ youtube_setCredentials env (YouTubeAccount.refreshToken account) = Ok tt
        /\ youtube_uploadShortFromBuffer env videoBuffer (generateTitle description)
             description hashtags = Ok result
        /\ postId = YouTubeUpload.videoId result
  | instagram =>
      exists account result,
        SocialAccountConfig.instagram accounts = Some account
        /\ instagram_postReel env (InstagramAccount.accessToken account)
             (InstagramAccount.accountId account) (VideoMetadata.videoUrl v0)
             (description +:+ newline +:+ newline +:+ hashtagLine hashtags) = Ok result
        /\ postId = Reel.mediaId result
  | tiktok =>
      exists account accessToken result,
        SocialAccountConfig.tiktok accounts = Some account
        /\ TikTokAccount.accessToken account = Some accessToken
        /\ tiktok_postVideo env accessToken videoBuffer
             (description +:+ " " +:+ hashtagLine hashtags)
             (TikTokOptions.mk "PUBLIC_TO_EVERYONE" false false false) = Ok result
        /\ postId = TikTokPost.publishId result
  end.

(** The entry is the one the orchestrator pushes for a post its platform answered. *)
Definition postedBy (env : Env) (videoBuffer : Buffer) (description : string)
    (hashtags : list string) (niche : ContentNiche.t) (v0 : VideoMetadata.t)
    (post : PlatformPost.t) : Prop :=
  exists postId postedAt,
    post = postedEntry (PlatformPost.platform post) postId postedAt
    /\ answered env videoBuffer description hashtags niche v0
         (PlatformPost.platform post) postId.

(** An entry of the record of [v0] during the fan-out: one the record held before, or
    one pushed for a post its platform answered, marked posted, with the platform's id
    and a time. *)
Definition keptOrPosted (env : Env) (videoBuffer : Buffer) (description : string)
    (hashtags : list string) (niche : ContentNiche.t) (v0 : VideoMetadata.t)
    (post : PlatformPost.t) : Prop :=
  post ∈ VideoMetadata.platforms v0
  \/ (wellPosted post /\ postedBy env videoBuffer description hashtags niche v0 post).

(** A world in which the record [aRecord] is stored, ready for the fan-out. *)
Definition aRecord : VideoMetadata.t :=
  VideoMetadata.mk "video-0" "n1" "A sunrise over the sea"
    "https://storage.googleapis.com/bucket/videos/n1/video-0.mp4"
    "videos/n1/video-0.mp4" 8 0 VideoStatus.ready [].

Definition worldWith (v : VideoMetadata.t) : World :=
  mkWorld ∅ {[ VideoMetadata.id v := v ]} ∅ [] ∅ 0 0 0 [].

(** An environment in which Instagram is down and the platform posts interleave. *)
Definition instagramDown (sched : list nat) : Env :=
  testEnv noFaults [] aVideo (Throw "Instagram API error") sched.

(** The entry is the one pushed for the post [postId] on the platform [p], at some
    time. *)
Definition postedOn (p : Platform) (postId : string) (post : PlatformPost.t) : Prop :=
  exists postedAt, post = postedEntry p postId postedAt.

(** The environment answers every call of the run up to the fan-out: no store rejects
    a call, and the model, the video provider and the download answer. *)
Record Answers (env : Env) (prompt : PromptGenerationResponse.t)
    (video : VideoGenerationResponse.t) (videoBuffer : Buffer) : Prop := mkAnswers {
  no_fault : forall c t, fault env c t = None;
  prompt_answer : forall request, promptGenerator_generatePrompt env request = Ok prompt;
  video_answer : forall request, videoGenerator_generateVideo env request = Ok video;
  download_answer : forall url, videoGenerator_downloadVideo env url = Ok videoBuffer;
  autoId_named : forall n, firestore_autoId env n <> ""
}.

(** Instagram throws on every post; YouTube and TikTok answer every call. *)
Record InstagramFails (env : Env) (uploaded : YouTubeUpload.t) (published : TikTokPost.t)
  : Prop := mkInstagramFails {
  youtube_credentials : forall refreshToken, youtube_setCredentials env refreshToken = Ok tt;
  youtube_answer :
    forall videoBuffer title description hashtags,
      youtube_uploadShortFromBuffer env videoBuffer title description hashtags
      = Ok uploaded;
  instagram_throws :
    forall accessToken accountId videoUrl caption,
      isOk (instagram_postReel env accessToken accountId videoUrl caption) = false;
  tiktok_answer :
    forall accessToken videoBuffer caption options,
      tiktok_postVideo env accessToken videoBuffer caption options = Ok published
}.

(** An environment in which the store rejects the batch write of the topics. *)
Definition topicsRejected : Env :=
  testEnv (fun c _ => if isSaveTrendingTopics c then Some "UNAVAILABLE: batch commit"
                      else None)
          [aTopic] aVideo aReel [].

(** An environment in which the video provider throws. *)
Definition providerFails : Env :=
  testEnv noFaults [] (Throw "Video generation failed") aReel [].

(** A world in which the niche is configured and a first run has failed, leaving the
    job ["job-0"] failed. *)
Definition configuredWorld : World :=
  mkWorld ∅ ∅ {[ "n1" := nicheWithAllAccounts ]} [] ∅ 0 0 0 [].

Definition worldAfterFailure : World :=
  snd (generateAndPostVideo providerFails nicheWithAllAccounts configuredWorld).

(* ================================================================= *)
(** ** The platform posts, step by step *)

(** What an interleavable function does to the world when it is resumed, and how it
    goes on. *)
Definition progress {A} (t : Async A) (w : World) : World :=
  match t with
  | Await effect _ => effect w
  | Settled _ => w
  end.

Definition resume {A} (t : Async A) (w : World) : Async A :=
  match t with
  | Await _ next => next w
  | Settled r => Settled r
  end.

(** A function none of whose steps changes the video records. *)
Inductive Quiet {A : Type} : Async A -> Prop :=
| Quiet_settled (r : Result A) : Quiet (Settled r)
| Quiet_await (effect : World -> World) (next : World -> Async A) :
    (forall w, videos (effect w) = videos w) ->
    (forall w, Quiet (next w)) ->
    Quiet (Await effect next).

(** How far a platform post has come: it is still calling its platform (so many calls
    were answered), it has read the record with the posts [posts] and is about to
    write it back with its own entry added, or it has written it. *)
Inductive Stage :=
| Calling (answers : nat)
| HasRead (posts : list PlatformPost.t)
| Written.

Section Stages.
Variable env : Env.
Variable videoBuffer : Buffer.
Variable description : string.
Variable hashtags : list string.
Variable v0 : VideoMetadata.t.

(** [postToYouTube] for the video [v0] at a stage, when its calls are answered. *)
Definition youtubeAt (account : YouTubeAccount.t) (s : Stage) : Async unit :=
  let start :=
    postToYouTube env (VideoMetadata.id v0) videoBuffer description hashtags account in
  let credentialed := resume start emptyWorld in
  let uploaded := resume credentialed emptyWorld in
  match s with
  | Calling 0 => start
  | Calling 1 => credentialed
  | Calling _ => uploaded
  | HasRead posts => resume uploaded (worldWith (VideoMetadata.with_platforms posts v0))
  | Written => Settled (Ok tt)
  end.

(** [postToTikTok] for the video [v0] at a stage, when its call is answered. *)
Definition tiktokAt (accessToken : string) (s : Stage) : Async unit :=
  let start :=
    postToTikTok env (VideoMetadata.id v0) videoBuffer description hashtags accessToken in
  let published := resume start emptyWorld in
  match s with
  | Calling 0 => start
  | Calling _ => published
  | HasRead posts => resume published (worldWith (VideoMetadata.with_platforms posts v0))
  | Written => Settled (Ok tt)
  end.

End Stages.

Definition platformsOf (posts : list PlatformPost.t) : list Platform :=
  map PlatformPost.platform posts.

(** A list of posts the fan-out can have written: entries that satisfy [expected], at
    most one for a platform. *)
Definition wellFormedPosts (expected : PlatformPost.t -> Prop)
    (posts : list PlatformPost.t) : Prop :=
  Forall expected posts /\ NoDup (platformsOf posts).

(** What a post that has read the record holds: a well-formed list without an entry
    of its own platform [p], and with an entry of the other platform only when that
    one's post has written. *)
Definition readBy (expected : PlatformPost.t -> Prop) (p other : Platform)
    (mine others : Stage) : Prop :=
  forall posts,
    mine = HasRead posts ->
    wellFormedPosts expected posts
    /\ (p ∉ platformsOf posts)
    /\ (other ∈ platformsOf posts -> others = Written).

(** The record of [v0] while the posts to the platforms [p] and [q] are at the stages
    [sp] and [sq]: its list of posts is well formed, holds no entry of a platform whose
    post has not written, and is not empty once one has written. *)
Definition Interleaved (expected : PlatformPost.t -> Prop) (v0 : VideoMetadata.t)
    (p q : Platform) (w : World) (sp sq : Stage) : Prop :=
  exists posts,
    videos w !! VideoMetadata.id v0 = Some (VideoMetadata.with_platforms posts v0)
    /\ wellFormedPosts expected posts
    /\ (sp <> Written -> p ∉ platformsOf posts)
    /\ (sq <> Written -> q ∉ platformsOf posts)
    /\ readBy expected p q sp sq
    /\ readBy expected q p sq sp
    /\ ((sp = Written \/ sq = Written) -> posts <> []).

(** The posts of YouTube or TikTok with the ids the platforms answered. *)
Definition youtubeOrTikTok (uploaded : YouTubeUpload.t) (published : TikTokPost.t)
    (post : PlatformPost.t) : Prop :=
  postedOn youtube (YouTubeUpload.videoId uploaded) post
  \/ postedOn tiktok (TikTokPost.publishId published) post.

(** The functions in flight during the fan-out of a niche with all platforms: the
    posts to YouTube and TikTok at some stages, and between them a function that
    leaves the video records alone. *)
Definition InFlight (env : Env) (uploaded : YouTubeUpload.t) (published : TikTokPost.t)
    (videoBuffer : Buffer) (description : string) (hashtags : list string)
    (v0 : VideoMetadata.t) (account : YouTubeAccount.t) (accessToken : string)
    (w : World) (ts : list (Async unit)) : Prop :=
  exists sy st ti,
    ts = [youtubeAt env videoBuffer description hashtags v0 account sy; ti;
          tiktokAt env videoBuffer description hashtags v0 accessToken st]
    /\ Quiet ti
    /\ Interleaved (youtubeOrTikTok uploaded published) v0 youtube tiktok w sy st.

(* ================================================================= *)
(** * The rest of the services: vocabulary *)

(** The code units of a string. *)
Definition chars (s : string) : list Ascii.ascii := String.list_ascii_of_string s.

(** ASCII text: every character is below 128. *)
Definition isAsciiText (s : string) : bool :=
  forallb (fun c => (Ascii.nat_of_ascii c <? 128)%nat) (chars s).

(** White space only. *)
Definition blank (s : string) : Prop := Forall (fun c => isSpace c = true) (chars s).

(** One of the characters [generateTitle] splits the description at. *)
Definition sentenceEnd (c : Ascii.ascii) : Prop :=
  c = "."%char \/ c = "!"%char \/ c = "?"%char.

(** An interleavable function that never throws: whatever the worlds it is resumed
    in, it settles with a value. *)
Inductive Fulfils {A : Type} : Async A -> Prop :=
| Fulfils_value (a : A) : Fulfils (Settled (Ok a))
| Fulfils_await (effect : World -> World) (next : World -> Async A) :
    (forall w, Fulfils (next w)) -> Fulfils (Await effect next).

(** An environment in which every platform rejects every call. *)
Definition platformsDown : Env :=
  mkEnv (fun n => "job-" +:+ pretty n) (fun n => "video-" +:+ pretty n) noFaults "bucket"
    (fun _ _ => []) (fun _ => Ok aPrompt) (fun _ => aVideo) (fun _ => Ok "bytes")
    (fun _ => Throw "invalid_grant") (fun _ _ _ _ => Throw "quotaExceeded")
    (fun _ _ _ _ => Throw "Instagram API error") (fun _ _ _ _ => Throw "TikTok API error")
    [].

(** An environment in which the store rejects every call that creates a job. *)
Definition jobsRejected : Env :=
  testEnv (fun c _ => if isCreateJob c then Some "UNAVAILABLE: jobs" else None)
          [] aVideo aReel [].

(** An environment in which the video provider throws and the store rejects every
    update of a job to [failed]. *)
Definition isFailedUpdate (c : Call) : bool :=
  match c with
  | UpdateJobStatus _ JobStatus.failed _ => true
  | _ => false
  end.

Definition failureUnrecorded : Env :=
  testEnv (fun c _ => if isFailedUpdate c then Some "DEADLINE_EXCEEDED" else None)
          [] (Throw "Video generation failed") aReel [].

(** The job the failed run of [worldAfterFailure] left behind. *)
Definition theFailedJob : WorkflowJob.t :=
  WorkflowJob.mk "job-0" JobType.generate JobStatus.failed "n1" None 0 (Some 1) (Some 6)
    (Some "Video generation failed") 0.

(** The videos the query [getVideosByNiche] finds among the stored ones. *)
Definition recentVideos (stored : gmap string VideoMetadata.t) (niche : string)
    (limit : nat) : list VideoMetadata.t :=
  take limit
    (merge_sort newerFirst
       (filter (fun v => VideoMetadata.niche v = niche) (map snd (map_to_list stored)))).

(* ================================================================= *)
(** ** The video provider, round by round *)

(** The outside of the video generator after the submission and [rounds] rounds of
    the polling loop: each round sleeps five seconds and issues one status request. *)
Definition afterRounds (rounds : nat) (net : VideoGenerator.Net) : VideoGenerator.Net :=
  VideoGenerator.mkNet
    (VideoGenerator.elapsed net + 5000 * N.of_nat rounds)
    (VideoGenerator.gets net + rounds)
    (S (VideoGenerator.clock net) + 2 * rounds).

(** A provider that accepts the request, answers two status requests with a status
    that is not terminal, and the third with [third]. *)
Definition providerAnswering (third : Result VideoGenerator.StatusData)
  : VideoGenerator.Http :=
  VideoGenerator.mkHttp
    (Ok (VideoGenerator.mkSubmitted "req-1" "pred-1" "https://poll" []))
    (fun n => if (n <? 2)%nat
              then Ok (VideoGenerator.mkStatusData "IN_PROGRESS" None None)
              else third).

Definition replicateConfig : VideoGenerator.Config :=
  VideoGenerator.mkConfig "replicate" 8 Resolution.r1080p true.

Definition aRequest : VideoGenerationRequest.t :=
  VideoGenerationRequest.mk "a prompt" None None None "n1".

(* ================================================================= *)
(** * The configuration ([src/config/index.ts]) *)

Module Config.

(** [process.env]. *)
Definition Environ : Type := gmap string string.

(** [process.env.NAME || fallback]: an unset and an empty variable give the
    fallback. *)
Definition orElse (value : option string) (fallback : string) : string :=
  if truthy value then default "" value else fallback.

Record Gcp := mkGcp {
  projectId : string;
  region : string;
  storageBucket : string;
  vertexAiLocation : string
}.

Record VideoGeneration := mkVideoGeneration {
  provider : string;
  falApiKey : string;
  replicateApiKey : string;
  defaultDuration : float;
  defaultResolution : Resolution.t;
  includeAudio : bool
}.

(** The blocks of [config] that the services modelled here read. *)
Record t := mk {
  gcp : Gcp;
  anthropic_apiKey : string;
  videoGeneration : VideoGeneration
}.

Definition config (environ : Environ) : t :=
  mk (mkGcp (orElse (environ !! "GCP_PROJECT_ID") "")
            (orElse (environ !! "GCP_REGION") "us-central1")
            (orElse (environ !! "GCP_STORAGE_BUCKET") "")
            (orElse (environ !! "VERTEX_AI_LOCATION") "us-central1"))
     (orElse (environ !! "ANTHROPIC_API_KEY") "")
     (mkVideoGeneration (orElse (environ !! "VIDEO_PROVIDER") "fal")
                        (orElse (environ !! "FAL_API_KEY") "")
                        (orElse (environ !! "REPLICATE_API_KEY") "")
                        8 Resolution.r1080p true).

(** [config.videoGeneration] as [VideoGeneratorService] reads it. *)
Definition generator (config : t) : VideoGenerator.Config :=
  let block := videoGeneration config in
  VideoGenerator.mkConfig (provider block) (defaultDuration block)
    (defaultResolution block) (includeAudio block).

Record Validation := mkValidation {
  valid : bool;
  errors : list string
}.

(** [!s] on a string. *)
Definition empty (s : string) : bool := String.eqb s "".

(** Validation helper. *)
Definition validateConfig (config : t) : Validation :=
  let errors := [] in
  let errors :=
    if empty (projectId (gcp config)) then errors ++ ["GCP_PROJECT_ID is required"]
    else errors in
  let errors :=
    if empty (storageBucket (gcp config)) then errors ++ ["GCP_STORAGE_BUCKET is required"]
    else errors in
  let errors :=
    if empty (anthropic_apiKey config) then errors ++ ["ANTHROPIC_API_KEY is required"]
    else errors in
  let errors :=
    if String.eqb (provider (videoGeneration config)) "fal"
       && empty (falApiKey (videoGeneration config))
    then errors ++ ["FAL_API_KEY is required when using fal provider"]
    else errors in
  let errors :=
    if String.eqb (provider (videoGeneration config)) "replicate"
       && empty (replicateApiKey (videoGeneration config))
    then errors ++ ["REPLICATE_API_KEY is required when using replicate provider"]
    else errors in
  mkValidation (length errors =? 0)%nat errors.

End Config.

(* ================================================================= *)
(** * The scheduled generator ([src/functions/scheduled-video-generator.ts]) *)

(** An awaited operation for which the vocabulary of calls has no entry: time
    passes, nothing is logged. *)
Definition tick (w : World) : World :=
  mkWorld (jobs w) (videos w) (niches w) (trending w) (blobs w) (S (clock w))
          (autoIds w) (uuids w) (calls w).

Section Scheduled.
Variable env : Env.
Variable config : Config.t.

(** The error with which Firestore rejects the listing of the niches issued at a
    time, if it does. *)
Variable listingFault : nat -> option string.

(** [DatabaseService.getAllContentNiches]. *)
Definition getAllContentNiches : M (list ContentNiche.t) :=
  fun w =>
    match listingFault (clock w) with
    | Some e => (Throw e, tick w)
    | None => (Ok (map snd (map_to_list (niches w))), tick w)
    end.

Definition sleep (ms : N) : M unit := fun w => (Ok tt, tick w).

(** The loop [for (const niche of niches)]. *)
Fixpoint forEachNiche (niches : list ContentNiche.t) : M unit :=
  match niches with
  | [] => ret tt
  | niche :: rest =>
      tryCatch
        (generateAndPostVideo env niche;; ret tt)
        (fun error => (* Continue with other niches even if one fails *) ret tt);;
      (* Add delay between niches to avoid rate limiting *)
      sleep 10000;;
      forEachNiche rest
  end.

Definition scheduledVideoGenerator : M unit :=
  tryCatch
    ((* Validate configuration *)
     let configValidation := Config.validateConfig config in
     if negb (Config.valid configValidation)
     then throw ("Invalid configuration: " +:+ join ", " (Config.errors configValidation))
     else
       (* Get all content niches *)
       let* niches := getAllContentNiches in
       if (length niches =? 0)%nat then ret tt
       else forEachNiche niches)
    (fun error => throw error).

End Scheduled.

(** A variable of the environment is set to something. *)
Definition isSet (environ : Config.Environ) (name : string) : Prop :=
  truthy (environ !! name) = true.

(** The provider names [VideoGeneratorService.generateVideo] knows. *)
Definition supportedProvider (name : string) : Prop :=
  name = "vertex" \/ name = "fal" \/ name = "replicate".

(** An environment of a deployment that uses fal.ai. *)
Definition falEnviron : Config.Environ :=
  {[ "GCP_PROJECT_ID" := "doomscroller"; "GCP_STORAGE_BUCKET" := "bucket";
     "ANTHROPIC_API_KEY" := "sk-ant"; "FAL_API_KEY" := "fal-key" ]}.

(** A world with two niches configured, the second without any account. *)
Definition secondNiche : ContentNiche.t :=
  ContentNiche.mk "n2" "Tech Tutorials" "Short tutorials" ["tutorial"] "template"
    "developers" (PostingSchedule.mk 1 ["12:00"] "UTC")
    (SocialAccountConfig.mk None None None).

Definition twoNiches : World :=
  mkWorld ∅ ∅ {[ "n1" := nicheWithAllAccounts; "n2" := secondNiche ]} [] ∅ 0 0 0 [].

(* ================================================================= *)
(** * The analytics collector ([src/functions/analytics-collector.ts]) *)

(** What YouTube's [getVideoAnalytics] answers. *)
Module YouTubeStats.
Record t := mk { views : float; likes : float; comments : float }.
End YouTubeStats.

(** What Instagram's [getReelAnalytics] and TikTok's [getVideoAnalytics] answer. *)
Module Stats.
Record t := mk { views : float; likes : float; comments : float; shares : float }.
End Stats.

Module AnalyticsData.
Record t := mk {
  videoId : string;
  platform : Platform;
  views : float;
  likes : float;
  comments : float;
  shares : float;
  watchTime : option float;
  engagementRate : float;
  fetchedAt : Date
}.
End AnalyticsData.

Module Collector.

(** The calls of the collector for which the orchestrator's vocabulary has no
    entry. *)
Inductive StatsCall :=
| GetVideoAnalytics (platform : Platform) (postId : string)
| SaveAnalytics (analytics : AnalyticsData.t).

(** The outside of the collector: the world of the orchestrator, the Firestore
    collection "analytics" (its rows in the order they were written; their document
    ids are not modelled) and the log of the collector's own calls, most recent
    first. *)
Record Outside := mkOutside {
  store : World;
  analytics : list AnalyticsData.t;
  statsCalls : list StatsCall
}.

(** What the platforms answer to the requests for statistics, and the error with
    which Firestore rejects the write of a row issued at a time, if it does. *)
Record StatsEnv := mkStatsEnv {
  youtube_getVideoAnalytics : string -> Result YouTubeStats.t;
  instagram_getReelAnalytics : string -> string -> Result Stats.t;
  analyticsFault : AnalyticsData.t -> nat -> option string
}.

Definition C (A : Type) : Type := Outside -> Result A * Outside.

#[local] Instance C_monad : Monad C := {
  ret A a := fun o => (Ok a, o);
  throw A e := fun o => (Throw e, o);
  bind A B m k :=
    fun o =>
      match m o with
      | (Ok a, o') => k a o'
      | (Throw e, o') => (Throw e, o')
      end;
  tryCatch A m handler :=
    fun o =>
      match m o with
      | (Ok a, o') => (Ok a, o')
      | (Throw e, o') => handler e o'
      end
}.

(** An operation of the orchestrator's services, run by the collector. *)
Definition onStore {A} (m : M A) : C A :=
  fun o =>
    let '(r, w) := m (store o) in
    (r, mkOutside w (analytics o) (statsCalls o)).

(** A call of the collector's own: logged, and time passes. *)
Definition called (c : StatsCall) (o : Outside) : Outside :=
  mkOutside (tick (store o)) (analytics o) (c :: statsCalls o).

Section Collector.
Variable env : Env.
Variable stats : StatsEnv.

(** [YouTubePosterService.getVideoAnalytics]. *)
Definition youtube_stats (postId : string) : C YouTubeStats.t :=
  fun o => (youtube_getVideoAnalytics stats postId, called (GetVideoAnalytics youtube postId) o).

(** [InstagramPosterService.getReelAnalytics]. *)
Definition instagram_stats (accessToken postId : string) : C Stats.t :=
  fun o =>
    (instagram_getReelAnalytics stats accessToken postId,
     called (GetVideoAnalytics instagram postId) o).

(** [TikTokPosterService.getVideoAnalytics]: a placeholder that answers zeros and
    asks nobody. *)
Definition tiktok_stats (postId : string) : C Stats.t :=
  ret (Stats.mk 0 0 0 0).

(** [DatabaseService.saveAnalytics]. *)
Definition saveAnalytics (data : AnalyticsData.t) : C unit :=
  fun o =>
    match analyticsFault stats data (clock (store o)) with
    | Some e => (Throw e, called (SaveAnalytics data) o)
    | None =>
        (Ok tt,
         mkOutside (tick (store o)) (analytics o ++ [data]) (SaveAnalytics data :: statsCalls o))
    end.

(** [platformPost.views = ...; platformPost.likes = ...; platformPost.comments = ...]. *)
Definition withStats (data : AnalyticsData.t) (post : PlatformPost.t) : PlatformPost.t :=
  PlatformPost.mk (PlatformPost.platform post) (PlatformPost.postId post)
    (PlatformPost.postedAt post) (PlatformPost.status post) (PlatformPost.error post)
    (Some (AnalyticsData.views data)) (Some (AnalyticsData.likes data))
    (Some (AnalyticsData.comments data)).

(** The body of the [try] in the loop over the posts of a video; it yields the post as
    the loop leaves it.  [analytics.views !== undefined] holds exactly when a branch of
    the [switch] has fetched statistics. *)
Definition collectPost (videoId : string) (niche : ContentNiche.t)
    (platformPost : PlatformPost.t) : C PlatformPost.t :=
  if negb (bool_decide (PlatformPost.status platformPost = PostStatus.posted))
     || negb (truthy (PlatformPost.postId platformPost))
  then ret platformPost (* continue *)
  else
    let postId := default "" (PlatformPost.postId platformPost) in
    let accounts := ContentNiche.socialAccounts niche in
    let* fetchedAt := onStore now in
    (* Collect platform-specific analytics *)
    let* analytics :=
      match PlatformPost.platform platformPost with
      | youtube =>
          match SocialAccountConfig.youtube accounts with
          | Some account =>
              onStore (setCredentials env (YouTubeAccount.refreshToken account));;
              let* stats := youtube_stats postId in
              ret (Some (AnalyticsData.mk videoId youtube
                           (YouTubeStats.views stats) (YouTubeStats.likes stats)
                           (YouTubeStats.comments stats) 0 None
                           (calculateEngagementRate (YouTubeStats.views stats)
                              (YouTubeStats.likes stats) (YouTubeStats.comments stats) None)
                           fetchedAt))
          | None => ret None
          end
      | instagram =>
          match SocialAccountConfig.instagram accounts with
          | Some account =>
              let* stats := instagram_stats (InstagramAccount.accessToken account) postId in
              ret (Some (AnalyticsData.mk videoId instagram
                           (Stats.views stats) (Stats.likes stats) (Stats.comments stats)
                           (Stats.shares stats) None
                           (calculateEngagementRate (Stats.views stats) (Stats.likes stats)
                              (Stats.comments stats) (Some (Stats.shares stats)))
                           fetchedAt))
          | None => ret None
          end
      | tiktok =>
          match SocialAccountConfig.tiktok accounts with
          | Some account =>
              if truthy (TikTokAccount.accessToken account)
              then
                let* stats := tiktok_stats postId in
                ret (Some (AnalyticsData.mk videoId tiktok
                             (Stats.views stats) (Stats.likes stats) (Stats.comments stats)
                             (Stats.shares stats) None
                             (calculateEngagementRate (Stats.views stats) (Stats.likes stats)
                                (Stats.comments stats) (Some (Stats.shares stats)))
                             fetchedAt))
              else ret None
          | None => ret None
          end
      end in
    (* Save analytics to database *)
    match analytics with
    | Some data =>
        saveAnalytics data;;
        (* Update platform post with latest stats *)
        ret (withStats data platformPost)
    | None => ret platformPost
    end.

(** The loop [for (const platformPost of video.platforms)]: an error in the body is
    logged and the loop goes on with the next post. *)
Fixpoint forEachPost (videoId : string) (niche : ContentNiche.t)
    (posts : list PlatformPost.t) : C (list PlatformPost.t) :=
  match posts with
  | [] => ret []
  | platformPost :: rest =>
      let* platformPost :=
        tryCatch (collectPost videoId niche platformPost) (fun error => ret platformPost) in
      let* rest := forEachPost videoId niche rest in
      ret (platformPost :: rest)
  end.

Definition collectVideoAnalytics (video : VideoMetadata.t) (niche : ContentNiche.t)
  : C unit :=
  let* platforms :=
    forEachPost (VideoMetadata.id video) niche (VideoMetadata.platforms video) in
  (* Save updated video metadata *)
  onStore (saveVideoMetadata env (VideoMetadata.with_platforms platforms video)).

End Collector.
End Collector.

(** The statistics of a post are fetched: it is posted, has a post id, and its
    platform is enabled on the niche. *)
Definition collected (niche : ContentNiche.t) (post : PlatformPost.t) : bool :=
  bool_decide (PlatformPost.status post = PostStatus.posted)
  && truthy (PlatformPost.postId post)
  && platformEnabled niche (PlatformPost.platform post).

(** The post [after] is the post [before] with, perhaps, other statistics. *)
Definition samePost (before after : PlatformPost.t) : Prop :=
  PlatformPost.platform after = PlatformPost.platform before
  /\ PlatformPost.postId after = PlatformPost.postId before
  /\ PlatformPost.postedAt after = PlatformPost.postedAt before
  /\ PlatformPost.status after = PlatformPost.status before
  /\ PlatformPost.error after = PlatformPost.error before.

(** A row of statistics as the collector writes it for the video [video]. *)
Definition rowOf (video : VideoMetadata.t) (row : AnalyticsData.t) : Prop :=
  AnalyticsData.videoId row = VideoMetadata.id video
  /\ (exists post,
        post ∈ VideoMetadata.platforms video
        /\ PlatformPost.platform post = AnalyticsData.platform row
        /\ PlatformPost.status post = PostStatus.posted)
  /\ AnalyticsData.engagementRate row
     = calculateEngagementRate (AnalyticsData.views row) (AnalyticsData.likes row)
         (AnalyticsData.comments row) (Some (AnalyticsData.shares row))
  /\ (AnalyticsData.platform row = youtube -> AnalyticsData.shares row = 0%float)
  /\ (AnalyticsData.platform row = tiktok ->
      AnalyticsData.views row = 0%float /\ AnalyticsData.likes row = 0%float
      /\ AnalyticsData.comments row = 0%float /\ AnalyticsData.shares row = 0%float
      /\ AnalyticsData.engagementRate row = 0%float).

(** What the collection of one post does: it never throws out of its [try]; the post
    stays the same post; a row is written only for a post whose statistics are
    collected, and the post gets the statistics of that row; no record of the store
    changes. *)
Record Collected (niche : ContentNiche.t) (video : VideoMetadata.t)
    (post : PlatformPost.t) (o : Collector.Outside)
    (outcome : Result PlatformPost.t * Collector.Outside) : Prop := mkCollected {
  collected_post :
    exists after, fst outcome = Ok after /\ samePost post after
                  /\ (collected niche post = false -> after = post);
  collected_rows :
    exists rows,
      Collector.analytics (snd outcome) = Collector.analytics o ++ rows
      /\ length rows <= (if collected niche post then 1 else 0)
      /\ Forall (fun row =>
                   AnalyticsData.videoId row = VideoMetadata.id video
                   /\ AnalyticsData.platform row = PlatformPost.platform post
                   /\ PlatformPost.status post = PostStatus.posted
                   /\ AnalyticsData.engagementRate row
                      = calculateEngagementRate (AnalyticsData.views row)
                          (AnalyticsData.likes row) (AnalyticsData.comments row)
                          (Some (AnalyticsData.shares row))
                   /\ (AnalyticsData.platform row = youtube ->
                       AnalyticsData.shares row = 0%float)
                   /\ (AnalyticsData.platform row = tiktok ->
                       AnalyticsData.views row = 0%float
                       /\ AnalyticsData.likes row = 0%float
                       /\ AnalyticsData.comments row = 0%float
                       /\ AnalyticsData.shares row = 0%float
                       /\ AnalyticsData.engagementRate row = 0%float)
                   /\ fst outcome = Ok (Collector.withStats row post)) rows;
  collected_videos : videos (Collector.store (snd outcome)) = videos (Collector.store o);
  collected_jobs : jobs (Collector.store (snd outcome)) = jobs (Collector.store o)
}.

(* ================================================================= *)
(** * [InstagramPosterService] ([src/services/instagram-poster.ts]) *)

Module InstagramPoster.

(** The requests to the Graph API (the access token every one of them carries is left
    out). *)
Inductive Request :=
| CreateMedia (accountId video_url caption : string) (cover_url : option string)
| GetStatusCode (containerId : string)
| MediaPublish (accountId creation_id : string)
| GetPermalink (mediaId : string).

(** What the Graph API answers: the id of the container, the status code of a
    container at the n-th status request, the id of the published media and its
    permalink. *)
Record Graph := mkGraph {
  media : string -> string -> string -> option string -> Result string;
  status_code : string -> nat -> Result string;
  media_publish : string -> string -> Result string;
  permalink : string -> Result string
}.

(** The outside of the poster: the time spent in [sleep], in milliseconds, the number
    of status requests issued, and the requests issued, most recent first. *)
Record Net := mkNet {
  elapsed : N;
  checks : nat;
  requests : list Request
}.

Definition sleep (ms : N) (net : Net) : Net :=
  mkNet (elapsed net + ms) (checks net) (requests net).

Definition sent (r : Request) (net : Net) : Net :=
  mkNet (elapsed net) (checks net) (r :: requests net).

Section Service.
Variable graph : Graph.

(** Create a media container for the Reel. *)
Definition createMediaContainer (accountId videoUrl caption : string)
    (coverUrl : option string) (net : Net) : Result string * Net :=
  let caption := substring0 2200 caption (* Instagram caption limit *) in
  let cover_url := if truthy coverUrl then coverUrl else None in
  (media graph accountId videoUrl caption cover_url,
   sent (CreateMedia accountId videoUrl caption cover_url) net).

(** The loop of [waitForMediaProcessing] with [remaining] rounds to go. *)
Fixpoint checkStatus (containerId : string) (remaining : nat) (net : Net)
  : Result unit * Net :=
  match remaining with
  | 0 => (Throw "Media processing timed out", net)
  | S remaining =>
      let net := sleep 5000 net (* Wait 5 seconds between checks *) in
      let answer := status_code graph containerId (checks net) in
      let net :=
        mkNet (elapsed net) (S (checks net)) (GetStatusCode containerId :: requests net) in
      match answer with
      | Throw e => (Throw e, net)
      | Ok statusCode =>
          if String.eqb statusCode "FINISHED" then (Ok tt, net)
          else if String.eqb statusCode "ERROR" then (Throw "Media processing failed", net)
          else checkStatus containerId remaining net
      end
  end.

(** Wait for Instagram to finish processing the video. *)
Definition waitForMediaProcessing (containerId : string) (maxAttempts : option nat)
    (net : Net) : Result unit * Net :=
  checkStatus containerId (default 20 maxAttempts) net.

(** Publish the media container. *)
Definition publishMediaContainer (accountId containerId : string) (net : Net)
  : Result string * Net :=
  (media_publish graph accountId containerId, sent (MediaPublish accountId containerId) net).

(** Get permalink for published media. *)
Definition getMediaPermalink (mediaId : string) (net : Net) : Result string * Net :=
  (permalink graph mediaId, sent (GetPermalink mediaId) net).

(** Post a Reel to Instagram. *)
Definition postReel (accountId videoUrl caption : string) (coverUrl : option string)
    (net : Net) : Result Reel.t * Net :=
  (* Step 1: Create media container *)
  match createMediaContainer accountId videoUrl caption coverUrl net with
  | (Throw e, net) => (Throw e, net)
  | (Ok containerId, net) =>
      (* Step 2: Wait for processing *)
      match waitForMediaProcessing containerId None net with
      | (Throw e, net) => (Throw e, net)
      | (Ok _, net) =>
          (* Step 3: Publish the container *)
          match publishMediaContainer accountId containerId net with
          | (Throw e, net) => (Throw e, net)
          | (Ok mediaId, net) =>
              (* Step 4: Get permalink *)
              match getMediaPermalink mediaId net with
              | (Throw e, net) => (Throw e, net)
              | (Ok permalink, net) => (Ok (Reel.mk mediaId permalink), net)
              end
          end
      end
  end.

End Service.

(** The requests issued between two states of one execution, oldest first. *)
Definition issued (net net' : Net) : list Request :=
  rev (take (length (requests net') - length (requests net)) (requests net')).

End InstagramPoster.

(** The status code lets the wait go round again. *)
Definition processing (statusCode : Result string) : Prop :=
  exists code, statusCode = Ok code /\ code <> "FINISHED" /\ code <> "ERROR".

(** A Graph API that finishes a container at its third status request and publishes
    it, and whose permalink request answers [link]. *)
Definition graphAnswering (link : Result string) : InstagramPoster.Graph :=
  InstagramPoster.mkGraph
    (fun _ _ _ _ => Ok "container-1")
    (fun _ n => if (n <? 2)%nat then Ok "IN_PROGRESS" else Ok "FINISHED")
    (fun _ _ => Ok "media-1")
    (fun _ => link).

(* ================================================================= *)
(** * [YouTubePosterService] ([src/services/youtube-poster.ts]): uploading *)

Module YouTubePoster.

(** The request [youtube.videos.insert] is called with; [media] is what the read
    stream of the file yields. *)
Record Insert := mkInsert {
  title : string;
  description : string;
  categoryId : string;
  tags : list string;
  privacyStatus : string;
  selfDeclaredMadeForKids : bool;
  media : Buffer
}.

(** The outside of the poster: the files of the local disk and the insert requests
    issued, most recent first. *)
Record Machine := mkMachine {
  files : gmap string Buffer;
  inserts : list Insert
}.

Definition writeFileSync (path : string) (data : Buffer) (m : Machine) : Machine :=
  mkMachine (<[path := data]> (files m)) (inserts m).

Definition unlinkSync (path : string) (m : Machine) : Machine :=
  mkMachine (delete path (files m)) (inserts m).

Section Service.

(** What YouTube answers to an insert: the id of the video (taken to be present, as
    the code asserts). *)
Variable videos_insert : Insert -> Result string.

(** Upload a video as a YouTube Short.  A path that names no file makes the read
    stream, and with it the request, fail. *)
Definition uploadShort (videoPath title description : string) (hashtags : list string)
    (m : Machine) : Result YouTubeUpload.t * Machine :=
  (* Add #Shorts to description for YouTube to recognize it as a Short *)
  let fullDescription :=
    description +:+ newline +:+ newline +:+ hashtagLine hashtags +:+ newline +:+ newline
    +:+ "#Shorts" in
  match files m !! videoPath with
  | None => (Throw ("ENOENT: no such file or directory, open '" +:+ videoPath +:+ "'"), m)
  | Some body =>
      let request :=
        mkInsert (substring0 100 title (* YouTube title limit *)) fullDescription "22"
          (hashtags ++ ["Shorts"]) "public" false body in
      let m := mkMachine (files m) (request :: inserts m) in
      match videos_insert request with
      | Throw e => (Throw e, m)
      | Ok videoId =>
          (Ok (YouTubeUpload.mk videoId ("https://www.youtube.com/shorts/" +:+ videoId)), m)
      end
  end.

(** Upload a Short from buffer; [now] is the reading of [Date.now()]. *)
Definition uploadShortFromBuffer (now : nat) (videoBuffer : Buffer)
    (title description : string) (hashtags : list string) (m : Machine)
  : Result YouTubeUpload.t * Machine :=
  (* Create temporary file *)
  let tmpPath := "/tmp/video_" +:+ pretty now +:+ ".mp4" in
  let m := writeFileSync tmpPath videoBuffer m in
  match uploadShort tmpPath title description hashtags m with
  | (Throw e, m) => (Throw e, m)
  | (Ok result, m) =>
      (* Clean up temp file *)
      (Ok result, unlinkSync tmpPath m)
  end.

End Service.
End YouTubePoster.

(** The string [s] ends with [suffix]. *)
Definition endsWith (suffix s : string) : Prop := exists before, s = before +:+ suffix.

(* ================================================================= *)
(** * [TrendingTopicsService] ([src/services/trending-topics.ts]): the pure parts *)

Module Trending.

(** [/[a-zA-Z0-9]/] on one code unit. *)
Definition isAlphanumeric (c : Ascii.ascii) : bool :=
  let n := Ascii.nat_of_ascii c in
  ((48 <=? n)%nat && (n <=? 57)%nat)
  || ((65 <=? n)%nat && (n <=? 90)%nat)
  || ((97 <=? n)%nat && (n <=? 122)%nat).

(** [s.replace(/[^...]/g, "")]: the characters of [s] that [keep] accepts. *)
Fixpoint keepChars (keep : Ascii.ascii -> bool) (s : string) : string :=
  match s with
  | EmptyString => EmptyString
  | String c s' => if keep c then String c (keepChars keep s') else keepChars keep s'
  end.

(** Convert topic to hashtag. *)
Definition toHashtag (text : string) : string :=
  substring0 30 (* Hashtag length limit *)
    (keepChars (fun c => negb (isSpace c))
       (keepChars (fun c => isAlphanumeric c || isSpace c) text)).

(** [hashtags.add(hashtag)] on a [Set], whose elements are kept in the order of their
    insertion. *)
Definition add (hashtag : string) (hashtags : list string) : list string :=
  if decide (hashtag ∈ hashtags) then hashtags else hashtags ++ [hashtag].

(** [if (hashtag.length > 0) hashtags.add(hashtag)]. *)
Definition addHashtag (hashtags : list string) (text : string) : list string :=
  let hashtag := toHashtag text in
  if (0 <? String.length hashtag)%nat then add hashtag hashtags else hashtags.

(** Get top hashtags from trending topics. *)
Definition getHashtagsFromTopics (topics : list TrendingTopic.t) : list string :=
  let hashtags :=
    foldl (fun hashtags topic =>
             let hashtags := addHashtag hashtags (TrendingTopic.topic topic) in
             (* Add related keywords as hashtags *)
             foldl addHashtag hashtags (TrendingTopic.relatedKeywords topic))
          [] topics in
  take 15 hashtags.

(** The topic matches one of the keywords of the niche. *)
Definition relevant (nicheKeywords : list string) (topic : TrendingTopic.t) : bool :=
  let topicLower := toLowerCase (TrendingTopic.topic topic) in
  existsb (fun keyword => includes topicLower (toLowerCase keyword)) nicheKeywords.

(** Analyze trending topics for a specific niche; [fetched] is the outcome of
    [fetchTrendingTopics(30)]. *)
Definition getTrendingForNiche (fetched : Result (list TrendingTopic.t)) (niche : string)
    (nicheKeywords : list string) : list TrendingTopic.t :=
  match fetched with
  | Ok allTopics =>
      (* Filter topics that match niche keywords *)
      let relevantTopics := List.filter (relevant nicheKeywords) allTopics in
      take 10 relevantTopics
  | Throw error => []
  end.

End Trending.

(** The texts a list of topics offers as hashtags: the topics and their related
    keywords. *)
Definition hashtagSources (topics : list TrendingTopic.t) : list string :=
  flat_map (fun topic => TrendingTopic.topic topic :: TrendingTopic.relatedKeywords topic)
           topics.

(** A hashtag as [getHashtagsFromTopics] makes it. *)
Definition wellFormedHashtag (hashtag : string) : Prop :=
  0 < String.length hashtag <= 30
  /\ Forall (fun c => Trending.isAlphanumeric c = true) (chars hashtag).

(* ================================================================= *)
(** * [PromptGeneratorService.generateMultiplePrompts] *)

Module PromptGenerator.

(** The request object of the caller, which the loop mutates, and the requests sent to
    [generatePrompt], most recent first. *)
Record Session := mkSession {
  request : PromptGenerationRequest.t;
  asked : list PromptGenerationRequest.t
}.

(** [if (!request.previousPrompts) request.previousPrompts = [];
     request.previousPrompts.push(prompt)]. *)
Definition pushPrevious (prompt : string) (request : PromptGenerationRequest.t)
  : PromptGenerationRequest.t :=
  let previousPrompts :=
    match PromptGenerationRequest.previousPrompts request with
    | Some previousPrompts => previousPrompts
    | None => []
    end in
  PromptGenerationRequest.mk (PromptGenerationRequest.niche request)
    (PromptGenerationRequest.trendingTopics request)
    (Some (previousPrompts ++ [prompt]))
    (PromptGenerationRequest.style request).

Section Service.

(** What [generatePrompt] answers to a request. *)
Variable generatePrompt : PromptGenerationRequest.t -> Result PromptGenerationResponse.t.

(** The loop [for (let i = 0; i < count; i++)] with [remaining] rounds to go. *)
Fixpoint generateLoop (remaining : nat) (prompts : list PromptGenerationResponse.t)
    (s : Session) : Result (list PromptGenerationResponse.t) * Session :=
  match remaining with
  | 0 => (Ok prompts, s)
  | S remaining =>
      let s' := mkSession (request s) (request s :: asked s) in
      match generatePrompt (request s) with
      | Throw e => (Throw e, s')
      | Ok prompt =>
          (* Add generated prompt to previousPrompts to ensure diversity *)
          generateLoop remaining (prompts ++ [prompt])
            (mkSession (pushPrevious (PromptGenerationResponse.prompt prompt) (request s))
                       (asked s'))
      end
  end.

(** Generate multiple prompt variations. *)
Definition generateMultiplePrompts (request : PromptGenerationRequest.t)
    (count : option nat) : Result (list PromptGenerationResponse.t) * Session :=
  generateLoop (default 3 count) [] (mkSession request []).

End Service.
End PromptGenerator.

(** The request after the prompts [prompts] were fed back into it. *)
Definition fedBack (request : PromptGenerationRequest.t) (prompts : list string)
  : PromptGenerationRequest.t :=
  match prompts with
  | [] => request
  | _ =>
      PromptGenerationRequest.mk (PromptGenerationRequest.niche request)
        (PromptGenerationRequest.trendingTopics request)
        (Some (default [] (PromptGenerationRequest.previousPrompts request) ++ prompts))
        (PromptGenerationRequest.style request)
  end.

(* ================================================================= *)
(** * [StorageService] ([src/lib/storage.ts]): reading the bucket *)

Module Storage.
Section Service.

(** The error with which Cloud Storage rejects an operation on a path issued at a
    time, if it does. *)
Variable storageFault : string -> nat -> option string.

Definition NO_SUCH_OBJECT (storagePath : string) : string :=
  "No such object: " +:+ storagePath.

(** Download a video from Cloud Storage. *)
Definition downloadVideo (storagePath : string) : M Buffer :=
  fun w =>
    match storageFault storagePath (clock w) with
    | Some e => (Throw e, tick w)
    | None =>
        match blobs w !! storagePath with
        | Some buffer => (Ok buffer, tick w)
        | None => (Throw (NO_SUCH_OBJECT storagePath), tick w)
        end
    end.

(** Delete a video from Cloud Storage. *)
Definition deleteVideo (storagePath : string) : M unit :=
  fun w =>
    match storageFault storagePath (clock w) with
    | Some e => (Throw e, tick w)
    | None =>
        match blobs w !! storagePath with
        | Some _ => (Ok tt, set_blobs (delete storagePath) (tick w))
        | None => (Throw (NO_SUCH_OBJECT storagePath), tick w)
        end
    end.

(** List all videos in a niche. *)
Definition listVideos (niche : option string) : M (list string) :=
  fun w =>
    let prefix := if truthy niche then "videos/" +:+ default "" niche +:+ "/" else "videos/" in
    match storageFault prefix (clock w) with
    | Some e => (Throw e, tick w)
    | None =>
        (Ok (List.filter (startsWith prefix) (map fst (map_to_list (blobs w)))), tick w)
    end.

End Service.
End Storage.

(** A world with three videos stored, two of them of the niche ["n1"]. *)
Definition videoAt (id niche : string) (createdAt : Date) : VideoMetadata.t :=
  VideoMetadata.mk id niche ("prompt of " +:+ id) ("https://storage/" +:+ id)
    ("videos/" +:+ niche +:+ "/" +:+ id +:+ ".mp4") 8 createdAt VideoStatus.posted [].

Definition threeVideos : World :=
  mkWorld ∅
    {[ "a" := videoAt "a" "n1" 1; "b" := videoAt "b" "n2" 3; "c" := videoAt "c" "n1" 5 ]}
    ∅ [] ∅ 7 0 0 [].

(** A job as a caller hands it to [createJob], with an id and a time of its own. *)
Definition callersJob : WorkflowJob.t :=
  WorkflowJob.mk "mine" JobType.generate JobStatus.queued "n1" None 99 None None None 0.

(* ================================================================= *)
(** * Properties *)

(* ================================================================= *)
(** ** Strings *)

Lemma startsWith_prefix (p s : string) :
  startsWith p s = true <-> exists rest, s = p +:+ rest.
Proof.
  revert s. induction p as [|a p IH]; intros s; simpl.
  - split; [intros _; by exists s | done].
  - destruct s as [|b s].
    + split; [done | intros [rest Hrest]; discriminate].
    + destruct (Ascii.eqb_spec a b) as [->|Hne].
      * rewrite IH. split; intros [rest Hrest]; exists rest.
        -- by rewrite Hrest.
        -- by injection Hrest.
      * split; [done | intros [rest Hrest]; injection Hrest; congruence].
Qed.

(** [includes] is the substring test: it holds exactly when the haystack splits
    around an occurrence of the needle. *)
Lemma includes_substring (s sub : string) :
  includes s sub = true <-> exists pre post, s = pre +:+ sub +:+ post.
Proof.
  induction s as [|c s IH]; simpl.
  - rewrite orb_false_r, startsWith_prefix. split.
    + intros [rest Hrest]. by exists "", rest.
    + intros [pre [post H]]. destruct pre; [by exists post | discriminate].
  - rewrite orb_true_iff, startsWith_prefix, IH. split.
    + intros [[rest Hrest] | [pre [post H]]].
      * by exists "", rest.
      * exists (String c pre), post. simpl. by rewrite H.
    + intros [pre [post H]]. destruct pre as [|c' pre]; simpl in H.
      * left. by exists post.
      * right. exists pre, post. by injection H.
Qed.

Lemma toLowerCase_length (s : string) : String.length (toLowerCase s) = String.length s.
Proof. induction s; simpl; congruence. Qed.

(** C5. Style inference is a function of the niche's display name only, and it is the
    first-matching-bucket rule of the specification: the lower-cased name is searched
    for the keywords of [educational], then [motivational], then [news], and
    [entertainment] is the default.  The three names of the specification map to
    [motivational], [educational] and [entertainment]. *)
Theorem getStyleFromNiche_first_matching_bucket :
  (forall niche : ContentNiche.t,
     getStyleFromNiche niche = styleOfName (ContentNiche.name niche))
  /\ (forall id description keywords promptTemplate targetAudience postingSchedule
        socialAccounts id' description' keywords' promptTemplate' targetAudience'
        postingSchedule' socialAccounts' name,
       getStyleFromNiche
         (ContentNiche.mk id name description keywords promptTemplate targetAudience
            postingSchedule socialAccounts)
       = getStyleFromNiche
           (ContentNiche.mk id' name description' keywords' promptTemplate'
              targetAudience' postingSchedule' socialAccounts'))
  /\ styleOfName "Daily Motivation Boost" = Style.motivational
  /\ styleOfName "Tech Tutorials" = Style.educational
  /\ styleOfName "Random Fun" = Style.entertainment.
Proof.
  assert (Hspec : forall niche,
             getStyleFromNiche niche = styleOfName (ContentNiche.name niche)).
  { intros niche. unfold getStyleFromNiche, styleOfName, styleBuckets. simpl.
    rewrite !orb_false_r, !orb_assoc. reflexivity. }
  split; [exact Hspec |].
  split; [intros; by rewrite !Hspec |].
  by vm_compute.
Qed.

(** A name that matches several buckets resolves to the first one in the fixed order:
    the tie-break of the specification. *)
Lemma styleOfName_tie_break :
  styleOfName "Success News: Learn Daily" = Style.educational
  /\ styleOfName "Success News" = Style.motivational
  /\ styleOfName "TRENDING now" = Style.news.
Proof. by vm_compute. Qed.

(* ================================================================= *)
(** ** The engagement rate *)

(** A number that is greater than zero is not equal to zero (IEEE 754 comparison). *)
Lemma float_positive_nonzero (x : float) :
  PrimFloat.ltb 0 x = true -> PrimFloat.eqb x 0 = false.
Proof.
  rewrite FloatAxioms.ltb_spec, FloatAxioms.eqb_spec. unfold SFltb, SFeqb.
  replace (Prim2SF 0) with (S754_zero false) by reflexivity.
  destruct (Prim2SF x) as [[]|[]| |[] m e]; simpl; try discriminate; auto.
Qed.

(** C7. For numbers [views > 0] the engagement rate is
    [(likes + comments + shares) / views * 100]; for [views = 0] it is exactly [0] and
    nothing is raised (the function is total); the omitted [shares] counts as [0]; and
    [views = 100, likes = 10, comments = 5, shares = 5] gives exactly [20]. *)
Theorem calculateEngagementRate_formula :
  (forall views likes comments shares : float,
     PrimFloat.ltb 0 views = true ->
     calculateEngagementRate views likes comments (Some shares)
     = ((likes + comments + shares) / views * 100)%float)
  /\ (forall (likes comments : float) (shares : option float),
        calculateEngagementRate 0 likes comments shares = 0%float)
  /\ (forall views likes comments : float,
        calculateEngagementRate views likes comments None
        = calculateEngagementRate views likes comments (Some 0%float))
  /\ calculateEngagementRate 100 10 5 (Some 5%float) = 20%float.
Proof.
  split; [| split; [| split]].
  - intros views likes comments shares Hpos. unfold calculateEngagementRate. simpl.
    by rewrite (float_positive_nonzero views Hpos).
  - reflexivity.
  - reflexivity.
  - by vm_compute.
Qed.

(** Rounding is that of binary64: a third of the views engaging gives the double
    nearest to 100/3 (33.33333333333333), and 7 engagements in 100 views give
    7.000000000000001. *)
Lemma calculateEngagementRate_rounds :
  calculateEngagementRate 3 1 0 None = 0x1.0aaaaaaaaaaaap+5%float
  /\ calculateEngagementRate 100 7 0 None = 0x1.c000000000001p+2%float.
Proof. by vm_compute. Qed.

(* ================================================================= *)
(** ** The polling loops of the video generator *)

Section Polling.
Import VideoGenerator.
Variable http : Http.

(** The loops unfold as the source reads. *)
Lemma pollFal_unfold (attempts : nat) (net : Net) :
  pollFal http attempts net =
  if decide (attempts < maxAttempts) then
    let net := sleep 5000%N net in
    match axios_get http net with
    | (Throw e, net) => (Throw e, net)
    | (Ok data, net) =>
        if String.eqb (status data) "COMPLETED" then (Ok (video_url data), net)
        else if String.eqb (status data) "FAILED"
             then (Throw "Video generation failed", net)
             else pollFal http (S attempts) net
    end
  else (Ok None, net).
Proof. simp pollFal. destruct (decide (attempts < maxAttempts)); reflexivity. Qed.

Lemma pollReplicate_unfold (attempts : nat) (net : Net) :
  pollReplicate http attempts net =
  if decide (attempts < maxAttempts) then
    let net := sleep 5000%N net in
    match axios_get http net with
    | (Throw e, net) => (Throw e, net)
    | (Ok data, net) =>
        if String.eqb (status data) "succeeded" then (Ok (output data), net)
        else if String.eqb (status data) "failed" || String.eqb (status data) "canceled"
             then (Throw ("Video generation " +:+ status data), net)
             else pollReplicate http (S attempts) net
    end
  else (Ok None, net).
Proof. simp pollReplicate. destruct (decide (attempts < maxAttempts)); reflexivity. Qed.

(** Induction along the loop: a property of the loop entered with [attempts] rounds
    done follows from the property one round later, which is only needed below the
    ceiling. *)
Lemma attempts_ind (P : nat -> Prop) :
  (forall attempts, (attempts < maxAttempts -> P (S attempts)) -> P attempts) ->
  forall attempts, P attempts.
Proof.
  intros Hstep attempts.
  remember (maxAttempts - attempts) as n eqn:Hn.
  revert attempts Hn. induction n as [|n IH]; intros attempts Hn; apply Hstep; intros Hlt.
  - lia.
  - apply IH. lia.
Qed.

Ltac loop_step unfold_lemma attempts net :=
  revert net; induction attempts as [attempts IH] using attempts_ind; intros net;
  rewrite unfold_lemma; destruct (decide (attempts < maxAttempts)) as [Hlt|Hge];
  cbv zeta; unfold axios_get, sleep; cbn [gets elapsed clock].

(** Each round of the loop sleeps five seconds and issues one status request; the
    loop entered with [attempts] rounds done issues at most [maxAttempts - attempts]
    more. *)
Lemma pollFal_bounded (attempts : nat) (net : Net) :
  gets net <= gets (snd (pollFal http attempts net)) <= gets net + (maxAttempts - attempts)
  /\ elapsed (snd (pollFal http attempts net))
     = (elapsed net + 5000 * N.of_nat (gets (snd (pollFal http attempts net)) - gets net))%N.
Proof.
  loop_step pollFal_unfold attempts net; [| cbn [snd]; lia].
  destruct (get http (gets net)) as [data|e]; [| cbn [snd gets elapsed clock]; lia].
  destruct (String.eqb (status data) "COMPLETED"); [cbn [snd gets elapsed clock]; lia |].
  destruct (String.eqb (status data) "FAILED"); [cbn [snd gets elapsed clock]; lia |].
  specialize (IH Hlt (mkNet (elapsed net + 5000) (S (gets net)) (S (S (clock net))))).
  cbn [gets elapsed clock] in IH. lia.
Qed.

Lemma pollReplicate_bounded (attempts : nat) (net : Net) :
  gets net <= gets (snd (pollReplicate http attempts net))
           <= gets net + (maxAttempts - attempts)
  /\ elapsed (snd (pollReplicate http attempts net))
     = (elapsed net + 5000 * N.of_nat (gets (snd (pollReplicate http attempts net)) - gets net))%N.
Proof.
  loop_step pollReplicate_unfold attempts net; [| cbn [snd]; lia].
  destruct (get http (gets net)) as [data|e]; [| cbn [snd gets elapsed clock]; lia].
  destruct (String.eqb (status data) "succeeded"); [cbn [snd gets elapsed clock]; lia |].
  destruct (String.eqb (status data) "failed" || String.eqb (status data) "canceled");
    [cbn [snd gets elapsed clock]; lia |].
  specialize (IH Hlt (mkNet (elapsed net + 5000) (S (gets net)) (S (S (clock net))))).
  cbn [gets elapsed clock] in IH. lia.
Qed.

(** While every answer is pending the loop goes on to the ceiling, and leaves with
    [videoUrl] still [null]. *)
Lemma pollFal_pending (attempts : nat) (net : Net) :
  (forall k, gets net <= k < gets net + (maxAttempts - attempts) -> falPending http k) ->
  pollFal http attempts net
  = (Ok None, mkNet (elapsed net + 5000 * N.of_nat (maxAttempts - attempts))
                    (gets net + (maxAttempts - attempts))
                    (clock net + 2 * (maxAttempts - attempts))).
Proof.
  loop_step pollFal_unfold attempts net; intros Hpending.
  - destruct (Hpending (gets net)) as (data & Hget & Hc & Hf); [lia |].
    rewrite Hget. apply String.eqb_neq in Hc, Hf. rewrite Hc, Hf.
    rewrite (IH Hlt); cbn [gets elapsed clock].
    + f_equal. f_equal; lia.
    + intros k Hk. apply Hpending. lia.
  - replace (maxAttempts - attempts) with 0 by lia.
    destruct net as [e g c]. cbn [gets elapsed clock]. f_equal. f_equal; lia.
Qed.

Lemma pollReplicate_pending (attempts : nat) (net : Net) :
  (forall k, gets net <= k < gets net + (maxAttempts - attempts) -> replicatePending http k) ->
  pollReplicate http attempts net
  = (Ok None, mkNet (elapsed net + 5000 * N.of_nat (maxAttempts - attempts))
                    (gets net + (maxAttempts - attempts))
                    (clock net + 2 * (maxAttempts - attempts))).
Proof.
  loop_step pollReplicate_unfold attempts net; intros Hpending.
  - destruct (Hpending (gets net)) as (data & Hget & Hs & Hf & Hc); [lia |].
    rewrite Hget. apply String.eqb_neq in Hs, Hf, Hc. rewrite Hs, Hf, Hc.
    cbn [orb]. rewrite (IH Hlt); cbn [gets elapsed clock].
    + f_equal. f_equal; lia.
    + intros k Hk. apply Hpending. lia.
  - replace (maxAttempts - attempts) with 0 by lia.
    destruct net as [e g c]. cbn [gets elapsed clock]. f_equal. f_equal; lia.
Qed.

(** The loop leaves with a video only when a status request was answered with the
    terminal success status and that video. *)
Lemma pollFal_ready (attempts : nat) (net net' : Net) (videoUrl : string) :
  pollFal http attempts net = (Ok (Some videoUrl), net') ->
  exists k, gets net <= k < gets net' /\ falReady http k videoUrl.
Proof.
  revert net'. loop_step pollFal_unfold attempts net; intros net' Hrun; [| discriminate].
  destruct (get http (gets net)) as [data|e] eqn:Hget; [| discriminate].
  destruct (String.eqb (status data) "COMPLETED") eqn:Hc.
  - injection Hrun as Hv <-. exists (gets net). cbn [gets]. split; [lia |].
    exists data. by apply String.eqb_eq in Hc.
  - destruct (String.eqb (status data) "FAILED"); [discriminate |].
    destruct (IH Hlt _ _ Hrun) as (k & Hk & Hready).
    exists k. cbn [gets] in Hk. split; [lia | done].
Qed.

Lemma pollReplicate_ready (attempts : nat) (net net' : Net) (videoUrl : string) :
  pollReplicate http attempts net = (Ok (Some videoUrl), net') ->
  exists k, gets net <= k < gets net' /\ replicateReady http k videoUrl.
Proof.
  revert net'. loop_step pollReplicate_unfold attempts net; intros net' Hrun;
    [| discriminate].
  destruct (get http (gets net)) as [data|e] eqn:Hget; [| discriminate].
  destruct (String.eqb (status data) "succeeded") eqn:Hc.
  - injection Hrun as Hv <-. exists (gets net). cbn [gets]. split; [lia |].
    exists data. by apply String.eqb_eq in Hc.
  - destruct (String.eqb (status data) "failed" || String.eqb (status data) "canceled");
      [discriminate |].
    destruct (IH Hlt _ _ Hrun) as (k & Hk & Hready).
    exists k. cbn [gets] in Hk. split; [lia | done].
Qed.

(** What both [generateWithFal] and [generateWithReplicate] do after their loop. *)
Lemma truthy_Some (o : option string) :
  truthy o = true -> exists s, o = Some s.
Proof. destruct o as [s|]; simpl; [| done]. intros _. by exists s. Qed.

(** C9. Both polling loops have an attempt ceiling.  Whatever the provider answers,
    [generateWithFal] and [generateWithReplicate] issue at most 60 status requests and
    return; they return a video only if one of those requests was answered with the
    terminal success status and that video; and when the submission is accepted and all
    60 answers are pending, they have slept 300000 ms, issued exactly 60 requests and
    throw [Video generation timed out]. *)
Theorem polling_has_attempt_ceiling (cfg : Config) (request : VideoGenerationRequest.t)
    (net : Net) :
  let fal := generateWithFal cfg http request net in
  let replicate := generateWithReplicate cfg http request net in
  let exhausted :=
    mkNet (elapsed net + 300000) (gets net + 60) (clock net + 121) in
  (gets net <= gets (snd fal) <= gets net + 60
   /\ (forall response, fst fal = Ok response ->
        exists k, gets net <= k < gets net + 60
                  /\ falReady http k (VideoGenerationResponse.videoUrl response))
   /\ (isOk (post http) = true ->
       (forall k, gets net <= k < gets net + 60 -> falPending http k) ->
       fal = (Throw "Video generation timed out", exhausted)))
  /\ (gets net <= gets (snd replicate) <= gets net + 60
      /\ (forall response, fst replicate = Ok response ->
           exists k, gets net <= k < gets net + 60
                     /\ replicateReady http k (VideoGenerationResponse.videoUrl response))
      /\ (isOk (post http) = true ->
          (forall k, gets net <= k < gets net + 60 -> replicatePending http k) ->
          replicate = (Throw "Video generation timed out", exhausted))).
Proof.
  cbv zeta. unfold generateWithFal, generateWithReplicate, axios_post.
  set (net1 := mkNet (elapsed net) (gets net) (S (clock net))).
  assert (Hgets1 : gets net1 = gets net) by reflexivity.
  assert (Helapsed1 : elapsed net1 = elapsed net) by reflexivity.
  assert (Hclock1 : clock net1 = S (clock net)) by reflexivity.
  clearbody net1.
  assert (H60 : maxAttempts - 0 = 60) by reflexivity.
  split.
  - pose proof (pollFal_bounded 0 net1) as [Hgets _].
    rewrite H60, Hgets1 in Hgets.
    destruct (post http) as [submitted|e]; [| cbn [fst snd isOk]].
    2:{ rewrite Hgets1. split; [lia |]. split; [discriminate | discriminate]. }
    destruct (pollFal http 0 net1) as [[videoUrl|e] net'] eqn:Hpoll; cbn [fst snd] in *.
    + split; [| split].
      * destruct (truthy videoUrl); cbn [snd]; lia.
      * intros response Hresponse.
        destruct (truthy videoUrl) eqn:Htruthy; [| discriminate].
        destruct (truthy_Some _ Htruthy) as (s & ->).
        destruct (pollFal_ready _ _ _ _ Hpoll) as (k & Hk & Hready).
        injection Hresponse as <-. unfold response in *.
        cbn [VideoGenerationResponse.videoUrl default].
        exists k. split; [lia | done].
      * intros _ Hpending. rewrite pollFal_pending in Hpoll.
        -- injection Hpoll as <- <-. cbn [truthy]. f_equal.
           rewrite Hgets1, Helapsed1, Hclock1. f_equal; lia.
        -- intros k Hk. apply Hpending. rewrite H60, Hgets1 in Hk. lia.
    + split; [cbn [snd]; lia |]. split; [discriminate |].
      intros _ Hpending. rewrite pollFal_pending in Hpoll; [discriminate |].
      intros k Hk. apply Hpending. rewrite H60, Hgets1 in Hk. lia.
  - pose proof (pollReplicate_bounded 0 net1) as [Hgets _].
    rewrite H60, Hgets1 in Hgets.
    destruct (post http) as [submitted|e]; [| cbn [fst snd isOk]].
    2:{ rewrite Hgets1. split; [lia |]. split; [discriminate | discriminate]. }
    destruct (pollReplicate http 0 net1) as [[videoUrl|e] net'] eqn:Hpoll;
      cbn [fst snd] in *.
    + split; [| split].
      * destruct (truthy videoUrl); cbn [snd]; lia.
      * intros response Hresponse.
        destruct (truthy videoUrl) eqn:Htruthy; [| discriminate].
        destruct (truthy_Some _ Htruthy) as (s & ->).
        destruct (pollReplicate_ready _ _ _ _ Hpoll) as (k & Hk & Hready).
        injection Hresponse as <-. unfold response in *.
        cbn [VideoGenerationResponse.videoUrl default].
        exists k. split; [lia | done].
      * intros _ Hpending. rewrite pollReplicate_pending in Hpoll.
        -- injection Hpoll as <- <-. cbn [truthy]. f_equal.
           rewrite Hgets1, Helapsed1, Hclock1. f_equal; lia.
        -- intros k Hk. apply Hpending. rewrite H60, Hgets1 in Hk. lia.
    + split; [cbn [snd]; lia |]. split; [discriminate |].
      intros _ Hpending. rewrite pollReplicate_pending in Hpoll; [discriminate |].
      intros k Hk. apply Hpending. rewrite H60, Hgets1 in Hk. lia.
Qed.

End Polling.

(** Against the stalled provider [generateVideo] gives up after 60 status requests and
    five minutes of sleeping. *)
Lemma generateVideo_stalled_times_out :
  VideoGenerator.generateVideo falConfig stalledProvider
    (VideoGenerationRequest.mk "a prompt" None None None "n1")
    (VideoGenerator.mkNet 0 0 0)
  = (Throw "Video generation timed out", VideoGenerator.mkNet 300000 60 121).
Proof. by vm_compute. Qed.

(* ================================================================= *)
(** ** The timestamps of a job *)

Lemma jobUpdates_startedAt (timestamp : Date) (status : JobStatus.t) (error : option string) :
  u_startedAt (jobUpdates timestamp status error)
  = if bool_decide (status = JobStatus.running) then Some timestamp else None.
Proof. unfold jobUpdates. by destruct status, (truthy error). Qed.

Lemma jobUpdates_completedAt (timestamp : Date) (status : JobStatus.t)
    (error : option string) :
  u_completedAt (jobUpdates timestamp status error)
  = if terminal status then Some timestamp else None.
Proof. unfold jobUpdates. by destruct status, (truthy error). Qed.

Lemma jobUpdates_error (timestamp : Date) (status : JobStatus.t) (error : option string) :
  u_error (jobUpdates timestamp status error) = if truthy error then error else None.
Proof. unfold jobUpdates. by destruct status, (truthy error). Qed.

Lemma jobUpdates_status (timestamp : Date) (status : JobStatus.t) (error : option string) :
  u_status (jobUpdates timestamp status error) = status.
Proof. unfold jobUpdates. by destruct status, (truthy error). Qed.

(** The guard [!updates.startedAt] of [updateJobStatus] reads the object the function
    has just created, which never has the field: every update to [running] writes
    [startedAt], whatever the stored job holds. *)
Lemma updateJobStatus_guard_is_vacuous :
  forall timestamp error, writesStartedAt (timestamp, JobStatus.running, error) = true.
Proof. intros timestamp error. unfold writesStartedAt. by rewrite jobUpdates_startedAt. Qed.

(** C8, as stated, fails: a second update to a terminal state writes [completedAt]
    again.  The job below is completed at time 5 and then marked failed at time 9 (what
    [generateAndPostVideo] does when [updateVideoStatus] throws after the job was marked
    completed); its [completedAt] moves from 5 to 9. *)
Lemma completedAt_is_overwritten :
  let updates := [(1, JobStatus.running, None); (5, JobStatus.completed, None)] in
  let later := (9, JobStatus.failed, Some "No document to update") in
  WorkflowJob.completedAt (applyStatusUpdates updates queuedJob) = Some 5
  /\ WorkflowJob.completedAt (applyStatusUpdates (updates ++ [later]) queuedJob) = Some 9
  /\ length (List.filter writesCompletedAt (updates ++ [later])) = 2.
Proof. by vm_compute. Qed.

(** C8, amended.  An update that is not to [running] leaves [startedAt] as it is, an
    update that is not to a terminal state leaves [completedAt] as it is, and no update
    clears either; an update to [completed] or [failed] sets [completedAt] to the time
    of that update, also when it was set before.  So along the state machine, for a
    job that has not started (one update to [running], then one to a terminal state),
    [startedAt] is written exactly once, by the first, and [completedAt] exactly once,
    by the second. *)
Theorem job_timestamps_written_by_status (job : WorkflowJob.t) (timestamp : Date)
    (status : JobStatus.t) (error : option string) :
  let job' := applyStatusUpdate job (timestamp, status, error) in
  (status <> JobStatus.running -> WorkflowJob.startedAt job' = WorkflowJob.startedAt job)
  /\ (terminal status = false ->
      WorkflowJob.completedAt job' = WorkflowJob.completedAt job)
  /\ (terminal status = true -> WorkflowJob.completedAt job' = Some timestamp)
  /\ (is_Some (WorkflowJob.startedAt job) -> is_Some (WorkflowJob.startedAt job'))
  /\ (is_Some (WorkflowJob.completedAt job) -> is_Some (WorkflowJob.completedAt job'))
  /\ (forall (started finished : Date) (final : JobStatus.t),
        WorkflowJob.startedAt job = None ->
        terminal final = true ->
        let life := [(started, JobStatus.running, None); (finished, final, error)] in
        WorkflowJob.startedAt (applyStatusUpdates life job) = Some started
        /\ WorkflowJob.completedAt (applyStatusUpdates life job) = Some finished
        /\ WorkflowJob.status (applyStatusUpdates life job) = final
        /\ List.filter writesStartedAt life
           = [(started, JobStatus.running, None)]
        /\ List.filter writesCompletedAt life
           = [(finished, final, error)]).
Proof.
  cbv zeta. unfold applyStatusUpdate, applyJobUpdates.
  cbn [WorkflowJob.startedAt WorkflowJob.completedAt].
  rewrite jobUpdates_startedAt, jobUpdates_completedAt.
  split_and!; [| | | | | intros started finished final Hfresh Hfinal; split_and!].
  - intros Hstatus. by rewrite bool_decide_eq_false_2.
  - by intros ->.
  - by intros ->.
  - case_bool_decide; [by eexists | done].
  - destruct (terminal status); [by eexists | done].
  - unfold applyStatusUpdates. cbn [foldl applyStatusUpdate applyJobUpdates
      WorkflowJob.startedAt].
    rewrite !jobUpdates_startedAt. by destruct final.
  - unfold applyStatusUpdates. cbn [foldl applyStatusUpdate applyJobUpdates
      WorkflowJob.completedAt].
    rewrite !jobUpdates_completedAt. by rewrite Hfinal.
  - unfold applyStatusUpdates. cbn [foldl applyStatusUpdate applyJobUpdates
      WorkflowJob.status].
    by rewrite !jobUpdates_status.
  - cbn [List.filter writesStartedAt]. rewrite !jobUpdates_startedAt.
    by destruct final.
  - cbn [List.filter writesCompletedAt]. rewrite !jobUpdates_completedAt.
    by rewrite Hfinal.
Qed.

(* ================================================================= *)
(** ** Which platforms the fan-out starts *)

(** C3, as stated, fails for TikTok: a niche whose TikTok bundle is present but holds
    no access token gets no TikTok post. *)
Lemma tiktok_bundle_without_token_is_skipped :
  credentialPresent nicheWithoutTikTokToken tiktok = true
  /\ tiktok ∉ attemptedPlatforms (testEnv noFaults [] aVideo aReel []) "video-0" "bytes"
               "Rise early. Win the day!" ["motivation"] nicheWithoutTikTokToken.
Proof. split; [done |]. vm_compute. by intros ?%elem_of_nil. Qed.

(** C3, amended.  The fan-out starts the YouTube post exactly when the niche has a
    YouTube bundle, the Instagram post exactly when it has an Instagram bundle, and
    the TikTok post exactly when it has a TikTok bundle that holds a non-empty access
    token; each at most once, in this order. *)
Theorem fan_out_starts_enabled_platforms (env : Env) (videoId : string)
    (videoBuffer : Buffer) (description : string) (hashtags : list string)
    (niche : ContentNiche.t) :
  let attempted := attemptedPlatforms env videoId videoBuffer description hashtags niche in
  attempted = List.filter (platformEnabled niche) [youtube; instagram; tiktok]
  /\ (forall p, p ∈ attempted <-> platformEnabled niche p = true)
  /\ (forall p, p <> tiktok ->
                (p ∈ attempted <-> credentialPresent niche p = true))
  /\ (tiktok ∈ attempted <->
      exists account token,
        SocialAccountConfig.tiktok (ContentNiche.socialAccounts niche) = Some account
        /\ TikTokAccount.accessToken account = Some token /\ token <> "").
Proof.
  cbv zeta.
  assert (Hlist : attemptedPlatforms env videoId videoBuffer description hashtags niche
                  = List.filter (platformEnabled niche) [youtube; instagram; tiktok]).
  { unfold attemptedPlatforms, platformPosts. cbn [List.filter platformEnabled].
    unfold credentialPresent.
    destruct niche as [? ? ? ? ? ? ? [[yt|] [ig|] [[user token]|]]];
      cbn [ContentNiche.socialAccounts SocialAccountConfig.youtube
           SocialAccountConfig.instagram SocialAccountConfig.tiktok
           TikTokAccount.accessToken];
      try destruct (truthy token); reflexivity. }
  assert (Hmem : forall p, p ∈ List.filter (platformEnabled niche) [youtube; instagram; tiktok]
                           <-> platformEnabled niche p = true).
  { intros p. rewrite list_elem_of_In, filter_In. split; [by intros [_ ?] |].
    intros Hp. split; [| done]. destruct p; simpl; auto. }
  rewrite Hlist. split_and!; [done | done | |].
  - intros p Hp. rewrite Hmem. by destruct p.
  - rewrite Hmem. cbn [platformEnabled].
    destruct (SocialAccountConfig.tiktok (ContentNiche.socialAccounts niche))
      as [[user [token|]]|]; cbn [TikTokAccount.accessToken truthy].
    + split.
      * intros Htoken. exists (TikTokAccount.mk user (Some token)), token.
        split_and!; [done | done |]. intros ->. discriminate.
      * intros (account & token' & [= <-] & [= <-] & Hne). simpl.
        apply negb_true_iff, String.eqb_neq. done.
    + split; [done |]. by intros (account & token' & [= <-] & [=] & _).
    + split; [done |]. by intros (account & token' & [=] & _).
Qed.

(* ================================================================= *)
(** ** Reading the call log *)

Lemma issuedDuring_calls (w w' : World) (new : list Call) :
  calls w' = new ++ calls w -> issuedDuring w w' = rev new.
Proof.
  intros Hcalls. unfold issuedDuring. rewrite Hcalls, length_app.
  replace (length new + length (calls w) - length (calls w)) with (length new) by lia.
  by rewrite take_app_length.
Qed.

(** The calls a world logs beyond those of [w], most recent first. *)
Ltac calls_beyond w l :=
  lazymatch l with
  | calls w => constr:(@nil Call)
  | ?c :: ?l' => let r := calls_beyond w l' in constr:(c :: r)
  end.

Ltac world_simpl :=
  cbn [calls jobs videos niches trending blobs clock autoIds uuids
       issue set_jobs set_videos set_trending set_blobs next_autoId next_uuid fst snd] in *.

(** Rewrites [issuedDuring w w'] into the explicit list of calls when [w'] is [w]
    after some steps. *)
Ltac read_log :=
  repeat match goal with
  | |- context [issuedDuring ?w ?w'] =>
      let l := eval cbn [calls issue set_jobs set_videos set_trending set_blobs
                         next_autoId next_uuid] in (calls w') in
      let new := calls_beyond w l in
      rewrite (issuedDuring_calls w w' new eq_refl)
  | H : context [issuedDuring ?w ?w'] |- _ =>
      let l := eval cbn [calls issue set_jobs set_videos set_trending set_blobs
                         next_autoId next_uuid] in (calls w') in
      let new := calls_beyond w l in
      rewrite (issuedDuring_calls w w' new eq_refl) in H
  end.

Ltac monad_unfold :=
  unfold workflowFailed in *;
  unfold bind, ret, throw, tryCatch, M_monad, M_bind, M_tryCatch,
    createJob, updateJobStatus, saveTrendingTopics, getTrendingForNiche, getVideosByNiche,
    generatePrompt, generateVideo, downloadVideo, uploadVideo, saveVideoMetadata,
    getVideoMetadata, updateVideoStatus, getJob, getContentNiche, uuid, now in *;
  unfold request, adapter in *.

Ltac run_simpl :=
  cbn beta iota zeta delta
    [calls jobs videos niches trending blobs clock autoIds uuids
     issue set_jobs set_videos set_trending set_blobs next_autoId next_uuid fst snd
     truthy default from_option id negb
     WorkflowJob.id WorkflowJob.type WorkflowJob.status WorkflowJob.niche
     WorkflowJob.videoId WorkflowJob.createdAt WorkflowJob.startedAt
     WorkflowJob.completedAt WorkflowJob.error WorkflowJob.retryCount
     VideoMetadata.id VideoMetadata.platforms VideoMetadata.status] in *;
  rewrite ?lookup_insert_eq in *.

(** One step of the symbolic execution: the next answer of the outside is taken from
    the hypotheses or split into its cases. *)
Ltac run_case env :=
  match goal with
  | |- context [match fault env ?c ?t with _ => _ end] =>
      let e := fresh "e" in let H := fresh "Hfault" in
      destruct (fault env c t) as [e|] eqn:H
  | |- context [match promptGenerator_generatePrompt env ?r with _ => _ end] =>
      let a := fresh "promptResponse" in let e := fresh "e" in let H := fresh "Hprompt" in
      destruct (promptGenerator_generatePrompt env r) as [a|e] eqn:H
  | |- context [match videoGenerator_generateVideo env ?r with _ => _ end] =>
      let a := fresh "videoResponse" in let e := fresh "e" in let H := fresh "Hvideo" in
      destruct (videoGenerator_generateVideo env r) as [a|e] eqn:H
  | |- context [match videoGenerator_downloadVideo env ?r with _ => _ end] =>
      let a := fresh "videoBuffer" in let e := fresh "e" in let H := fresh "Hdownload" in
      destruct (videoGenerator_downloadVideo env r) as [a|e] eqn:H
  | |- context [if (0 <? length ?l)%nat then _ else _] =>
      let H := fresh "Htopics" in destruct (0 <? length l)%nat eqn:H
  | |- context [match jobs ?w !! ?k with _ => _ end] =>
      let j := fresh "job" in let H := fresh "Hjob" in
      destruct (jobs w !! k) as [j|] eqn:H
  | |- context [match videos ?w !! ?k with _ => _ end] =>
      let j := fresh "video" in let H := fresh "Hvideo" in
      destruct (videos w !! k) as [j|] eqn:H
  end.

Ltac no_such_call H :=
  read_log; cbn [rev app] in H;
  destruct H as [? H]; repeat (apply elem_of_cons in H as [H|H]; [discriminate H |]);
  by apply elem_of_nil in H.

Section Workflow.
Variable env : Env.

(** C4 (amended). If the run reaches video generation, video generation throws, and
    the store accepts the update that marks the job failed, then the run throws the
    same error; the job was created queued, set running and then set failed, and it is
    stored failed with both timestamps and with the error's message, unless the
    message is empty: an empty message is not recorded.  No video record was written.
    (The job has an id: the ids the store generates are not empty.) *)
Theorem video_generation_failure_fails_the_job (niche : ContentNiche.t) (w : World)
    (error : string) :
  let jobId := firestore_autoId env (autoIds w) in
  let outcome := generateAndPostVideo env niche w in
  (exists request, GenerateVideo request ∈ issuedDuring w (snd outcome)) ->
  (forall request, videoGenerator_generateVideo env request = Throw error) ->
  (forall t, fault env (UpdateJobStatus jobId JobStatus.failed (Some error)) t = None) ->
  jobId <> "" ->
  fst outcome = Throw error
  /\ jobStatuses jobId (issuedDuring w (snd outcome))
     = [JobStatus.queued; JobStatus.running; JobStatus.failed]
  /\ (exists finished,
        S (clock w) < finished
        /\ jobs (snd outcome) !! jobId
           = Some (WorkflowJob.mk jobId JobType.generate JobStatus.failed
                     (ContentNiche.id niche) None (clock w) (Some (S (clock w)))
                     (Some finished) (if truthy (Some error) then Some error else None)
                     0))
  /\ videos (snd outcome) = videos w
  /\ List.filter isSaveVideoMetadata (issuedDuring w (snd outcome)) = [].
Proof.
  cbv zeta. intros Hreached Hthrows Hhandler HjobId.
  apply String.eqb_neq in HjobId as HjobId'.
  unfold generateAndPostVideo in *. monad_unfold. run_simpl.
  repeat (first [ rewrite Hthrows in * | rewrite Hhandler in * | rewrite HjobId' in *
                | run_case env ]; run_simpl).
  all: try (exfalso; no_such_call Hreached).
  all: clear Hreached; read_log;
    cbn [rev app jobStatuses omap list_omap List.filter isSaveVideoMetadata];
    rewrite ?bool_decide_eq_true_2 by done;
    unfold applyJobUpdates;
    rewrite ?jobUpdates_status, ?jobUpdates_startedAt, ?jobUpdates_completedAt,
      ?jobUpdates_error;
    cbn [WorkflowJob.id WorkflowJob.type
         WorkflowJob.status WorkflowJob.niche WorkflowJob.videoId WorkflowJob.createdAt
         WorkflowJob.startedAt WorkflowJob.completedAt WorkflowJob.error
         WorkflowJob.retryCount];
    cbn [bool_decide decide_rel JobStatus.eq_dec terminal orb];
    (split_and!;
     [ done | done
     | eexists; split; [| cbn [truthy]; by destruct (error =? "")%string]; lia
     | done | done ]).
Qed.

End Workflow.

(* ================================================================= *)
(** ** Interleaved functions: invariants of [Promise.allSettled] *)

Section Interleaving.
Context {A : Type}.

(** A property of the world and of the functions in flight that every step of every
    function keeps. *)
Variable J : World -> list (Async A) -> Prop.
Hypothesis J_step :
  forall w ts i effect next,
    J w ts -> ts !! i = Some (Await effect next) -> J (effect w) (<[i := next w]> ts).

Lemma settle_invariant (t : Async A) :
  forall (settled : list (Result A)) (rest : list (Async A)) (w : World),
    J w (map Settled settled ++ t :: rest) ->
    J (snd (settle t w)) (map Settled (settled ++ [fst (settle t w)]) ++ rest).
Proof using J_step.
  induction t as [r|effect next IH]; intros settled rest w HJ; cbn [settle fst snd].
  - by rewrite map_app, <- app_assoc.
  - apply IH.
    replace (map Settled settled ++ next w :: rest)
      with (<[length (map Settled settled) := next w]>
              (map Settled settled ++ Await effect next :: rest)).
    + apply J_step; [done |]. by rewrite list_lookup_middle.
    + by rewrite insert_app_r_alt, Nat.sub_diag by lia.
Qed.

Lemma settleAll_invariant (ts : list (Async A)) :
  forall (settled : list (Result A)) (w : World),
    J w (map Settled settled ++ ts) ->
    J (snd (settleAll ts w)) (map Settled (settled ++ fst (settleAll ts w))).
Proof using J_step.
  induction ts as [|t ts IH]; intros settled w HJ; cbn [settleAll].
  - cbn [fst snd]. by rewrite !app_nil_r in *.
  - pose proof (settle_invariant t settled ts w HJ) as Ht.
    destruct (settle t w) as [r w1]. cbn [fst snd] in Ht.
    specialize (IH _ _ Ht). destruct (settleAll ts w1) as [rs w2].
    cbn [fst snd] in *. by rewrite <- app_assoc in IH.
Qed.

(** [Promise.allSettled] never rejects, and what every step keeps holds when all the
    functions have settled, whatever the schedule. *)
Lemma allSettled_invariant (sched : list nat) :
  forall (ts : list (Async A)) (w : World),
    J w ts ->
    exists outcomes,
      fst (allSettled sched ts w) = Ok outcomes
      /\ J (snd (allSettled sched ts w)) (map Settled outcomes).
Proof using J_step.
  induction sched as [|i sched IH]; intros ts w HJ; cbn [allSettled].
  - pose proof (settleAll_invariant ts [] w HJ) as Hall.
    destruct (settleAll ts w) as [rs w']. cbn [fst snd app] in *. by exists rs.
  - destruct (ts !! i) as [[r|effect next]|] eqn:Hi; [by apply IH | | by apply IH].
    apply IH. by apply J_step.
Qed.

End Interleaving.

(* ================================================================= *)
(** ** Functions that keep a property of the world *)

Section Keeping.
Variable I : World -> Prop.

Lemma Keeps_bind {A B : Type} (Q : A -> Prop) (R : B -> Prop) (t : Async A)
    (k : A -> Async B) :
  Keeps I Q t -> (forall a, Q a -> Keeps I R (k a)) -> Keeps I R (Async_bind t k).
Proof.
  intros Ht Hk. induction Ht as [a Ha|e|effect next Heffect Hnext IH]; cbn [Async_bind].
  - by apply Hk.
  - constructor.
  - constructor; [done |]. intros w Hw. by apply IH.
Qed.

Lemma Keeps_tryCatch {A : Type} (Q R : A -> Prop) (t : Async A)
    (handler : string -> Async A) :
  Keeps I Q t -> (forall a, Q a -> R a) -> (forall e, Keeps I R (handler e)) ->
  Keeps I R (Async_tryCatch t handler).
Proof.
  intros Ht HQ Hh.
  induction Ht as [a Ha|e|effect next Heffect Hnext IH]; cbn [Async_tryCatch].
  - constructor. by apply HQ.
  - apply Hh.
  - constructor; [done |]. intros w Hw. by apply IH.
Qed.

(** A computation awaited in one step. *)
Lemma Keeps_await_M {A : Type} (Q : A -> Prop) (m : M A) :
  (forall w, I w -> I (snd (m w)) /\ (forall a, fst (m w) = Ok a -> Q a)) ->
  Keeps I Q (await m).
Proof.
  intros Hm. unfold await. constructor; intros w Hw; destruct (Hm w Hw) as [HI HQ].
  - done.
  - destruct (fst (m w)) as [a|e]; constructor. by apply HQ.
Qed.

Lemma Keeps_weaken {A : Type} (Q R : A -> Prop) (t : Async A) :
  Keeps I Q t -> (forall a, Q a -> R a) -> Keeps I R t.
Proof.
  intros Ht HQ. induction Ht as [a Ha|e|effect next Heffect Hnext IH]; constructor; auto.
Qed.

(** The fan-out keeps what each of its functions keeps. *)
Lemma allSettled_keeps {A : Type} (sched : list nat) (ts : list (Async A)) (w : World) :
  Forall (Keeps I (fun _ => True)) ts -> I w ->
  (exists outcomes, fst (allSettled sched ts w) = Ok outcomes)
  /\ I (snd (allSettled sched ts w)).
Proof.
  intros Hts Hw.
  destruct (allSettled_invariant
              (fun w (ts : list (Async A)) =>
                 I w /\ Forall (Keeps I (fun _ => True)) ts)) with
    (sched := sched) (ts := ts) (w := w) as (outcomes & Hok & HI & _).
  - intros w0 ts0 i effect next [HI Hall] Hi.
    pose proof (Forall_lookup_1 _ _ _ _ Hall Hi) as Hkeeps.
    inversion Hkeeps as [| |effect' next' Heffect Hnext]; subst.
    split; [by apply Heffect |]. apply Forall_insert; [done |]. by apply Hnext.
  - done.
  - split; [by exists outcomes | done].
Qed.

End Keeping.

(* ================================================================= *)
(** ** What the platform posts keep *)

Section FanOut.
Variable env : Env.
Variable E : PlatformPost.t -> Prop.
Variable v0 : VideoMetadata.t.
Variable w0 : World.

Lemma FanOut_start :
  videos w0 !! VideoMetadata.id v0 = Some v0 -> Forall E (VideoMetadata.platforms v0) ->
  FanOut E v0 w0 w0.
Proof.
  intros Hstored Hposts. split; try done.
  - by exists [].
  - exists (VideoMetadata.platforms v0). split; [| done]. rewrite Hstored. f_equal.
    by destruct v0.
Qed.

Lemma FanOut_issue (c : Call) (w : World) :
  fanOutCall E v0 c -> FanOut E v0 w0 w -> FanOut E v0 w0 (issue c w).
Proof.
  intros Hc [? ? ? ? ? ? ? (new & Hcalls & Hnew) ? ?]. split; cbn; try done.
  - lia.
  - exists (c :: new). rewrite Hcalls. split; [done | by constructor].
Qed.

Lemma FanOut_store (l : list PlatformPost.t) (w : World) :
  Forall E l -> FanOut E v0 w0 w ->
  FanOut E v0 w0
    (set_videos (insert (VideoMetadata.id v0) (VideoMetadata.with_platforms l v0)) w).
Proof.
  intros Hl [? ? ? ? ? ? ? ? ? Hothers]. split; cbn; try done.
  - exists l. by rewrite lookup_insert_eq.
  - intros k Hk. rewrite lookup_insert_ne by done. by apply Hothers.
Qed.

(** A call to a platform changes nothing in the stores. *)
Lemma adapter_keeps {A : Type} (c : Call) (answer : Result A) (w : World) :
  fanOutCall E v0 c -> FanOut E v0 w0 w -> FanOut E v0 w0 (snd (adapter c answer w)).
Proof. intros Hc Hw. by apply FanOut_issue. Qed.

Lemma getVideoMetadata_keeps (w : World) :
  FanOut E v0 w0 w ->
  FanOut E v0 w0 (snd (getVideoMetadata env (VideoMetadata.id v0) w))
  /\ (forall video, fst (getVideoMetadata env (VideoMetadata.id v0) w) = Ok (Some video) ->
                    exists l, video = VideoMetadata.with_platforms l v0 /\ Forall E l).
Proof.
  intros Hw. unfold getVideoMetadata, request.
  destruct (fault env (GetVideoMetadata (VideoMetadata.id v0)) (clock w)) as [e|];
    cbn [fst snd].
  - split; [by apply FanOut_issue | done].
  - split; [by apply FanOut_issue |].
    intros video [= Hvideo]. cbn in Hvideo.
    destruct (fan_video _ _ _ _ Hw) as (l & Hl & HE). rewrite Hl in Hvideo.
    injection Hvideo as <-. by exists l.
Qed.

(** Writing the record back with one more post that satisfies [E]. *)
Lemma saveVideoMetadata_keeps (l : list PlatformPost.t) (entry : Date -> PlatformPost.t)
    (w : World) :
  Forall E l -> (forall t, E (entry t)) -> FanOut E v0 w0 w ->
  FanOut E v0 w0
    (snd ((let* postedAt := now in
           saveVideoMetadata env
             (VideoMetadata.push (entry postedAt) (VideoMetadata.with_platforms l v0))) w)).
Proof.
  intros Hl Hentry Hw.
  set (saved := VideoMetadata.with_platforms (l ++ [entry (clock w)]) v0).
  assert (Hsaved : Forall E (l ++ [entry (clock w)])).
  { apply Forall_app. split; [done |]. by constructor. }
  assert (Hcall : fanOutCall E v0 (SaveVideoMetadata saved)).
  { by exists (l ++ [entry (clock w)]). }
  unfold saveVideoMetadata, request, now, bind, M_monad, M_bind.
  change (VideoMetadata.push (entry (clock w)) (VideoMetadata.with_platforms l v0))
    with saved.
  change (VideoMetadata.id saved) with (VideoMetadata.id v0).
  destruct (fault env (SaveVideoMetadata saved) (clock w)) as [e|]; cbn [fst snd].
  - by apply FanOut_issue.
  - apply (FanOut_store (l ++ [entry (clock w)])); [done |]. by apply FanOut_issue.
Qed.

Lemma pushEntry_keeps (entry : Date -> PlatformPost.t) (video : VideoMetadata.t) :
  (forall t, E (entry t)) ->
  (exists l, video = VideoMetadata.with_platforms l v0 /\ Forall E l) ->
  Keeps (FanOut E v0 w0) (fun _ : unit => True)
    (await (let* postedAt := now in
            saveVideoMetadata env (VideoMetadata.push (entry postedAt) video))).
Proof.
  intros Hentry (l & -> & Hl). apply Keeps_await_M. intros w Hw.
  split; [by apply saveVideoMetadata_keeps | done].
Qed.

Lemma readVideo_keeps :
  Keeps (FanOut E v0 w0)
    (fun video => forall v, video = Some v ->
                            exists l, v = VideoMetadata.with_platforms l v0 /\ Forall E l)
    (await (getVideoMetadata env (VideoMetadata.id v0))).
Proof.
  apply Keeps_await_M. intros w Hw. destruct (getVideoMetadata_keeps w Hw) as [HI HQ].
  split; [done |]. intros video Hvideo v ->. by apply HQ.
Qed.

Lemma call_keeps {A : Type} (c : Call) (answer : Result A) :
  fanOutCall E v0 c ->
  Keeps (FanOut E v0 w0) (fun a => answer = Ok a) (await (adapter c answer)).
Proof.
  intros Hc. apply Keeps_await_M. intros w Hw. split; [by apply adapter_keeps | done].
Qed.

(** Each platform post keeps the invariant, when the entries of the posts the
    platforms answer satisfy [E]. *)
Variable videoBuffer : Buffer.
Variable description : string.
Variable hashtags : list string.
Variable niche : ContentNiche.t.
Hypothesis E_posted :
  forall p postId postedAt,
    answered env videoBuffer description hashtags niche v0 p postId ->
    E (postedEntry p postId postedAt).

Lemma postToYouTube_keeps (account : YouTubeAccount.t) :
  SocialAccountConfig.youtube (ContentNiche.socialAccounts niche) = Some account ->
  Keeps (FanOut E v0 w0) (fun _ => True)
    (postToYouTube env (VideoMetadata.id v0) videoBuffer description hashtags account).
Proof using E_posted.
  intros Haccount. unfold postToYouTube, setCredentials, uploadShortFromBuffer.
  apply Keeps_tryCatch with (Q := fun _ => True); [| done | intros; by constructor].
  eapply Keeps_bind; [by apply call_keeps |]. intros [] Hcredentials.
  eapply Keeps_bind; [by apply call_keeps |]. intros result Hupload.
  eapply Keeps_bind; [apply readVideo_keeps |]. intros [video|] Hvideo; [| by constructor].
  apply (pushEntry_keeps (postedEntry youtube (YouTubeUpload.videoId result)));
    [| by apply Hvideo].
  intros t. apply E_posted. by exists account, result.
Qed.

Lemma postToInstagram_keeps :
  Keeps (FanOut E v0 w0) (fun _ => True)
    (postToInstagram env (VideoMetadata.id v0) description hashtags niche).
Proof using E_posted.
  unfold postToInstagram, postReel.
  apply Keeps_tryCatch with (Q := fun _ => True); [| done | intros; by constructor].
  eapply Keeps_bind; [apply readVideo_keeps |]. intros [video|] Hvideo; [| by constructor].
  destruct (SocialAccountConfig.instagram _) as [account|] eqn:Haccount;
    [| by constructor].
  destruct (Hvideo video eq_refl) as (l & -> & Hl).
  eapply Keeps_bind; [by apply call_keeps |]. intros result Hreel.
  apply (pushEntry_keeps (postedEntry instagram (Reel.mediaId result)));
    [| by exists l].
  intros t. apply E_posted. by exists account, result.
Qed.

Lemma postToTikTok_keeps (account : TikTokAccount.t) :
  SocialAccountConfig.tiktok (ContentNiche.socialAccounts niche) = Some account ->
  truthy (TikTokAccount.accessToken account) = true ->
  Keeps (FanOut E v0 w0) (fun _ => True)
    (postToTikTok env (VideoMetadata.id v0) videoBuffer description hashtags
       (default "" (TikTokAccount.accessToken account))).
Proof using E_posted.
  intros Haccount Htoken. unfold postToTikTok, postVideo.
  destruct (TikTokAccount.accessToken account) as [accessToken|] eqn:Haccess;
    [| discriminate Htoken].
  apply Keeps_tryCatch with (Q := fun _ => True); [| done | intros; by constructor].
  eapply Keeps_bind; [by apply call_keeps |]. intros result Hpost.
  eapply Keeps_bind; [apply readVideo_keeps |]. intros [video|] Hvideo; [| by constructor].
  apply (pushEntry_keeps (postedEntry tiktok (TikTokPost.publishId result)));
    [| by apply Hvideo].
  intros t. apply E_posted. by exists account, accessToken, result.
Qed.

Lemma platformPosts_keep :
  Forall (Keeps (FanOut E v0 w0) (fun _ => True))
    (map snd (platformPosts env (VideoMetadata.id v0) videoBuffer description hashtags
                niche)).
Proof using E_posted.
  unfold platformPosts.
  destruct (SocialAccountConfig.youtube _) as [youtubeAccount|] eqn:Hyoutube;
    destruct (SocialAccountConfig.instagram _) as [instagramAccount|] eqn:Hinstagram;
    destruct (SocialAccountConfig.tiktok _) as [tiktokAccount|] eqn:Htiktok;
    try destruct (truthy _) eqn:Htoken;
    cbn [app map snd];
    repeat (apply Forall_cons; split);
    try apply Forall_nil;
    auto using postToYouTube_keeps, postToInstagram_keeps, postToTikTok_keeps.
Qed.

(** The fan-out never throws, and leaves a world in which only the record of the video
    changed, by posts that satisfy [E]. *)
Lemma postToAllPlatforms_keeps (w : World) :
  FanOut E v0 w0 w ->
  fst (postToAllPlatforms env (VideoMetadata.id v0) videoBuffer description hashtags
         niche w) = Ok tt
  /\ FanOut E v0 w0
       (snd (postToAllPlatforms env (VideoMetadata.id v0) videoBuffer description
               hashtags niche w)).
Proof using E_posted.
  intros Hw. unfold postToAllPlatforms.
  destruct (allSettled_keeps (FanOut E v0 w0) (schedule env) _ w platformPosts_keep Hw)
    as [(outcomes & Hok) HI].
  cbn [bind M_monad]. unfold M_bind.
  destruct (allSettled _ _ w) as [[rs|e] w']; cbn [fst snd] in *; [done | discriminate].
Qed.

End FanOut.

Lemma postedEntry_wellPosted (p : Platform) (postId : string) (postedAt : Date) :
  wellPosted (postedEntry p postId postedAt).
Proof. by split_and!. Qed.

(** The fan-out for a record that is stored: it does not throw, and changes only the
    record's list of posts, by posted entries. *)
Lemma fan_out_frame (env : Env) (videoBuffer : Buffer) (description : string)
    (hashtags : list string) (niche : ContentNiche.t) (v0 : VideoMetadata.t) (w : World) :
  videos w !! VideoMetadata.id v0 = Some v0 ->
  Forall wellPosted (VideoMetadata.platforms v0) ->
  exists w2,
    postToAllPlatforms env (VideoMetadata.id v0) videoBuffer description hashtags niche w
    = (Ok tt, w2)
    /\ FanOut wellPosted v0 w w2.
Proof.
  intros Hstored Hposts.
  assert (Hstart : FanOut wellPosted v0 w w) by by apply FanOut_start.
  destruct (postToAllPlatforms_keeps env wellPosted v0 w videoBuffer description
              hashtags niche (fun p postId postedAt _ => postedEntry_wellPosted p postId postedAt)
              w Hstart) as [Hok Hend].
  destruct (postToAllPlatforms env (VideoMetadata.id v0) videoBuffer description hashtags
              niche w) as [r w2].
  cbn [fst snd] in *. subst r. by exists w2.
Qed.

(* ================================================================= *)
(** ** The entries the fan-out appends *)

Lemma answered_keptOrPosted (env : Env) (videoBuffer : Buffer) (description : string)
    (hashtags : list string) (niche : ContentNiche.t) (v0 : VideoMetadata.t)
    (p : Platform) (postId : string) (postedAt : Date) :
  answered env videoBuffer description hashtags niche v0 p postId ->
  keptOrPosted env videoBuffer description hashtags niche v0 (postedEntry p postId postedAt).
Proof.
  intros Hanswered. right. split; [apply postedEntry_wellPosted |].
  by exists postId, postedAt.
Qed.

(** What a world reached by the fan-out says of the writes of the record. *)
Lemma FanOut_writes (E : PlatformPost.t -> Prop) (v0 : VideoMetadata.t) (w0 w : World)
    (video : VideoMetadata.t) :
  FanOut E v0 w0 w -> SaveVideoMetadata video ∈ issuedDuring w0 w ->
  Forall E (VideoMetadata.platforms video).
Proof.
  intros [_ _ _ _ _ _ _ (new & Hcalls & Hnew) _ _] Hissued.
  rewrite (issuedDuring_calls _ _ _ Hcalls) in Hissued.
  apply list_elem_of_In, in_rev, list_elem_of_In in Hissued.
  rewrite Forall_forall in Hnew. destruct (Hnew _ Hissued) as (l & -> & Hl). done.
Qed.

(** C10. The fan-out for a stored video record never throws, and every entry of every
    record it writes, and of the record it leaves, that the record did not hold before
    is marked posted, has a post id and a posting time, and carries the id that its
    platform answered: a platform whose post throws gets no entry, and no entry is
    pending or failed. *)
Theorem fan_out_appends_only_posted_entries (env : Env) (videoBuffer : Buffer)
    (description : string) (hashtags : list string) (niche : ContentNiche.t)
    (v0 : VideoMetadata.t) (w : World) :
  let outcome :=
    postToAllPlatforms env (VideoMetadata.id v0) videoBuffer description hashtags niche w in
  let appended := keptOrPosted env videoBuffer description hashtags niche v0 in
  videos w !! VideoMetadata.id v0 = Some v0 ->
  fst outcome = Ok tt
  /\ (forall video, SaveVideoMetadata video ∈ issuedDuring w (snd outcome) ->
                    Forall appended (VideoMetadata.platforms video))
  /\ (exists posts,
        videos (snd outcome) !! VideoMetadata.id v0
        = Some (VideoMetadata.with_platforms posts v0)
        /\ Forall appended posts)
  /\ (forall p, (forall postId,
                   ~ answered env videoBuffer description hashtags niche v0 p postId) ->
                forall video post,
                  videos (snd outcome) !! VideoMetadata.id v0 = Some video ->
                  post ∈ VideoMetadata.platforms video ->
                  post ∉ VideoMetadata.platforms v0 ->
                  PlatformPost.platform post <> p).
Proof.
  cbv zeta. intros Hstored.
  set (appended := keptOrPosted env videoBuffer description hashtags niche v0).
  assert (Hstart : FanOut appended v0 w w).
  { apply FanOut_start; [done |]. apply Forall_forall. intros post Hpost. by left. }
  destruct (postToAllPlatforms_keeps env appended v0 w videoBuffer description hashtags
              niche (answered_keptOrPosted env videoBuffer description hashtags niche v0)
              w Hstart) as [Hok Hend].
  split_and!.
  - done.
  - intros video Hissued. by apply (FanOut_writes appended v0 w _ video Hend).
  - apply (fan_video _ _ _ _ Hend).
  - intros p Hthrows video post Hvideo Hpost Hnew <-.
    destruct (fan_video _ _ _ _ Hend) as (posts & Hposts & Happended).
    rewrite Hposts in Hvideo. injection Hvideo as <-.
    rewrite Forall_forall in Happended.
    destruct (Happended post Hpost) as [Hold | [_ (postId & postedAt & _ & Hanswered)]];
      [done |].
    by apply (Hthrows postId).
Qed.

(** With Instagram down and the posts interleaved, the record ends with the YouTube
    entry alone, and that entry is a posted one. *)
Lemma fan_out_appends_only_posted_entries_witness :
  let env := instagramDown [0; 0; 2; 0; 2; 2; 0] in
  let w := worldWith aRecord in
  let outcome :=
    postToAllPlatforms env "video-0" "bytes" "Rise early. Win the day!"
      ["motivation"; "sunrise"] nicheWithAllAccounts w in
  fst outcome = Ok tt
  /\ exists posts,
       videos (snd outcome) !! "video-0" = Some (VideoMetadata.with_platforms posts aRecord)
       /\ Forall (keptOrPosted env "bytes" "Rise early. Win the day!"
                    ["motivation"; "sunrise"] nicheWithAllAccounts aRecord) posts.
Proof.
  cbv zeta.
  destruct (fan_out_appends_only_posted_entries (instagramDown [0; 0; 2; 0; 2; 2; 0])
              "bytes" "Rise early. Win the day!" ["motivation"; "sunrise"]
              nicheWithAllAccounts aRecord (worldWith aRecord))
    as (Hok & _ & Hrecord & _); [by vm_compute | by split].
Defined.

(* ================================================================= *)
(** ** The platform posts, interleaved *)

Lemma all_enabled (niche : ContentNiche.t) :
  (forall p, platformEnabled niche p = true) ->
  exists youtubeAccount instagramAccount tiktokAccount accessToken,
    ContentNiche.socialAccounts niche
    = SocialAccountConfig.mk (Some youtubeAccount) (Some instagramAccount)
        (Some tiktokAccount)
    /\ TikTokAccount.accessToken tiktokAccount = Some accessToken
    /\ (accessToken =? "") = false.
Proof.
  intros Hall.
  pose proof (Hall youtube) as Hy. pose proof (Hall instagram) as Hi.
  pose proof (Hall tiktok) as Ht.
  unfold platformEnabled, credentialPresent in *.
  destruct (ContentNiche.socialAccounts niche) as [[y|] [i|] [t|]];
    cbn in Hy, Hi, Ht; try done.
  destruct (TikTokAccount.accessToken t) as [token|] eqn:Htoken; [| done].
  exists y, i, t, token. split_and!; try done.
  cbn in Ht. by destruct (token =? "").
Qed.

Section StageLogic.
Variable expected : PlatformPost.t -> Prop.
Variable v0 : VideoMetadata.t.

Lemma Interleaved_sym (p q : Platform) (w : World) (sp sq : Stage) :
  Interleaved expected v0 p q w sp sq -> Interleaved expected v0 q p w sq sp.
Proof.
  intros (posts & Hstored & Hposts & Hp & Hq & Hreadp & Hreadq & Hnonempty).
  exists posts. split_and!; try done. intros [?|?]; apply Hnonempty; auto.
Qed.

(** The invariant reads the world only at the record of [v0]. *)
Lemma Interleaved_videos (p q : Platform) (w w' : World) (sp sq : Stage) :
  videos w' !! VideoMetadata.id v0 = videos w !! VideoMetadata.id v0 ->
  Interleaved expected v0 p q w sp sq -> Interleaved expected v0 p q w' sp sq.
Proof.
  intros Hsame (posts & Hstored & Hrest). exists posts. by rewrite Hsame.
Qed.

Lemma Interleaved_start (p q : Platform) (w : World) :
  videos w !! VideoMetadata.id v0 = Some v0 -> VideoMetadata.platforms v0 = [] ->
  Interleaved expected v0 p q w (Calling 0) (Calling 0).
Proof.
  intros Hstored Hempty. exists []. split_and!; try done.
  - rewrite Hstored. f_equal. destruct v0. cbn in Hempty. by subst.
  - split; [constructor | constructor].
  - intros _. apply not_elem_of_nil.
  - intros _. apply not_elem_of_nil.
  - by intros [?|?].
Qed.

(** One more call of the platform is answered. *)
Lemma Interleaved_call (p q : Platform) (w : World) (n m : nat) (sq : Stage) :
  Interleaved expected v0 p q w (Calling n) sq ->
  Interleaved expected v0 p q w (Calling m) sq.
Proof.
  intros (posts & Hstored & Hposts & Hp & Hq & Hreadp & Hreadq & Hnonempty).
  exists posts. split_and!; try done.
  - intros _. by apply Hp.
  - intros l Hl. destruct (Hreadq l Hl) as (Hl1 & Hl2 & Hl3).
    split_and!; [done | done |]. intros Hin. by specialize (Hl3 Hin).
  - intros [?|?]; [done |]. apply Hnonempty. by right.
Qed.

(** The post of [p] reads the record. *)
Lemma Interleaved_read (p q : Platform) (w : World) (n : nat) (sq : Stage)
    (posts : list PlatformPost.t) :
  videos w !! VideoMetadata.id v0 = Some (VideoMetadata.with_platforms posts v0) ->
  Interleaved expected v0 p q w (Calling n) sq ->
  Interleaved expected v0 p q w (HasRead posts) sq.
Proof.
  intros Hread (posts' & Hstored & Hposts & Hp & Hq & Hreadp & Hreadq & Hnonempty).
  rewrite Hstored in Hread. injection Hread as <-.
  exists posts'. split_and!; try done.
  - intros _. by apply Hp.
  - intros l [= <-]. split_and!; [done | by apply Hp |].
    intros Hin. destruct sq as [k|l|]; [| | done]; by destruct Hq.
  - intros l Hl. destruct (Hreadq l Hl) as (Hl1 & Hl2 & Hl3).
    split_and!; [done | done |]. intros Hin. by specialize (Hl3 Hin).
  - intros [?|?]; [done |]. apply Hnonempty. by right.
Qed.

(** The post of [p] writes the record it read, with its entry added. *)
Lemma Interleaved_write (p q : Platform) (w w' : World) (sq : Stage)
    (posts : list PlatformPost.t) (entry : PlatformPost.t) :
  p <> q -> expected entry -> PlatformPost.platform entry = p ->
  videos w' !! VideoMetadata.id v0
  = Some (VideoMetadata.with_platforms (posts ++ [entry]) v0) ->
  Interleaved expected v0 p q w (HasRead posts) sq ->
  Interleaved expected v0 p q w' Written sq.
Proof.
  intros Hpq Hentry Hplatform Hwritten
    (posts' & Hstored & Hposts & Hp & Hq & Hreadp & Hreadq & Hnonempty).
  destruct (Hreadp posts eq_refl) as ([Hexpected Hnodup] & Hmine & Hother).
  exists (posts ++ [entry]). split_and!; try done.
  - split.
    + apply Forall_app. split; [done |]. by constructor.
    + unfold platformsOf in *. rewrite map_app. cbn [map]. rewrite Hplatform.
      apply NoDup_app. split_and!; [done | | apply NoDup_singleton].
      intros x Hx ->%list_elem_of_singleton. by apply Hmine.
  - intros Hsq. unfold platformsOf in *. rewrite map_app. cbn [map].
    rewrite Hplatform, elem_of_app, list_elem_of_singleton.
    intros [Hin | ->]; [| done]. by specialize (Hother Hin).
  - intros l Hl. destruct (Hreadq l Hl) as (Hl1 & Hl2 & _). by split_and!.
  - intros _. by destruct posts.
Qed.

Lemma Interleaved_written (p q : Platform) (w : World) :
  Interleaved expected v0 p q w Written Written ->
  exists posts,
    videos w !! VideoMetadata.id v0 = Some (VideoMetadata.with_platforms posts v0)
    /\ Forall expected posts /\ NoDup (platformsOf posts) /\ posts <> [].
Proof.
  intros (posts & Hstored & [Hexpected Hnodup] & _ & _ & _ & _ & Hnonempty).
  exists posts. split_and!; [done | done | done |]. apply Hnonempty. by left.
Qed.

End StageLogic.

Ltac async_simpl :=
  cbn beta iota zeta delta
    [Async_monad Async_bind Async_tryCatch allSettled settleAll settle resume progress];
  run_simpl.

Ltac post_unfold :=
  unfold youtubeAt, tiktokAt, postToYouTube, postToInstagram, postToTikTok,
    setCredentials, uploadShortFromBuffer, postReel, postVideo, await;
  monad_unfold.

Lemma Await_inj {A : Type} (effect effect' : World -> World)
    (next next' : World -> Async A) :
  Await effect next = Await effect' next' -> effect = effect' /\ next = next'.
Proof. intros [= -> ->]. done. Qed.

Section Stepping.
Variable env : Env.
Variable uploaded : YouTubeUpload.t.
Variable published : TikTokPost.t.
Hypothesis Hfails : InstagramFails env uploaded published.
Hypothesis Hfault : forall c t, fault env c t = None.
Variable videoBuffer : Buffer.
Variable description : string.
Variable hashtags : list string.
Variable v0 : VideoMetadata.t.
Variable account : YouTubeAccount.t.
Variable accessToken : string.

Local Abbreviation youtubeAt := (youtubeAt env videoBuffer description hashtags v0 account).
Local Abbreviation tiktokAt := (tiktokAt env videoBuffer description hashtags v0 accessToken).
Local Abbreviation videoId := (VideoMetadata.id v0).
Local Abbreviation recordWith posts := (VideoMetadata.with_platforms posts v0).

Lemma youtubeAt_credentials (w : World) :
  youtubeAt (Calling 0) = Await (progress (youtubeAt (Calling 0))) (resume (youtubeAt (Calling 0)))
  /\ progress (youtubeAt (Calling 0)) w
     = issue (YouTubeSetCredentials (YouTubeAccount.refreshToken account)) w
  /\ resume (youtubeAt (Calling 0)) w = youtubeAt (Calling 1).
Proof. by split_and!. Qed.

Lemma youtubeAt_upload (w : World) :
  youtubeAt (Calling 1) = Await (progress (youtubeAt (Calling 1))) (resume (youtubeAt (Calling 1)))
  /\ progress (youtubeAt (Calling 1)) w
     = issue (YouTubeUploadShort (generateTitle description) description hashtags) w
  /\ resume (youtubeAt (Calling 1)) w = youtubeAt (Calling 2).
Proof using Hfails.
  destruct Hfails as [Hcred Hupload Hreel Hpost].
  post_unfold. async_simpl. rewrite Hcred. async_simpl. by split_and!.
Qed.

Lemma worldWith_lookup (posts : list PlatformPost.t) :
  videos (worldWith (recordWith posts)) !! videoId = Some (recordWith posts).
Proof. apply lookup_singleton_eq. Qed.

Ltac stage_simpl :=
  repeat first [ rewrite Hfault | rewrite worldWith_lookup
               | match goal with H : videos _ !! _ = Some _ |- _ => rewrite H end
               | progress async_simpl ].

Lemma youtubeAt_read (n : nat) (w : World) (posts : list PlatformPost.t) :
  let t := youtubeAt (Calling (S (S n))) in
  videos w !! videoId = Some (recordWith posts) ->
  t = Await (progress t) (resume t)
  /\ progress t w = issue (GetVideoMetadata videoId) w
  /\ resume t w = youtubeAt (HasRead posts).
Proof using Hfails Hfault.
  destruct Hfails as [Hcred Hupload Hreel Hpost].
  cbv zeta. intros Hstored.
  post_unfold. async_simpl. rewrite Hcred. async_simpl. rewrite Hupload. async_simpl.
  split_and!; [done | by stage_simpl | by stage_simpl].
Qed.

Lemma youtubeAt_write (w : World) (posts : list PlatformPost.t) :
  let t := youtubeAt (HasRead posts) in
  let saved :=
    recordWith (posts ++ [postedEntry youtube (YouTubeUpload.videoId uploaded) (clock w)]) in
  t = Await (progress t) (resume t)
  /\ progress t w = set_videos (insert videoId saved) (issue (SaveVideoMetadata saved) w)
  /\ resume t w = youtubeAt Written.
Proof using Hfails Hfault.
  destruct Hfails as [Hcred Hupload Hreel Hpost].
  cbv zeta.
  post_unfold. async_simpl. rewrite Hcred. async_simpl. rewrite Hupload. async_simpl.
  stage_simpl.
  split_and!; [done | by stage_simpl | by stage_simpl].
Qed.

Lemma tiktokAt_post (w : World) :
  let t := tiktokAt (Calling 0) in
  t = Await (progress t) (resume t)
  /\ progress t w
     = issue (TikTokPostVideo (description +:+ " " +:+ hashtagLine hashtags)
                (TikTokOptions.mk "PUBLIC_TO_EVERYONE" false false false)) w
  /\ resume t w = tiktokAt (Calling 1).
Proof. by split_and!. Qed.

Lemma tiktokAt_read (n : nat) (w : World) (posts : list PlatformPost.t) :
  let t := tiktokAt (Calling (S n)) in
  videos w !! videoId = Some (recordWith posts) ->
  t = Await (progress t) (resume t)
  /\ progress t w = issue (GetVideoMetadata videoId) w
  /\ resume t w = tiktokAt (HasRead posts).
Proof using Hfails Hfault.
  destruct Hfails as [Hcred Hupload Hreel Hpost].
  cbv zeta. intros Hstored.
  post_unfold. async_simpl. rewrite Hpost. async_simpl.
  split_and!; [done | by stage_simpl | by stage_simpl].
Qed.

Lemma tiktokAt_write (w : World) (posts : list PlatformPost.t) :
  let t := tiktokAt (HasRead posts) in
  let saved :=
    recordWith (posts ++ [postedEntry tiktok (TikTokPost.publishId published) (clock w)]) in
  t = Await (progress t) (resume t)
  /\ progress t w = set_videos (insert videoId saved) (issue (SaveVideoMetadata saved) w)
  /\ resume t w = tiktokAt Written.
Proof using Hfails Hfault.
  destruct Hfails as [Hcred Hupload Hreel Hpost].
  cbv zeta.
  post_unfold. async_simpl. rewrite Hpost. async_simpl.
  stage_simpl.
  split_and!; [done | by stage_simpl | by stage_simpl].
Qed.

(** With Instagram failing, [postToInstagram] writes no video record. *)
Lemma postToInstagram_quiet (niche : ContentNiche.t) :
  Quiet (postToInstagram env videoId description hashtags niche).
Proof using Hfails.
  destruct Hfails as [Hcred Hupload Hreel Hpost].
  post_unfold. async_simpl. constructor.
  - intros w. by destruct (fault env _ _).
  - intros w. destruct (fault env _ _); async_simpl; [constructor |].
    destruct (videos w !! videoId) as [video|]; async_simpl; [| constructor].
    destruct (SocialAccountConfig.instagram _) as [instagramAccount|]; async_simpl;
      [| constructor].
    constructor; [done |]. intros w'. async_simpl.
    match goal with
    | |- context [instagram_postReel env ?a ?b ?c ?d] =>
        pose proof (Hreel a b c d) as Hanswer;
        destruct (instagram_postReel env a b c d); [discriminate Hanswer |]
    end.
    async_simpl. constructor.
Qed.

Local Abbreviation InFlight :=
  (InFlight env uploaded published videoBuffer description hashtags v0 account accessToken).

(** Every step of every function in flight keeps the invariant. *)
Lemma InFlight_step (w : World) (ts : list (Async unit)) (i : nat)
    (effect : World -> World) (next : World -> Async unit) :
  InFlight w ts -> ts !! i = Some (Await effect next) ->
  InFlight (effect w) (<[i := next w]> ts).
Proof using Hfails Hfault.
  intros (sy & st & ti & -> & Hquiet & Hinv) Hi.
  destruct i as [|[|[|i]]]; cbn [lookup list_lookup] in Hi; [| | | done];
    injection Hi as Hi; cbn [insert list_insert].
  - destruct sy as [[|[|n]]|posts|].
    + destruct (youtubeAt_credentials w) as (Hwaits & Heffect & Hnext).
      rewrite Hwaits in Hi. apply Await_inj in Hi as [<- <-]. rewrite Heffect, Hnext.
      exists (Calling 1), st, ti. split_and!; [done | done |].
      apply (Interleaved_videos _ _ _ _ w); [done |]. by apply (Interleaved_call _ _ _ _ _ 0).
    + destruct (youtubeAt_upload w) as (Hwaits & Heffect & Hnext).
      rewrite Hwaits in Hi. apply Await_inj in Hi as [<- <-]. rewrite Heffect, Hnext.
      exists (Calling 2), st, ti. split_and!; [done | done |].
      apply (Interleaved_videos _ _ _ _ w); [done |]. by apply (Interleaved_call _ _ _ _ _ 1).
    + destruct Hinv as (posts & Hstored & Hrest).
      destruct (youtubeAt_read n w posts Hstored) as (Hwaits & Heffect & Hnext).
      rewrite Hwaits in Hi. apply Await_inj in Hi as [<- <-]. rewrite Heffect, Hnext.
      exists (HasRead posts), st, ti. split_and!; [done | done |].
      apply (Interleaved_videos _ _ _ _ w); [done |].
      apply (Interleaved_read _ _ _ _ _ (S (S n))); [done |]. by exists posts.
    + destruct (youtubeAt_write w posts) as (Hwaits & Heffect & Hnext).
      rewrite Hwaits in Hi. apply Await_inj in Hi as [<- <-]. rewrite Heffect, Hnext.
      exists Written, st, ti. split_and!; [done | done |].
      eapply (Interleaved_write _ _ youtube tiktok w); [done | | | | exact Hinv].
      * left. by eexists.
      * done.
      * cbn [videos set_videos]. by rewrite lookup_insert_eq.
    + discriminate Hi.
  - subst ti. inversion Hquiet as [| effect' next' Heffect Hnext]; subst.
    exists sy, st, (next w). split_and!; [done | apply Hnext |].
    apply (Interleaved_videos _ _ _ _ w); [| done]. by rewrite Heffect.
  - destruct st as [[|n]|posts|].
    + destruct (tiktokAt_post w) as (Hwaits & Heffect & Hnext).
      rewrite Hwaits in Hi. apply Await_inj in Hi as [<- <-]. rewrite Heffect, Hnext.
      exists sy, (Calling 1), ti. split_and!; [done | done |].
      apply (Interleaved_videos _ _ _ _ w); [done |].
      apply Interleaved_sym, (Interleaved_call _ _ _ _ _ 0), Interleaved_sym. done.
    + destruct Hinv as (posts & Hstored & Hrest).
      destruct (tiktokAt_read n w posts Hstored) as (Hwaits & Heffect & Hnext).
      rewrite Hwaits in Hi. apply Await_inj in Hi as [<- <-]. rewrite Heffect, Hnext.
      exists sy, (HasRead posts), ti. split_and!; [done | done |].
      apply (Interleaved_videos _ _ _ _ w); [done |].
      apply Interleaved_sym, (Interleaved_read _ _ _ _ _ (S n)); [done |].
      apply Interleaved_sym. by exists posts.
    + destruct (tiktokAt_write w posts) as (Hwaits & Heffect & Hnext).
      rewrite Hwaits in Hi. apply Await_inj in Hi as [<- <-]. rewrite Heffect, Hnext.
      exists sy, Written, ti. split_and!; [done | done |].
      apply Interleaved_sym.
      eapply (Interleaved_write _ _ tiktok youtube w);
        [done | | | | apply Interleaved_sym; exact Hinv].
      * right. by eexists.
      * done.
      * cbn [videos set_videos]. by rewrite lookup_insert_eq.
    + discriminate Hi.
Qed.

Lemma youtubeAt_settled (s : Stage) (r : Result unit) :
  youtubeAt s = Settled r -> s = Written.
Proof using Hfails Hfault.
  intros Hsettled. destruct s as [[|[|n]]|posts|]; [| | | | done].
  - destruct (youtubeAt_credentials emptyWorld) as (Hwaits & _).
    rewrite Hwaits in Hsettled. discriminate Hsettled.
  - destruct (youtubeAt_upload emptyWorld) as (Hwaits & _).
    rewrite Hwaits in Hsettled. discriminate Hsettled.
  - destruct (youtubeAt_read n _ [] (worldWith_lookup [])) as (Hwaits & _).
    rewrite Hwaits in Hsettled. discriminate Hsettled.
  - destruct (youtubeAt_write emptyWorld posts) as (Hwaits & _).
    rewrite Hwaits in Hsettled. discriminate Hsettled.
Qed.

Lemma tiktokAt_settled (s : Stage) (r : Result unit) :
  tiktokAt s = Settled r -> s = Written.
Proof using Hfails Hfault.
  intros Hsettled. destruct s as [[|n]|posts|]; [| | | done].
  - destruct (tiktokAt_post emptyWorld) as (Hwaits & _).
    rewrite Hwaits in Hsettled. discriminate Hsettled.
  - destruct (tiktokAt_read n _ [] (worldWith_lookup [])) as (Hwaits & _).
    rewrite Hwaits in Hsettled. discriminate Hsettled.
  - destruct (tiktokAt_write emptyWorld posts) as (Hwaits & _).
    rewrite Hwaits in Hsettled. discriminate Hsettled.
Qed.

End Stepping.

(** Entries of YouTube and TikTok, at most one for each, are at most two. *)
Lemma youtubeOrTikTok_at_most_two (uploaded : YouTubeUpload.t) (published : TikTokPost.t)
    (posts : list PlatformPost.t) :
  Forall (youtubeOrTikTok uploaded published) posts -> NoDup (platformsOf posts) ->
  length posts <= 2.
Proof.
  intros Hexpected Hnodup.
  assert (Hplatforms : Forall (fun p => p = youtube \/ p = tiktok) (platformsOf posts)).
  { unfold platformsOf. apply Forall_fmap. eapply Forall_impl; [exact Hexpected |].
    intros post [[t ->] | [t ->]]; [by left | by right]. }
  unfold platformsOf in *. rewrite <- (length_map PlatformPost.platform).
  destruct (map PlatformPost.platform posts) as [|a [|b [|c l]]]; cbn [length]; try lia.
  exfalso.
  apply NoDup_cons in Hnodup as [Ha Hnodup]. apply NoDup_cons in Hnodup as [Hb Hnodup].
  apply Forall_cons in Hplatforms as [Hpa Hplatforms].
  apply Forall_cons in Hplatforms as [Hpb Hplatforms].
  apply Forall_cons in Hplatforms as [Hpc _].
  apply not_elem_of_cons in Ha as [Hab Ha]. apply not_elem_of_cons in Ha as [Hac _].
  apply not_elem_of_cons in Hb as [Hbc _].
  destruct Hpa as [?|?], Hpb as [?|?], Hpc as [?|?]; congruence.
Qed.

(** Whatever the schedule, with Instagram failing and the other platforms answering,
    the fan-out leaves the record with one or two entries: posted entries of YouTube
    and TikTok, at most one of each. *)
Lemma postToAllPlatforms_interleaved (env : Env) (uploaded : YouTubeUpload.t)
    (published : TikTokPost.t) (videoBuffer : Buffer) (description : string)
    (hashtags : list string) (niche : ContentNiche.t) (v0 : VideoMetadata.t) (w : World) :
  InstagramFails env uploaded published ->
  (forall c t, fault env c t = None) ->
  (forall p, platformEnabled niche p = true) ->
  videos w !! VideoMetadata.id v0 = Some v0 ->
  VideoMetadata.platforms v0 = [] ->
  exists posts,
    videos (snd (postToAllPlatforms env (VideoMetadata.id v0) videoBuffer description
                   hashtags niche w)) !! VideoMetadata.id v0
    = Some (VideoMetadata.with_platforms posts v0)
    /\ Forall (youtubeOrTikTok uploaded published) posts
    /\ NoDup (platformsOf posts)
    /\ 1 <= length posts <= 2.
Proof.
  intros Hfails Hfault Hall Hstored Hempty.
  destruct (all_enabled niche Hall)
    as (account & instagramAccount & tiktokAccount & accessToken & Haccounts & Htoken
        & Hnonempty).
  unfold postToAllPlatforms, platformPosts. rewrite Haccounts.
  cbn [SocialAccountConfig.youtube SocialAccountConfig.instagram SocialAccountConfig.tiktok].
  rewrite Htoken. cbn [truthy]. rewrite Hnonempty.
  cbn [negb app map snd default from_option id].
  destruct (allSettled_invariant
              (InFlight env uploaded published videoBuffer description hashtags v0 account
                 accessToken)
              (InFlight_step env uploaded published Hfails Hfault videoBuffer description
                 hashtags v0 account accessToken)
              (schedule env)
              [postToYouTube env (VideoMetadata.id v0) videoBuffer description hashtags
                 account;
               postToInstagram env (VideoMetadata.id v0) description hashtags niche;
               postToTikTok env (VideoMetadata.id v0) videoBuffer description hashtags
                 accessToken] w)
    as (outcomes & Hok & (sy & st & ti & Hsettled & _ & Hinv)).
  { exists (Calling 0), (Calling 0),
      (postToInstagram env (VideoMetadata.id v0) description hashtags niche).
    split_and!; [done | by apply postToInstagram_quiet with uploaded published |].
    by apply Interleaved_start. }
  cbn [bind M_monad]. unfold M_bind.
  destruct (allSettled _ _ w) as [[rs|e] w']; cbn [fst snd] in *; [| discriminate Hok].
  injection Hok as ->.
  destruct outcomes as [|r1 [|r2 [|r3 [|r4 outcomes]]]]; try discriminate Hsettled.
  injection Hsettled as Hy _ Ht.
  symmetry in Hy, Ht.
  apply (youtubeAt_settled env uploaded published Hfails Hfault) in Hy as ->.
  apply (tiktokAt_settled env uploaded published Hfails Hfault) in Ht as ->.
  destruct (Interleaved_written _ _ _ _ _ Hinv)
    as (posts & Hposts & Hexpected & Hnodup & Hsome).
  exists posts. split_and!; [done | done | done | | ].
  - destruct posts; [done | cbn [length]; lia].
  - by apply (youtubeOrTikTok_at_most_two uploaded published).
Qed.

(* ================================================================= *)
(** ** A failing platform among working ones *)

Section Sequential.
Variable env : Env.
Variable uploaded : YouTubeUpload.t.
Variable published : TikTokPost.t.
Hypothesis Hfails : InstagramFails env uploaded published.
Hypothesis Hfault : forall c t, fault env c t = None.
Hypothesis Hsched : schedule env = [].

Lemma postToAllPlatforms_sequential (videoBuffer : Buffer) (description : string)
    (hashtags : list string) (niche : ContentNiche.t) (v0 : VideoMetadata.t) (w : World) :
  (forall p, platformEnabled niche p = true) ->
  videos w !! VideoMetadata.id v0 = Some v0 ->
  exists first second,
    videos (snd (postToAllPlatforms env (VideoMetadata.id v0) videoBuffer description
                   hashtags niche w)) !! VideoMetadata.id v0
    = Some (VideoMetadata.with_platforms
              (VideoMetadata.platforms v0
               ++ [postedEntry youtube (YouTubeUpload.videoId uploaded) first;
                   postedEntry tiktok (TikTokPost.publishId published) second]) v0).
Proof using Hfails Hfault Hsched.
  intros Hall Hstored. destruct Hfails as [Hcred Hupload Hreel Hpost].
  destruct (all_enabled niche Hall) as (y & i & t & token & Haccounts & Htoken & Hnonempty).
  unfold postToAllPlatforms, platformPosts. rewrite Hsched, Haccounts.
  cbn [SocialAccountConfig.youtube SocialAccountConfig.instagram SocialAccountConfig.tiktok].
  rewrite Htoken. cbn [truthy]. rewrite Hnonempty. cbn [negb app map snd default from_option id].
  unfold postToYouTube, postToInstagram, postToTikTok. rewrite Haccounts.
  cbn [SocialAccountConfig.youtube SocialAccountConfig.instagram SocialAccountConfig.tiktok].
  unfold setCredentials, uploadShortFromBuffer, postReel, postVideo, await.
  monad_unfold.
  repeat (first [ rewrite Hfault | rewrite Hcred | rewrite Hupload | rewrite Hpost
                | rewrite Hstored
                | match goal with
                  | |- context [instagram_postReel env ?a ?b ?c ?d] =>
                      let H := fresh "Hanswer" in
                      pose proof (Hreel a b c d) as H;
                      destruct (instagram_postReel env a b c d); [discriminate H | clear H]
                  end
                | progress async_simpl ]).
  do 2 eexists. unfold VideoMetadata.push, VideoMetadata.with_platforms.
  cbn [VideoMetadata.id VideoMetadata.niche VideoMetadata.prompt VideoMetadata.videoUrl
       VideoMetadata.storagePath VideoMetadata.duration VideoMetadata.createdAt
       VideoMetadata.status VideoMetadata.platforms].
  by rewrite <- app_assoc.
Qed.

End Sequential.

(** With Instagram failing, the posts the platforms answer are those of YouTube and of
    TikTok. *)
Lemma answered_when_instagram_fails (env : Env) (uploaded : YouTubeUpload.t)
    (published : TikTokPost.t) (videoBuffer : Buffer) (description : string)
    (hashtags : list string) (niche : ContentNiche.t) (v0 : VideoMetadata.t)
    (p : Platform) (postId : string) (postedAt : Date) :
  InstagramFails env uploaded published ->
  answered env videoBuffer description hashtags niche v0 p postId ->
  youtubeOrTikTok uploaded published (postedEntry p postId postedAt).
Proof.
  intros [Hcred Hupload Hreel Hpost]. destruct p; cbn [answered].
  - intros (account & result & _ & _ & Hresult & ->). rewrite Hupload in Hresult.
    injection Hresult as <-. left. by exists postedAt.
  - intros (account & result & _ & Hresult & _).
    specialize (Hreel (InstagramAccount.accessToken account)
                  (InstagramAccount.accountId account) (VideoMetadata.videoUrl v0)
                  (description +:+ newline +:+ newline +:+ hashtagLine hashtags)).
    by rewrite Hresult in Hreel.
  - intros (account & accessToken & result & _ & _ & Hresult & ->).
    rewrite Hpost in Hresult. injection Hresult as <-. right. by exists postedAt.
Qed.

(** The fan-out with Instagram failing, for a record that was just stored. *)
Lemma fan_out_when_instagram_fails (env : Env) (uploaded : YouTubeUpload.t)
    (published : TikTokPost.t) (videoBuffer : Buffer) (description : string)
    (hashtags : list string) (niche : ContentNiche.t) (v0 : VideoMetadata.t) (w : World) :
  InstagramFails env uploaded published ->
  (forall c t, fault env c t = None) ->
  (forall p, platformEnabled niche p = true) ->
  videos w !! VideoMetadata.id v0 = Some v0 ->
  VideoMetadata.platforms v0 = [] ->
  exists w2 posts,
    postToAllPlatforms env (VideoMetadata.id v0) videoBuffer description hashtags niche w
    = (Ok tt, w2)
    /\ jobs w2 = jobs w
    /\ videos w2 !! VideoMetadata.id v0 = Some (VideoMetadata.with_platforms posts v0)
    /\ Forall (youtubeOrTikTok uploaded published) posts
    /\ NoDup (platformsOf posts)
    /\ 1 <= length posts <= 2
    /\ (schedule env = [] ->
        exists first second,
          posts = [postedEntry youtube (YouTubeUpload.videoId uploaded) first;
                   postedEntry tiktok (TikTokPost.publishId published) second]).
Proof.
  intros Hfails Hfault Hall Hstored Hempty.
  destruct (fan_out_frame env videoBuffer description hashtags niche v0 w Hstored)
    as (w2 & Hrun & Hend); [rewrite Hempty; constructor |].
  destruct (postToAllPlatforms_interleaved env uploaded published videoBuffer description
              hashtags niche v0 w Hfails Hfault Hall Hstored Hempty)
    as (posts & Hposts & Hexpected & Hnodup & Hlength).
  pose proof (fun Hsched =>
                postToAllPlatforms_sequential env uploaded published Hfails Hfault Hsched
                  videoBuffer description hashtags niche v0 w Hall Hstored) as Hseq.
  rewrite Hrun in Hposts, Hseq. cbn [snd] in Hposts, Hseq.
  exists w2, posts.
  split_and!; [done | apply (fan_jobs _ _ _ _ Hend) | done | done | done | lia | lia |].
  intros Hsched. destruct (Hseq Hsched) as (first & second & Hboth).
  exists first, second. rewrite Hposts, Hempty in Hboth. by injection Hboth.
Qed.

Section Run.
Variable env : Env.

(** C1 (amended). With all three platforms enabled on the niche, every call of the
    run answered, and Instagram failing while YouTube and TikTok succeed, the run
    returns the video id, the job ends completed, and the stored record is marked
    posted and holds one or two entries, all of them posted entries of YouTube and
    TikTok with the ids the platforms answered, at most one for each platform: exactly
    the two of them, in that order, when the platform posts run one after the
    other. *)
Theorem instagram_failure_is_isolated (niche : ContentNiche.t) (w : World)
    (prompt : PromptGenerationResponse.t) (video : VideoGenerationResponse.t)
    (videoBuffer : Buffer) (uploaded : YouTubeUpload.t) (published : TikTokPost.t) :
  let jobId := firestore_autoId env (autoIds w) in
  let videoId := uuidv4 env (uuids w) in
  let outcome := generateAndPostVideo env niche w in
  (forall p, platformEnabled niche p = true) ->
  Answers env prompt video videoBuffer ->
  InstagramFails env uploaded published ->
  fst outcome = Ok videoId
  /\ storedJobStatus jobId (snd outcome) = Some JobStatus.completed
  /\ exists stored,
       videos (snd outcome) !! videoId = Some stored
       /\ VideoMetadata.status stored = VideoStatus.posted
       /\ Forall (youtubeOrTikTok uploaded published) (VideoMetadata.platforms stored)
       /\ NoDup (platformsOf (VideoMetadata.platforms stored))
       /\ 1 <= length (VideoMetadata.platforms stored) <= 2
       /\ (schedule env = [] ->
           exists first second,
             VideoMetadata.platforms stored
             = [postedEntry youtube (YouTubeUpload.videoId uploaded) first;
                postedEntry tiktok (TikTokPost.publishId published) second]).
Proof.
  cbv zeta. intros Hall [Hfault Hprompt Hvideo Hdownload HjobId] Hfails.
  pose proof (fun n => proj2 (String.eqb_neq _ _) (HjobId n)) as HjobId'.
  unfold generateAndPostVideo. monad_unfold. run_simpl.
  repeat (first [ rewrite Hfault in * | rewrite Hprompt in * | rewrite Hvideo in *
                | rewrite Hdownload in * | rewrite HjobId' in * | run_case env ]; run_simpl).
  all: match goal with
       | |- context [postToAllPlatforms env ?videoId ?buffer ?description ?hashtags ?n
                       (set_videos (insert ?videoId ?v0) ?W)] =>
           destruct (fan_out_when_instagram_fails env uploaded published buffer
                       description hashtags n v0 (set_videos (insert videoId v0) W)
                       Hfails Hfault Hall (lookup_insert_eq _ _ _) eq_refl)
             as (w2 & posts & Hrun & Hjobs & Hposts & Hexpected & Hnodup & Hlength
                 & Hsequential);
           cbn [VideoMetadata.id] in Hrun, Hposts; rewrite Hrun
       end.
  all: world_simpl; run_simpl; rewrite Hjobs, lookup_insert_eq; run_simpl;
    repeat (rewrite ?Hfault, ?Hposts; run_simpl).
  all: split; [done |]; split;
    [ unfold storedJobStatus; world_simpl; rewrite lookup_insert_eq;
      cbn [fmap option_fmap option_map applyJobUpdates WorkflowJob.status];
      by rewrite jobUpdates_status
    | eexists; split; [reflexivity |];
      cbn [VideoMetadata.platforms VideoMetadata.status VideoMetadata.with_status
           VideoMetadata.with_platforms];
      split_and!; first [ done | lia ] ].
Qed.

End Run.

(** *** The run on a niche with all accounts while Instagram is down *)

Lemma allAccounts_enabled (p : Platform) : platformEnabled nicheWithAllAccounts p = true.
Proof. by destruct p. Qed.

Lemma testEnv_answers (faults : Call -> nat -> option string)
    (topics : list TrendingTopic.t) (reel : Result Reel.t) (sched : list nat) :
  (forall c t, faults c t = None) ->
  Answers (testEnv faults topics aVideo reel sched) aPrompt aResponse "bytes".
Proof. intros Hfaults. by split. Qed.

Lemma instagramDown_fails (sched : list nat) :
  InstagramFails (instagramDown sched) anUpload aPublication.
Proof. by split. Qed.

(** C1 (as stated) fails: Instagram throws, YouTube and TikTok answer, the run returns
    and the job is completed; but TikTok wrote its entry between YouTube's read of the
    record and YouTube's write of it, and the stored record holds one entry, not
    two. *)
Lemma interleaved_posts_lose_an_entry :
  let env := instagramDown [0; 0; 2; 0; 2; 2; 0] in
  let outcome := generateAndPostVideo env nicheWithAllAccounts emptyWorld in
  (forall p, platformEnabled nicheWithAllAccounts p = true)
  /\ InstagramFails env anUpload aPublication
  /\ fst outcome = Ok "video-0"
  /\ postOperations (issuedDuring emptyWorld (snd outcome)) = [youtube; tiktok; instagram]
  /\ storedJobStatus "job-0" (snd outcome) = Some JobStatus.completed
  /\ storedPlatforms "video-0" (snd outcome) = Some [youtube]
  /\ ~ (exists stored,
          videos (snd outcome) !! "video-0" = Some stored
          /\ length (VideoMetadata.platforms stored) = 2).
Proof.
  cbv zeta. split; [apply allAccounts_enabled |]. split; [apply instagramDown_fails |].
  split_and!; try by vm_compute.
  intros (stored & Hstored & Hlength). vm_compute in Hstored.
  injection Hstored as <-. discriminate Hlength.
Qed.

(** The run of [instagramDown] with the platform posts one after the other. *)
Lemma instagram_failure_is_isolated_witness :
  let env := instagramDown [] in
  let outcome := generateAndPostVideo env nicheWithAllAccounts emptyWorld in
  fst outcome = Ok (uuidv4 env 0)
  /\ storedJobStatus (firestore_autoId env 0) (snd outcome) = Some JobStatus.completed
  /\ exists stored,
       videos (snd outcome) !! uuidv4 env 0 = Some stored
       /\ VideoMetadata.status stored = VideoStatus.posted
       /\ Forall (youtubeOrTikTok anUpload aPublication) (VideoMetadata.platforms stored)
       /\ NoDup (platformsOf (VideoMetadata.platforms stored))
       /\ 1 <= length (VideoMetadata.platforms stored) <= 2
       /\ (schedule env = [] ->
           exists first second,
             VideoMetadata.platforms stored
             = [postedEntry youtube "yt-1" first; postedEntry tiktok "tt-1" second]).
Proof.
  exact (instagram_failure_is_isolated (instagramDown []) nicheWithAllAccounts emptyWorld
           aPrompt aResponse "bytes" anUpload aPublication allAccounts_enabled
           (testEnv_answers noFaults [] _ [] (fun _ _ => eq_refl))
           (instagramDown_fails [])).
Defined.

(* ================================================================= *)
(** ** Runs that go through the fan-out *)

Lemma issuedDuring_through (w w2 w' : World) (pre new mid : list Call) :
  calls w' = pre ++ calls w2 -> calls w2 = new ++ mid ++ calls w ->
  issuedDuring w w' = rev mid ++ rev new ++ rev pre.
Proof.
  intros Hpre Hnew.
  rewrite (issuedDuring_calls w w' (pre ++ new ++ mid)).
  - by rewrite !rev_app_distr, <- app_assoc.
  - by rewrite Hpre, Hnew, <- !app_assoc.
Qed.

(** The step of the symbolic execution at the fan-out: the world after it is a new
    variable, known by what the fan-out keeps. *)
Ltac fan_out_step env :=
  match goal with
  | |- context [postToAllPlatforms env ?videoId ?buffer ?description ?hashtags ?n
                  (set_videos (insert ?videoId ?v0) ?W)] =>
      let w2 := fresh "w2" in
      let Hrun := fresh "Hrun" in
      let Hfan := fresh "Hfan" in
      destruct (fan_out_frame env buffer description hashtags n v0
                  (set_videos (insert videoId v0) W) (lookup_insert_eq _ _ _)
                  (Forall_nil_2 _))
        as (w2 & Hrun & Hfan);
      cbn [VideoMetadata.id] in Hrun; rewrite Hrun in *;
      let Hjobs := fresh "Hjobs" in
      let Hposts := fresh "Hposts" in
      let Hcalls := fresh "Hcalls" in
      let new := fresh "new" in
      let posts := fresh "posts" in
      pose proof (fan_jobs _ _ _ _ Hfan) as Hjobs;
      destruct (fan_video _ _ _ _ Hfan) as (posts & Hposts & _);
      let Hnew := fresh "Hnew" in
      destruct (fan_calls _ _ _ _ Hfan) as (new & Hcalls & Hnew);
      cbn [VideoMetadata.id] in Hposts
  end.

Ltac fan_out_rewrite :=
  match goal with
  | Hfan : FanOut _ _ _ ?w2, Hjobs : jobs ?w2 = _ |- context [jobs ?w2 !! _] =>
      rewrite Hjobs in *
  | Hfan : FanOut _ _ _ ?w2, Hposts : videos ?w2 !! ?k = _
    |- context [videos ?w2 !! ?k] =>
      rewrite Hposts in *
  end.

(** Rewrites [issuedDuring w w'] when [w'] lies beyond a fan-out. *)
Ltac read_log_through :=
  match goal with
  | Hcalls : calls ?w2 = ?new ++ ?lW |- _ =>
      repeat match goal with
      | |- context [issuedDuring ?w ?w'] =>
          let l := eval cbn [calls issue set_jobs set_videos set_trending set_blobs
                             next_autoId next_uuid] in (calls w') in
          let pre := calls_beyond w2 l in
          let mid := calls_beyond w lW in
          rewrite (issuedDuring_through w w2 w' pre new mid eq_refl Hcalls)
      | H : context [issuedDuring ?w ?w'] |- _ =>
          let l := eval cbn [calls issue set_jobs set_videos set_trending set_blobs
                             next_autoId next_uuid] in (calls w') in
          let pre := calls_beyond w2 l in
          let mid := calls_beyond w lW in
          rewrite (issuedDuring_through w w2 w' pre new mid eq_refl Hcalls) in H
      end
  end.

(** The call [c] is none of the fan-out's. *)
Lemma not_a_fan_out_call (E : PlatformPost.t -> Prop) (v0 : VideoMetadata.t)
    (new : list Call) (c : Call) :
  Forall (fanOutCall E v0) new -> c ∈ rev new -> fanOutCall E v0 c.
Proof.
  intros Hnew Hc. apply list_elem_of_In, in_rev, list_elem_of_In in Hc.
  rewrite Forall_forall in Hnew. by apply Hnew.
Qed.

(** Closes a goal with the hypothesis [H] that a call which the run did not issue is
    in its log. *)
Ltac not_issued H :=
  first [ read_log_through | read_log ]; cbn [rev app] in H;
  repeat first
    [ apply elem_of_cons in H as [H|H]; [discriminate H |]
    | apply elem_of_app in H as [H|H];
      [ match goal with
        | Hnew : Forall (fanOutCall _ _) ?new |- _ =>
            by apply (not_a_fan_out_call _ _ _ _ Hnew) in H
        end |] ];
  by apply elem_of_nil in H.

Section TopicsRejected.
Variable env : Env.

(** C2 (amended). If the store rejects the write of the fetched topics, the run is
    aborted: it throws, and its calls are the creation of the job, the update to
    running, the fetch, the rejected write and the update to failed, so that neither a
    prompt nor a video is asked for and nothing is stored or posted: no topic, no video
    record and no file is written.  When the store accepts the update that marks the
    job failed, the error thrown is the store's error for the topics, and the job,
    created queued and set running, is stored failed with the error's message (an
    empty message is not recorded).  (The run reaches the write, and the job has an
    id: the ids the store generates are not empty.) *)
Theorem topics_write_failure_fails_the_job (niche : ContentNiche.t) (w : World)
    (error : string) :
  let jobId := firestore_autoId env (autoIds w) in
  let outcome := generateAndPostVideo env niche w in
  let topics :=
    trendingTopics_getTrendingForNiche env (ContentNiche.name niche)
      (ContentNiche.keywords niche) in
  SaveTrendingTopics topics ∈ issuedDuring w (snd outcome) ->
  (forall t, fault env (SaveTrendingTopics topics) t = Some error) ->
  jobId <> "" ->
  isOk (fst outcome) = false
  /\ issuedDuring w (snd outcome)
     = [CreateJob jobId JobStatus.queued;
        UpdateJobStatus jobId JobStatus.running None;
        GetTrendingForNiche (ContentNiche.name niche) (ContentNiche.keywords niche);
        SaveTrendingTopics topics;
        UpdateJobStatus jobId JobStatus.failed (Some error)]
  /\ List.filter isGeneratePrompt (issuedDuring w (snd outcome)) = []
  /\ List.filter isGenerateVideo (issuedDuring w (snd outcome)) = []
  /\ trending (snd outcome) = trending w
  /\ videos (snd outcome) = videos w
  /\ blobs (snd outcome) = blobs w
  /\ ((forall t,
         fault env (UpdateJobStatus jobId JobStatus.failed (Some error)) t = None) ->
      fst outcome = Throw error
      /\ jobStatuses jobId (issuedDuring w (snd outcome))
         = [JobStatus.queued; JobStatus.running; JobStatus.failed]
      /\ storedJobStatus jobId (snd outcome) = Some JobStatus.failed
      /\ (WorkflowJob.error <$> jobs (snd outcome) !! jobId)
         = Some (if truthy (Some error) then Some error else None)).
Proof.
  cbv zeta. intros Hreached Hrejected HjobId.
  apply String.eqb_neq in HjobId as HjobId'.
  unfold generateAndPostVideo in *. monad_unfold. run_simpl.
  repeat (first [ rewrite Hrejected in * | rewrite HjobId' in *
                | fan_out_step env | fan_out_rewrite | run_case env ]; run_simpl).
  all: try (exfalso; not_issued Hreached).
  all: clear Hreached; read_log;
    cbn [rev app jobStatuses omap list_omap List.filter isGeneratePrompt isGenerateVideo
         isOk];
    rewrite ?bool_decide_eq_true_2 by done;
    unfold storedJobStatus; world_simpl; rewrite ?lookup_insert_eq;
    cbn [fmap option_fmap option_map];
    unfold applyJobUpdates;
    rewrite ?jobUpdates_status, ?jobUpdates_error;
    cbn [truthy WorkflowJob.status WorkflowJob.error].
  all: split_and!; try done.
  all: intros Haccepted;
    first [ by rewrite Haccepted in *
          | split_and!; [done | done | done | by destruct (error =? "")%string] ].
Qed.

End TopicsRejected.

(** C2 (as stated) fails: the topics are fetched, the store rejects their write, and
    the run throws the store's error and marks the job failed; nothing of the
    remaining steps is done. *)
Lemma topics_write_failure_aborts_the_run :
  let outcome := generateAndPostVideo topicsRejected nicheWithAllAccounts emptyWorld in
  trendingTopics_getTrendingForNiche topicsRejected "Daily Motivation Boost"
    ["motivation"; "success"] = [aTopic]
  /\ fst outcome = Throw "UNAVAILABLE: batch commit"
  /\ storedJobStatus "job-0" (snd outcome) = Some JobStatus.failed
  /\ issuedDuring emptyWorld (snd outcome)
     = [CreateJob "job-0" JobStatus.queued;
        UpdateJobStatus "job-0" JobStatus.running None;
        GetTrendingForNiche "Daily Motivation Boost" ["motivation"; "success"];
        SaveTrendingTopics [aTopic];
        UpdateJobStatus "job-0" JobStatus.failed (Some "UNAVAILABLE: batch commit")]
  /\ List.filter isGenerateVideo (issuedDuring emptyWorld (snd outcome)) = []
  /\ videos (snd outcome) = ∅.
Proof. by vm_compute. Qed.

(** The run of [topicsRejected] on the empty world. *)
Lemma topics_write_failure_fails_the_job_witness :
  let env := topicsRejected in
  let jobId := firestore_autoId env 0 in
  let outcome := generateAndPostVideo env nicheWithAllAccounts emptyWorld in
  isOk (fst outcome) = false
  /\ issuedDuring emptyWorld (snd outcome)
     = [CreateJob jobId JobStatus.queued;
        UpdateJobStatus jobId JobStatus.running None;
        GetTrendingForNiche "Daily Motivation Boost" ["motivation"; "success"];
        SaveTrendingTopics [aTopic];
        UpdateJobStatus jobId JobStatus.failed (Some "UNAVAILABLE: batch commit")]
  /\ List.filter isGeneratePrompt (issuedDuring emptyWorld (snd outcome)) = []
  /\ List.filter isGenerateVideo (issuedDuring emptyWorld (snd outcome)) = []
  /\ trending (snd outcome) = []
  /\ videos (snd outcome) = ∅
  /\ blobs (snd outcome) = ∅
  /\ fst outcome = Throw "UNAVAILABLE: batch commit"
  /\ jobStatuses jobId (issuedDuring emptyWorld (snd outcome))
     = [JobStatus.queued; JobStatus.running; JobStatus.failed]
  /\ storedJobStatus jobId (snd outcome) = Some JobStatus.failed
  /\ (WorkflowJob.error <$> jobs (snd outcome) !! jobId)
     = Some (Some "UNAVAILABLE: batch commit").
Proof.
  destruct (topics_write_failure_fails_the_job topicsRejected nicheWithAllAccounts
              emptyWorld "UNAVAILABLE: batch commit")
    as (Hthrows & Hcalls & Hprompt & Hvideo & Htrending & Hvideos & Hblobs & Hfailed).
  - vm_compute. repeat first [apply list_elem_of_here | apply list_elem_of_further].
  - done.
  - done.
  - destruct Hfailed as (Herror & Hstatuses & Hstored & Hmessage); [done |].
    by split_and!.
Defined.

(** The provider throws: the run of [providerFails] on the empty world. *)
Lemma video_generation_failure_fails_the_job_witness :
  let env := providerFails in
  let outcome := generateAndPostVideo env nicheWithAllAccounts emptyWorld in
  fst outcome = Throw "Video generation failed"
  /\ jobStatuses (firestore_autoId env 0) (issuedDuring emptyWorld (snd outcome))
     = [JobStatus.queued; JobStatus.running; JobStatus.failed]
  /\ (exists finished,
        1 < finished
        /\ jobs (snd outcome) !! firestore_autoId env 0
           = Some (WorkflowJob.mk (firestore_autoId env 0) JobType.generate
                     JobStatus.failed "n1" None 0 (Some 1) (Some finished)
                     (Some "Video generation failed") 0))
  /\ videos (snd outcome) = ∅
  /\ List.filter isSaveVideoMetadata (issuedDuring emptyWorld (snd outcome)) = [].
Proof.
  apply (video_generation_failure_fails_the_job providerFails nicheWithAllAccounts
           emptyWorld "Video generation failed").
  - vm_compute. eexists. repeat first [apply list_elem_of_here | apply list_elem_of_further].
  - done.
  - done.
  - done.
Defined.

(** C4 (as stated) fails: the provider throws, the store rejects the update that marks
    the job failed, and the run throws the store's error, not the provider's; the job
    is never failed: it stays stored as running, with no error and no completion
    time. *)
Lemma generation_failure_left_unrecorded :
  let env := failureUnrecorded in
  let outcome := generateAndPostVideo env nicheWithAllAccounts emptyWorld in
  length (List.filter isGenerateVideo (issuedDuring emptyWorld (snd outcome))) = 1
  /\ (forall request,
        videoGenerator_generateVideo env request = Throw "Video generation failed")
  /\ fst outcome = Throw "DEADLINE_EXCEEDED"
  /\ jobs (snd outcome) !! "job-0"
     = Some (WorkflowJob.mk "job-0" JobType.generate JobStatus.running "n1" None 0
               (Some 1) None None 0)
  /\ videos (snd outcome) = ∅.
Proof. by vm_compute. Qed.

(* ================================================================= *)
(** ** Retrying a failed job *)

(** Settles what a call of the log is, when the log is known. *)
Ltac which_call H :=
  first [ read_log_through | read_log ]; cbn [rev app] in H;
  repeat first
    [ apply elem_of_cons in H as [H|H];
      [ first [ discriminate H | injection H; intros; subst; by repeat constructor ] |]
    | apply elem_of_app in H as [H|H];
      [ match goal with
        | Hnew : Forall (fanOutCall _ _) ?new |- _ =>
            apply (not_a_fan_out_call _ _ _ _ Hnew) in H;
            first [ done | by destruct H as (? & -> & ?) ]
        end |] ];
  by apply elem_of_nil in H.

Ltac empty_case :=
  match goal with
  | |- context [(?s =? "")%string] =>
      let H := fresh "Hempty" in destruct (s =? "")%string eqn:H
  end.

(** The log only grows, and a run issues exactly one call that creates a job. *)
Lemma run_creates_one_job (env : Env) (niche : ContentNiche.t) (w : World) :
  exists new,
    calls (snd (generateAndPostVideo env niche w)) = new ++ calls w
    /\ List.filter isCreateJob new
       = [CreateJob (firestore_autoId env (autoIds w)) JobStatus.queued]
    /\ niches (snd (generateAndPostVideo env niche w)) = niches w.
Proof.
  unfold generateAndPostVideo. monad_unfold. run_simpl.
  repeat (first [ fan_out_step env | fan_out_rewrite | empty_case | run_case env ];
          run_simpl).
  all: try match goal with
       | Hfan : FanOut _ _ _ ?w2 |- _ =>
           pose proof (fan_niches _ _ _ _ Hfan) as Hniches; world_simpl
       end.
  all: match goal with
       | Hcalls : calls ?w2 = ?new ++ ?lW |- exists n, ?l = n ++ calls ?w /\ _ =>
           let pre := calls_beyond w2 l in
           let mid := calls_beyond w lW in
           exists (pre ++ new ++ mid); split; [by rewrite Hcalls, <- !app_assoc |];
           rewrite !List.filter_app; cbn [List.filter isCreateJob app];
           replace (List.filter isCreateJob new) with (@nil Call);
           [ by rewrite ?app_nil_r |];
           match goal with
           | Hnew : Forall (fanOutCall _ _) new |- _ =>
               clear - Hnew; induction Hnew as [|c cs Hc _ IH]; [done |];
               cbn [List.filter]; destruct c; try done; by rewrite <- IH
           end
       | |- exists n, ?l = n ++ calls ?w /\ _ =>
           let new := calls_beyond w l in
           exists new; by split_and!
       end.
Qed.

Section Retry.
Variable env : Env.

(** Every run draws its video id from the generator and its job id from the store,
    writes no video record under another id, and writes only posted entries to the
    record. *)
Lemma run_draws_fresh_ids (niche : ContentNiche.t) (w : World) :
  let outcome := generateAndPostVideo env niche w in
  (forall videoId, fst outcome = Ok videoId ->
                   videoId = uuidv4 env (uuids w) /\ uuids (snd outcome) = S (uuids w))
  /\ (forall video, SaveVideoMetadata video ∈ issuedDuring w (snd outcome) ->
                    VideoMetadata.id video = uuidv4 env (uuids w))
  /\ (forall id status, CreateJob id status ∈ issuedDuring w (snd outcome) ->
                        id = firestore_autoId env (autoIds w)
                        /\ status = JobStatus.queued)
  /\ (forall video, SaveVideoMetadata video ∈ issuedDuring w (snd outcome) ->
                    Forall wellPosted (VideoMetadata.platforms video)).
Proof.
  cbv zeta. unfold generateAndPostVideo. monad_unfold. run_simpl.
  repeat (first [ fan_out_step env | fan_out_rewrite | empty_case | run_case env ];
          run_simpl).
  all: (split; [| split; [| split]]);
    [ intros videoId Hok;
      first [ discriminate Hok
            | injection Hok as <-; split; [done |]; world_simpl;
              match goal with Hfan : FanOut _ _ _ ?w2 |- _ =>
                rewrite (fan_uuids _ _ _ _ Hfan) end; by world_simpl ]
    | intros video Hissued; which_call Hissued
    | intros id status Hissued; which_call Hissued
    | intros video Hissued; which_call Hissued ].
Qed.

(** No run writes a pending or failed entry to a video record. *)
Lemma run_writes_only_posted_entries (niche : ContentNiche.t) (w : World)
    (video : VideoMetadata.t) :
  SaveVideoMetadata video ∈ issuedDuring w (snd (generateAndPostVideo env niche w)) ->
  Forall wellPosted (VideoMetadata.platforms video).
Proof. apply run_draws_fresh_ids. Qed.

(** When every call up to the fan-out is answered, the run returns the id it drew:
    its job ends completed, the video is in the bucket and its record, stored under
    that id for the niche, is marked posted; one id of each generator is used. *)
Lemma run_completes (niche : ContentNiche.t) (w : World)
    (prompt : PromptGenerationResponse.t) (video : VideoGenerationResponse.t)
    (videoBuffer : Buffer) :
  let jobId := firestore_autoId env (autoIds w) in
  let videoId := uuidv4 env (uuids w) in
  let outcome := generateAndPostVideo env niche w in
  Answers env prompt video videoBuffer ->
  fst outcome = Ok videoId
  /\ storedJobStatus jobId (snd outcome) = Some JobStatus.completed
  /\ (exists stored,
        videos (snd outcome) !! videoId = Some stored
        /\ VideoMetadata.id stored = videoId
        /\ VideoMetadata.niche stored = ContentNiche.id niche
        /\ VideoMetadata.prompt stored = PromptGenerationResponse.prompt prompt
        /\ VideoMetadata.status stored = VideoStatus.posted)
  /\ blobs (snd outcome)
       !! ("videos/" +:+ ContentNiche.id niche +:+ "/" +:+ videoId +:+ ".mp4")
     = Some videoBuffer
  /\ uuids (snd outcome) = S (uuids w)
  /\ autoIds (snd outcome) = S (autoIds w).
Proof.
  cbv zeta. intros [Hfault Hprompt Hvideo Hdownload HjobId].
  pose proof (fun n => proj2 (String.eqb_neq _ _) (HjobId n)) as HjobId'.
  unfold generateAndPostVideo. monad_unfold. run_simpl.
  repeat (first [ rewrite Hfault in * | rewrite Hprompt in * | rewrite Hvideo in *
                | rewrite Hdownload in * | rewrite HjobId' in * | run_case env ]; run_simpl).
  all: match goal with
       | |- context [postToAllPlatforms env ?videoId ?buffer ?description ?hashtags ?n
                       (set_videos (insert ?videoId ?v0) ?W)] =>
           destruct (fan_out_frame env buffer description hashtags n v0
                       (set_videos (insert videoId v0) W) (lookup_insert_eq _ _ _)
                       (Forall_nil_2 _))
             as (w2 & Hrun & Hfan);
           cbn [VideoMetadata.id] in Hrun; rewrite Hrun in *;
           pose proof (fan_jobs _ _ _ _ Hfan) as Hjobs;
           pose proof (fan_blobs _ _ _ _ Hfan) as Hblobs;
           pose proof (fan_uuids _ _ _ _ Hfan) as Huuids;
           pose proof (fan_autoIds _ _ _ _ Hfan) as HautoIds;
           destruct (fan_video _ _ _ _ Hfan) as (posts & Hposts & Hposted);
           cbn [VideoMetadata.id] in Hposts
       end.
  all: world_simpl; run_simpl; rewrite Hjobs, lookup_insert_eq; run_simpl;
    repeat (rewrite ?Hfault, ?Hposts; run_simpl).
  all: split_and!;
    [ done
    | unfold storedJobStatus; world_simpl; rewrite lookup_insert_eq;
      cbn [fmap option_fmap option_map applyJobUpdates WorkflowJob.status];
      by rewrite jobUpdates_status
    | eexists; split; [reflexivity |]; by split_and!
    | rewrite Hblobs; world_simpl; by rewrite lookup_insert_eq
    | by rewrite Huuids
    | by rewrite HautoIds ].
Qed.

(** C6. A retry of a job that is missing or not failed throws after the one read of
    the job and nothing else: no job is created, no video id drawn, no store changed.
    A retry of a failed job whose niche resolves is, after the two reads, the run of
    [generateAndPostVideo] on that niche: it ends in the same world with the same
    error or success.  The run asks the store for a job of its own, once and under the
    store's next id, and its video id is the next id of the generator, under which
    alone it writes video records, and which differs from every id drawn before when
    the generator never repeats an id.  When every call is answered the run is
    complete: the retry returns, the new job is stored completed, and the new video is
    in the bucket and its record, under the new id, is marked posted. *)
Theorem retry_rejects_or_runs_afresh (jobId : string) (w : World) :
  let outcome := retryFailedJob env jobId w in
  ((forall job, jobs w !! jobId = Some job -> WorkflowJob.status job <> JobStatus.failed) ->
   isOk (fst outcome) = false
   /\ issuedDuring w (snd outcome) = [GetJob jobId]
   /\ jobs (snd outcome) = jobs w
   /\ videos (snd outcome) = videos w
   /\ blobs (snd outcome) = blobs w
   /\ uuids (snd outcome) = uuids w
   /\ autoIds (snd outcome) = autoIds w)
  /\ (forall job niche,
        jobs w !! jobId = Some job -> WorkflowJob.status job = JobStatus.failed ->
        niches w !! WorkflowJob.niche job = Some niche ->
        fault env (GetJob jobId) (clock w) = None ->
        fault env (GetContentNiche (WorkflowJob.niche job)) (S (clock w)) = None ->
        let w1 := issue (GetContentNiche (WorkflowJob.niche job)) (issue (GetJob jobId) w) in
        let run := generateAndPostVideo env niche w1 in
        let newJobId := firestore_autoId env (autoIds w) in
        let newVideoId := uuidv4 env (uuids w) in
        snd outcome = snd run
        /\ fst outcome = match fst run with Ok _ => Ok tt | Throw e => Throw e end
        /\ (forall videoId,
              fst run = Ok videoId ->
              videoId = newVideoId
              /\ uuids (snd outcome) = S (uuids w)
              /\ (Inj (=) (=) (uuidv4 env) ->
                  forall earlier, earlier < uuids w -> uuidv4 env earlier <> videoId))
        /\ (forall video,
              SaveVideoMetadata video ∈ issuedDuring w1 (snd outcome) ->
              VideoMetadata.id video = newVideoId)
        /\ (forall id status,
              CreateJob id status ∈ issuedDuring w1 (snd outcome) ->
              id = newJobId /\ status = JobStatus.queued)
        /\ List.filter isCreateJob (issuedDuring w1 (snd outcome))
           = [CreateJob newJobId JobStatus.queued]
        /\ (forall prompt video videoBuffer,
              Answers env prompt video videoBuffer ->
              fst outcome = Ok tt
              /\ storedJobStatus newJobId (snd outcome) = Some JobStatus.completed
              /\ (exists stored,
                    videos (snd outcome) !! newVideoId = Some stored
                    /\ VideoMetadata.id stored = newVideoId
                    /\ VideoMetadata.niche stored = ContentNiche.id niche
                    /\ VideoMetadata.prompt stored
                       = PromptGenerationResponse.prompt prompt
                    /\ VideoMetadata.status stored = VideoStatus.posted)
              /\ blobs (snd outcome)
                   !! ("videos/" +:+ ContentNiche.id niche +:+ "/" +:+ newVideoId
                       +:+ ".mp4")
                 = Some videoBuffer
              /\ uuids (snd outcome) = S (uuids w)
              /\ autoIds (snd outcome) = S (autoIds w)
              /\ (Inj (=) (=) (uuidv4 env) ->
                  forall earlier, earlier < uuids w ->
                                  uuidv4 env earlier <> newVideoId))).
Proof.
  cbv zeta. split.
  - intros Hjob. unfold retryFailedJob. monad_unfold. run_simpl.
    destruct (fault env (GetJob jobId) (clock w)) as [e|]; run_simpl.
    + read_log. by split_and!.
    + destruct (jobs w !! jobId) as [job|] eqn:Hstored; run_simpl.
      * rewrite bool_decide_eq_false_2 by by apply Hjob. run_simpl.
        read_log. by split_and!.
      * read_log. by split_and!.
  - intros job niche Hstored Hfailed Hniche HgetJob HgetNiche.
    destruct (run_draws_fresh_ids niche
                (issue (GetContentNiche (WorkflowJob.niche job)) (issue (GetJob jobId) w)))
      as (Hid & Hwrites & Hjobs & _).
    assert (Hretry :
      retryFailedJob env jobId w
      = (match fst (generateAndPostVideo env niche
                      (issue (GetContentNiche (WorkflowJob.niche job))
                         (issue (GetJob jobId) w))) with
         | Ok _ => Ok tt
         | Throw e => Throw e
         end,
         snd (generateAndPostVideo env niche
                (issue (GetContentNiche (WorkflowJob.niche job))
                   (issue (GetJob jobId) w))))).
    { unfold retryFailedJob.
      unfold bind, ret, throw, tryCatch, M_monad, M_bind, M_tryCatch, getJob,
        getContentNiche, request.
      rewrite HgetJob. run_simpl. rewrite Hstored.
      rewrite bool_decide_eq_true_2 by done. run_simpl.
      rewrite HgetNiche. run_simpl. rewrite Hniche.
      by destruct (generateAndPostVideo env niche _) as [[videoId|e] w']. }
    rewrite Hretry. cbn [fst snd]. split_and!; [done | done | | done | done | |].
    + intros videoId Hok. destruct (Hid videoId Hok) as [-> Hdrawn].
      split_and!; [done | done |].
      intros Hinj earlier Hearlier Hsame. apply Hinj in Hsame. world_simpl. lia.
    + destruct (run_creates_one_job env niche
                  (issue (GetContentNiche (WorkflowJob.niche job)) (issue (GetJob jobId) w)))
        as (new & Hcalls & Hone & _).
      rewrite (issuedDuring_calls _ _ new Hcalls), List.filter_rev, Hone. done.
    + intros prompt video videoBuffer Hanswers.
      destruct (run_completes niche
                  (issue (GetContentNiche (WorkflowJob.niche job)) (issue (GetJob jobId) w))
                  prompt video videoBuffer Hanswers)
        as (Hok & Hcompleted & Hrecord & Hblob & Huuids & HautoIds).
      rewrite Hok. world_simpl. split_and!; [done | done | done | done | done | done |].
      intros Hinj earlier Hearlier Hsame. apply Hinj in Hsame. lia.
Qed.

End Retry.

(** The retry of the failed job of [worldAfterFailure], once the provider works
    again, is a complete run: a second job and a second video. *)
Lemma retry_rejects_or_runs_afresh_witness :
  let outcome := retryFailedJob (instagramDown []) "job-0" worldAfterFailure in
  jobs worldAfterFailure !! "job-0" = Some theFailedJob
  /\ fst outcome = Ok tt
  /\ storedJobStatus "job-1" (snd outcome) = Some JobStatus.completed
  /\ (exists stored,
        videos (snd outcome) !! "video-1" = Some stored
        /\ VideoMetadata.id stored = "video-1"
        /\ VideoMetadata.niche stored = "n1"
        /\ VideoMetadata.prompt stored = PromptGenerationResponse.prompt aPrompt
        /\ VideoMetadata.status stored = VideoStatus.posted)
  /\ blobs (snd outcome) !! "videos/n1/video-1.mp4" = Some "bytes"
  /\ uuids (snd outcome) = 2
  /\ autoIds (snd outcome) = 2.
Proof.
  assert (Hstored : jobs worldAfterFailure !! "job-0" = Some theFailedJob)
    by by vm_compute.
  assert (Hniche : niches worldAfterFailure !! WorkflowJob.niche theFailedJob
                   = Some nicheWithAllAccounts) by by vm_compute.
  assert (Hanswers : Answers (instagramDown []) aPrompt aResponse "bytes") by by split.
  destruct (retry_rejects_or_runs_afresh (instagramDown []) "job-0" worldAfterFailure)
    as [_ Hfailed].
  destruct (Hfailed theFailedJob nicheWithAllAccounts Hstored eq_refl Hniche eq_refl
              eq_refl)
    as (_ & _ & _ & _ & _ & _ & Hcomplete).
  destruct (Hcomplete aPrompt aResponse "bytes" Hanswers)
    as (Hok & Hcompleted & Hrecord & Hblob & Huuids & HautoIds & _).
  split; [exact Hstored |]. split; [exact Hok |]. split; [exact Hcompleted |].
  split; [exact Hrecord |]. split; [exact Hblob |]. split; [exact Huuids | exact HautoIds].
Defined.

(** The retry of a job that does not exist, and the retry of the failed job of
    [worldAfterFailure] once the provider works again: the new run draws the video id
    ["video-1"], not the ["video-0"] of the failed run. *)
Example retry_of_a_missing_job :
  retryFailedJob providerFails "job-7" configuredWorld
  = (Throw "Job not found or not in failed status", issue (GetJob "job-7") configuredWorld).
Proof. by vm_compute. Qed.

Example retry_of_a_failed_job :
  let outcome := retryFailedJob (instagramDown []) "job-0" worldAfterFailure in
  storedJobStatus "job-0" worldAfterFailure = Some JobStatus.failed
  /\ fst outcome = Ok tt
  /\ storedJobStatus "job-0" (snd outcome) = Some JobStatus.failed
  /\ storedJobStatus "job-1" (snd outcome) = Some JobStatus.completed
  /\ storedPlatforms "video-0" (snd outcome) = None
  /\ storedPlatforms "video-1" (snd outcome) = Some [youtube; tiktok].
Proof. by vm_compute. Qed.

(* ================================================================= *)
(** ** Titles *)

Lemma append_cons (c : Ascii.ascii) (s t : string) :
  String c s +:+ t = String c (s +:+ t).
Proof. reflexivity. Qed.

Lemma append_nil (t : string) : "" +:+ t = t.
Proof. reflexivity. Qed.

Lemma substring0_length (n : nat) (s : string) : String.length (substring0 n s) <= n.
Proof.
  revert s. induction n as [|n IH]; intros [|c s]; simpl; try lia.
  specialize (IH s). lia.
Qed.

Lemma substring0_prefix (n : nat) (s : string) : exists rest, s = substring0 n s +:+ rest.
Proof.
  revert s. induction n as [|n IH]; intros [|c s]; simpl; try by eexists.
  destruct (IH s) as [rest Hrest]. exists rest. by rewrite append_cons, <- Hrest.
Qed.

Lemma firstSentence_prefix (s : string) : exists rest, s = firstSentence s +:+ rest.
Proof.
  induction s as [|c s [rest IH]]; simpl; [by exists "" |].
  destruct (Ascii.eqb c "." || Ascii.eqb c "!" || Ascii.eqb c "?"); [by eexists |].
  exists rest. by rewrite append_cons, <- IH.
Qed.

Lemma firstSentence_chars (s : string) (c : Ascii.ascii) :
  c ∈ chars (firstSentence s) -> ~ sentenceEnd c.
Proof.
  unfold chars, sentenceEnd. induction s as [|a s IH]; simpl.
  { intros Hc. by apply elem_of_nil in Hc. }
  destruct (Ascii.eqb a "." || Ascii.eqb a "!" || Ascii.eqb a "?") eqn:Hend; simpl.
  { intros Hc. by apply elem_of_nil in Hc. }
  intros Hc. apply elem_of_cons in Hc as [->|Hc]; [| by apply IH].
  apply orb_false_iff in Hend as [[H1 H2]%orb_false_iff H3].
  apply Ascii.eqb_neq in H1, H2, H3. intros [?|[?|?]]; congruence.
Qed.

Lemma substring0_chars (n : nat) (s : string) : chars (substring0 n s) ⊆ chars s.
Proof.
  unfold chars. revert s. induction n as [|n IH]; intros [|c s] x; simpl; intros Hx;
    try by apply elem_of_nil in Hx.
  apply elem_of_cons in Hx as [->|Hx]; [left | right; by apply IH].
Qed.

Lemma trimStart_suffix (s : string) : exists ws, s = ws +:+ trimStart s /\ blank ws.
Proof.
  induction s as [|c s (ws & IH & Hws)]; simpl.
  - exists "". split; [done | constructor].
  - destruct (isSpace c) eqn:Hc.
    + exists (String c ws). split; [by rewrite append_cons, <- IH | by constructor].
    + exists "". split; [done | constructor].
Qed.

Lemma trimEnd_prefix (s : string) : exists ws, s = trimEnd s +:+ ws /\ blank ws.
Proof.
  induction s as [|c s (ws & IH & Hws)]; simpl.
  - exists "". split; [done | constructor].
  - destruct (trimEnd s) as [|a t] eqn:Ht.
    + destruct (isSpace c) eqn:Hc.
      * exists (String c ws). split; [by rewrite IH | by constructor].
      * exists ws. by rewrite append_cons, <- IH.
    + exists ws. by rewrite append_cons, <- IH.
Qed.

Lemma chars_app (s t : string) : chars (s +:+ t) = chars s ++ chars t.
Proof. unfold chars. induction s; rewrite ?append_cons, ?append_nil; simpl; congruence. Qed.

Lemma length_append (s t : string) :
  String.length (s +:+ t) = String.length s + String.length t.
Proof. induction s; rewrite ?append_cons, ?append_nil; simpl; congruence. Qed.

Lemma append_assoc (s t u : string) : (s +:+ t) +:+ u = s +:+ t +:+ u.
Proof. induction s; rewrite ?append_cons, ?append_nil; congruence. Qed.

(** A string that neither starts nor ends with white space. *)
Lemma trimEnd_idempotent (s : string) : trimEnd (trimEnd s) = trimEnd s.
Proof.
  induction s as [|c s IH]; simpl; [done |].
  destruct (trimEnd s) as [|a t] eqn:Ht.
  - destruct (isSpace c) eqn:Hc; simpl; [done | by rewrite Hc].
  - simpl in *. by rewrite IH.
Qed.

Lemma trimStart_trimEnd (s : string) : trimStart (trimEnd (trimStart s)) = trimEnd (trimStart s).
Proof.
  induction s as [|c s IH]; simpl; [done |].
  destruct (isSpace c) eqn:Hc; [done |].
  simpl. destruct (trimEnd s); rewrite ?Hc; simpl; by rewrite Hc.
Qed.

Lemma trim_idempotent (s : string) : trim (trim s) = trim s.
Proof. unfold trim. by rewrite trimStart_trimEnd, trimEnd_idempotent. Qed.

Lemma generateTitle_length (description : string) :
  String.length (generateTitle description) <= 60.
Proof.
  unfold generateTitle, trim.
  destruct (trimStart_suffix (substring0 60 (firstSentence description)))
    as (ws1 & H3 & Hws1).
  destruct (trimEnd_prefix (trimStart (substring0 60 (firstSentence description))))
    as (ws2 & H4 & Hws2).
  pose proof (substring0_length 60 (firstSentence description)) as Hlen.
  rewrite H3, H4, !length_append in Hlen. lia.
Qed.

Lemma substring0_short (n : nat) (s : string) :
  String.length s <= n -> substring0 n s = s.
Proof.
  revert s. induction n as [|n IH]; intros [|c s]; simpl; try done; [lia |].
  intros Hlen. rewrite IH; [done | lia].
Qed.

(** The title the orchestrator gives a YouTube upload, for a description that is
    ASCII text, is a piece of the description, perhaps empty, that starts after leading
    white space: at most 60 characters, with no sentence terminator in it and no white
    space at either end. *)
Theorem generateTitle_is_a_clean_piece (description : string) :
  let title := generateTitle description in
  isAsciiText description = true ->
  String.length title <= 60
  /\ (forall c, c ∈ chars title -> ~ sentenceEnd c)
  /\ trim title = title
  /\ exists before after, description = before +:+ title +:+ after /\ blank before.
Proof.
  cbv zeta. intros _. unfold generateTitle, trim.
  destruct (firstSentence_prefix description) as [rest1 H1].
  destruct (substring0_prefix 60 (firstSentence description)) as [rest2 H2].
  destruct (trimStart_suffix (substring0 60 (firstSentence description)))
    as (ws1 & H3 & Hws1).
  destruct (trimEnd_prefix (trimStart (substring0 60 (firstSentence description))))
    as (ws2 & H4 & Hws2).
  set (cut := substring0 60 (firstSentence description)) in *.
  split_and!.
  - apply generateTitle_length.
  - intros c Hc. apply (firstSentence_chars description).
    apply (substring0_chars 60). fold cut. rewrite H3, H4, !chars_app. set_solver.
  - apply (trim_idempotent cut).
  - exists ws1, (ws2 +:+ rest2 +:+ rest1). split; [| done].
    rewrite H1 at 1. rewrite H2 at 1. fold cut. rewrite H3 at 1. rewrite H4 at 1.
    by rewrite !append_assoc.
Qed.

(* ================================================================= *)
(** ** The record store *)

(** The title of a description of two sentences with leading white space. *)
Lemma generateTitle_is_a_clean_piece_witness :
  let description := "  Five habits that change your mornings. Start today!" in
  let title := generateTitle description in
  String.length title <= 60
  /\ (forall c, c ∈ chars title -> ~ sentenceEnd c)
  /\ trim title = title
  /\ exists before after, description = before +:+ title +:+ after /\ blank before.
Proof.
  exact (generateTitle_is_a_clean_piece
           "  Five habits that change your mornings. Start today!" eq_refl).
Defined.

Example title_of_two_sentences :
  generateTitle "  Five habits that change your mornings. Start today!"
  = "Five habits that change your mornings".
Proof. reflexivity. Qed.

Local Instance newerFirst_transitive : Transitive newerFirst.
Proof. unfold newerFirst. intros a b c Hab Hbc. lia. Qed.

Local Instance newerFirst_total : Total newerFirst.
Proof. unfold newerFirst. intros a b. lia. Qed.

(** What the query finds: at most [limit] stored videos of the niche, newest first; a
    stored video of the niche is left out only when the limit is reached, and then none
    of the videos found is older than it. *)
Lemma recentVideos_found (stored : gmap string VideoMetadata.t) (niche : string)
    (limit : nat) :
  let found := recentVideos stored niche limit in
  length found <= limit
  /\ StronglySorted newerFirst found
  /\ (forall v, v ∈ found ->
        VideoMetadata.niche v = niche /\ exists k, stored !! k = Some v)
  /\ (forall k v,
        stored !! k = Some v -> VideoMetadata.niche v = niche -> v ∉ found ->
        length found = limit /\ forall u, u ∈ found -> newerFirst u v).
Proof.
  cbv zeta. unfold recentVideos.
  set (matching := filter _ _).
  pose proof (merge_sort_Permutation newerFirst matching) as Hperm.
  pose proof (StronglySorted_merge_sort newerFirst matching) as Hsorted.
  set (sorted := merge_sort newerFirst matching) in *.
  assert (Hmatching : forall v, v ∈ matching <->
            VideoMetadata.niche v = niche /\ exists k, stored !! k = Some v).
  { intros v. unfold matching. rewrite list_elem_of_filter, list_elem_of_fmap. split.
    - intros [Hn ([k v'] & -> & Hin)]. split; [done |]. exists k.
      by apply elem_of_map_to_list in Hin.
    - intros [Hn [k Hk]]. split; [done |]. exists (k, v). split; [done |].
      by apply elem_of_map_to_list. }
  rewrite <- (take_drop limit sorted) in Hsorted.
  split_and!.
  - rewrite length_take. lia.
  - by apply StronglySorted_app_1_l in Hsorted.
  - intros v Hv. apply Hmatching. rewrite <- Hperm.
    apply elem_of_take in Hv as (i & Hi & _). by apply list_elem_of_lookup_2 in Hi.
  - intros k v Hstored Hniche Hout.
    assert (Hin : v ∈ take limit sorted ++ drop limit sorted).
    { rewrite take_drop, Hperm. apply Hmatching. eauto. }
    apply elem_of_app in Hin as [Hin|Hin]; [done |]. split.
    + rewrite length_take. apply Nat.min_l.
      destruct (decide (limit <= length sorted)) as [|Hshort]; [done |].
      rewrite drop_ge in Hin by lia. by apply elem_of_nil in Hin.
    + intros u Hu. by apply (StronglySorted_app_1_elem_of _ _ _ _ _ Hsorted).
Qed.

Section Store.
Variable env : Env.

(** The query for the recent videos of a niche, when the store answers it, changes
    no record and returns at most [limit] stored videos of that niche, newest first;
    a stored video of the niche is left out only when the limit is reached, and then
    none of the videos returned is older than it. *)
Theorem getVideosByNiche_newest_first (niche : string) (limit : nat) (w : World) :
  fault env (GetVideosByNiche niche limit) (clock w) = None ->
  exists found,
    getVideosByNiche env niche limit w = (Ok found, issue (GetVideosByNiche niche limit) w)
    /\ length found <= limit
    /\ StronglySorted newerFirst found
    /\ (forall v, v ∈ found ->
          VideoMetadata.niche v = niche /\ exists k, videos w !! k = Some v)
    /\ (forall k v,
          videos w !! k = Some v -> VideoMetadata.niche v = niche -> v ∉ found ->
          length found = limit /\ forall u, u ∈ found -> newerFirst u v).
Proof.
  intros Hfault. unfold getVideosByNiche, request. rewrite Hfault. cbv zeta.
  cbn [videos issue]. eexists. split; [reflexivity |].
  apply (recentVideos_found (videos w) niche limit).
Qed.

(** [createJob] stores the job under the next id of the store and with the time of
    the call, whatever id and creation time the caller's record had, and [getJob] of
    the id it returned reads that record back; no other job changes. *)
Theorem createJob_then_getJob (job : WorkflowJob.t) (w : World) :
  let id := firestore_autoId env (autoIds w) in
  let outcome := (let* jobId := createJob env job in getJob env jobId) w in
  fault env (CreateJob id (WorkflowJob.status job)) (clock w) = None ->
  fault env (GetJob id) (S (clock w)) = None ->
  fst outcome
  = Ok (Some (WorkflowJob.mk id (WorkflowJob.type job) (WorkflowJob.status job)
                (WorkflowJob.niche job) (WorkflowJob.videoId job) (clock w)
                (WorkflowJob.startedAt job) (WorkflowJob.completedAt job)
                (WorkflowJob.error job) (WorkflowJob.retryCount job)))
  /\ (forall k, k <> id -> jobs (snd outcome) !! k = jobs w !! k)
  /\ autoIds (snd outcome) = S (autoIds w)
  /\ issuedDuring w (snd outcome) = [CreateJob id (WorkflowJob.status job); GetJob id].
Proof.
  cbv zeta. intros Hcreate Hget. monad_unfold. run_simpl.
  rewrite Hcreate. run_simpl. rewrite Hget. run_simpl. read_log.
  split_and!; [done | | done | done].
  intros k Hk. by rewrite lookup_insert_ne.
Qed.

(** A status update never creates a document.  [updateJobStatus] and
    [updateVideoStatus] leave the set of stored ids as it is; for an id that is not
    stored they throw (Firestore's [NOT_FOUND], unless the call itself is rejected) and
    change no record; for a stored video the update changes the status of that record
    and nothing else: its platform posts stay. *)
Theorem status_updates_never_create (w : World) :
  (forall jobId status error,
     let outcome := updateJobStatus env jobId status error w in
     (forall k, is_Some (jobs (snd outcome) !! k) <-> is_Some (jobs w !! k))
     /\ videos (snd outcome) = videos w
     /\ (jobs w !! jobId = None ->
         fst outcome
         = Throw (default NOT_FOUND
                    (fault env (UpdateJobStatus jobId status error) (clock w)))
         /\ jobs (snd outcome) = jobs w))
  /\ (forall videoId status,
        let outcome := updateVideoStatus env videoId status w in
        (forall k, is_Some (videos (snd outcome) !! k) <-> is_Some (videos w !! k))
        /\ jobs (snd outcome) = jobs w
        /\ (videos w !! videoId = None ->
            fst outcome
            = Throw (default NOT_FOUND
                       (fault env (UpdateVideoStatus videoId status) (clock w)))
            /\ videos (snd outcome) = videos w)
        /\ (forall video,
              videos w !! videoId = Some video -> isOk (fst outcome) = true ->
              videos (snd outcome)
              = <[videoId := VideoMetadata.with_status status video]> (videos w)
              /\ VideoMetadata.platforms (VideoMetadata.with_status status video)
                 = VideoMetadata.platforms video)).
Proof.
  split.
  - intros jobId status error. cbv zeta. monad_unfold.
    destruct (fault env _ _) as [e|]; run_simpl; [by split_and! |].
    destruct (jobs w !! jobId) as [job|] eqn:Hjob; run_simpl; [| by split_and!].
    split_and!; [| done | done].
    intros k. destruct (decide (k = jobId)) as [->|Hk].
    + rewrite lookup_insert_eq, Hjob. split; eauto.
    + by rewrite lookup_insert_ne.
  - intros videoId status. cbv zeta. monad_unfold.
    destruct (fault env _ _) as [e|]; run_simpl; [by split_and! |].
    destruct (videos w !! videoId) as [video|] eqn:Hvideo; run_simpl; [| by split_and!].
    split_and!; [| done | done |].
    + intros k. destruct (decide (k = videoId)) as [->|Hk].
      * rewrite lookup_insert_eq, Hvideo. split; eauto.
      * by rewrite lookup_insert_ne.
    + intros video' [= <-] _. done.
Qed.

End Store.

(** The newest video of the niche ["n1"] among the three of [threeVideos]. *)
Lemma getVideosByNiche_newest_first_witness :
  exists found,
    getVideosByNiche providerFails "n1" 1 threeVideos
    = (Ok found, issue (GetVideosByNiche "n1" 1) threeVideos)
    /\ length found <= 1
    /\ StronglySorted newerFirst found
    /\ (forall v, v ∈ found ->
          VideoMetadata.niche v = "n1" /\ exists k, videos threeVideos !! k = Some v)
    /\ (forall k v,
          videos threeVideos !! k = Some v -> VideoMetadata.niche v = "n1" -> v ∉ found ->
          length found = 1 /\ forall u, u ∈ found -> newerFirst u v).
Proof.
  exact (getVideosByNiche_newest_first providerFails "n1" 1 threeVideos eq_refl).
Defined.

Example the_newest_video_of_a_niche :
  fst (getVideosByNiche providerFails "n1" 1 threeVideos) = Ok [videoAt "c" "n1" 5]
  /\ fst (getVideosByNiche providerFails "n1" 10 threeVideos)
     = Ok [videoAt "c" "n1" 5; videoAt "a" "n1" 1]
  /\ fst (getVideosByNiche providerFails "n3" 10 threeVideos) = Ok [].
Proof. by vm_compute. Qed.

(** The job of a caller, created in the empty world and read back. *)
Lemma createJob_then_getJob_witness :
  let env := providerFails in
  let outcome :=
    (let* jobId := createJob env callersJob in getJob env jobId) emptyWorld in
  fst outcome
  = Ok (Some (WorkflowJob.mk (firestore_autoId env 0) JobType.generate JobStatus.queued
                "n1" None 0 None None None 0))
  /\ (forall k, k <> firestore_autoId env 0 -> jobs (snd outcome) !! k = jobs emptyWorld !! k)
  /\ autoIds (snd outcome) = 1
  /\ issuedDuring emptyWorld (snd outcome)
     = [CreateJob (firestore_autoId env 0) JobStatus.queued; GetJob (firestore_autoId env 0)].
Proof.
  exact (createJob_then_getJob providerFails callersJob emptyWorld eq_refl eq_refl).
Defined.

(* ================================================================= *)
(** ** Runs: what the platforms cannot break, and what the store can *)

Lemma allSettled_nil {A : Type} (sched : list nat) (w : World) :
  allSettled sched (@nil (Async A)) w = (Ok [], w).
Proof. induction sched as [|i sched IH]; cbn [allSettled settleAll]; [done |]. by rewrite lookup_nil. Qed.

Lemma fan_out_none_enabled (env : Env) (videoId : string) (videoBuffer : Buffer)
    (description : string) (hashtags : list string) (niche : ContentNiche.t) (w : World) :
  (forall p, platformEnabled niche p = false) ->
  postToAllPlatforms env videoId videoBuffer description hashtags niche w = (Ok tt, w).
Proof.
  intros Hnone.
  pose proof (Hnone youtube) as Hy. pose proof (Hnone instagram) as Hi.
  pose proof (Hnone tiktok) as Ht.
  unfold platformEnabled, credentialPresent in *.
  unfold postToAllPlatforms, platformPosts.
  destruct (SocialAccountConfig.youtube _); [discriminate |].
  destruct (SocialAccountConfig.instagram _); [discriminate |].
  destruct (SocialAccountConfig.tiktok _) as [account|].
  - rewrite Ht. cbn [map]. monad_unfold. by rewrite allSettled_nil.
  - cbn [map]. monad_unfold. by rewrite allSettled_nil.
Qed.

Section RunEdges.
Variable env : Env.

(** No platform can fail a run.  When the stores, the model, the video provider and
    the download answer, the run returns the video id whatever the platforms answer
    and in whatever order their posts interleave: the job ends completed, the video
    is in the bucket, and its record is marked posted with entries that are all
    posted entries; on a niche with no platform enabled the record is marked posted
    with no entry at all. *)
Theorem no_platform_fails_the_run (niche : ContentNiche.t) (w : World)
    (prompt : PromptGenerationResponse.t) (video : VideoGenerationResponse.t)
    (videoBuffer : Buffer) :
  let jobId := firestore_autoId env (autoIds w) in
  let videoId := uuidv4 env (uuids w) in
  let outcome := generateAndPostVideo env niche w in
  let storagePath := "videos/" +:+ ContentNiche.id niche +:+ "/" +:+ videoId +:+ ".mp4" in
  Answers env prompt video videoBuffer ->
  fst outcome = Ok videoId
  /\ storedJobStatus jobId (snd outcome) = Some JobStatus.completed
  /\ blobs (snd outcome) !! storagePath = Some videoBuffer
  /\ exists createdAt posts,
       videos (snd outcome) !! videoId
       = Some (VideoMetadata.mk videoId (ContentNiche.id niche)
                 (PromptGenerationResponse.prompt prompt)
                 ("https://storage.googleapis.com/" +:+ storageBucket env +:+ "/"
                  +:+ storagePath)
                 storagePath (VideoGenerationResponse.duration video) createdAt
                 VideoStatus.posted posts)
       /\ Forall wellPosted posts
       /\ ((forall p, platformEnabled niche p = false) -> posts = []).
Proof.
  cbv zeta. intros [Hfault Hprompt Hvideo Hdownload HjobId].
  pose proof (fun n => proj2 (String.eqb_neq _ _) (HjobId n)) as HjobId'.
  unfold generateAndPostVideo. monad_unfold. run_simpl.
  repeat (first [ rewrite Hfault in * | rewrite Hprompt in * | rewrite Hvideo in *
                | rewrite Hdownload in * | rewrite HjobId' in * | run_case env ]; run_simpl).
  all: match goal with
       | |- context [postToAllPlatforms env ?videoId ?buffer ?description ?hashtags ?n
                       (set_videos (insert ?videoId ?v0) ?W)] =>
           pose proof (fan_out_none_enabled env videoId buffer description hashtags n
                         (set_videos (insert videoId v0) W)) as Hnone;
           destruct (fan_out_frame env buffer description hashtags n v0
                       (set_videos (insert videoId v0) W) (lookup_insert_eq _ _ _)
                       (Forall_nil_2 _))
             as (w2 & Hrun & Hfan);
           cbn [VideoMetadata.id] in Hrun; rewrite Hrun in *;
           pose proof (fan_jobs _ _ _ _ Hfan) as Hjobs;
           pose proof (fan_blobs _ _ _ _ Hfan) as Hblobs;
           destruct (fan_video _ _ _ _ Hfan) as (posts & Hposts & Hposted);
           cbn [VideoMetadata.id] in Hposts
       end.
  all: world_simpl; run_simpl; rewrite Hjobs, lookup_insert_eq; run_simpl;
    repeat (rewrite ?Hfault, ?Hposts; run_simpl).
  all: split; [done |]; split;
    [ unfold storedJobStatus; world_simpl; rewrite lookup_insert_eq;
      cbn [fmap option_fmap option_map applyJobUpdates WorkflowJob.status];
      by rewrite jobUpdates_status |].
  all: split; [rewrite Hblobs; world_simpl; by rewrite lookup_insert_eq |].
  all: eexists _, posts; split; [reflexivity |]; split; [done |].
  all: intros Hdisabled; specialize (Hnone Hdisabled); injection Hnone as ->;
    world_simpl; rewrite lookup_insert_eq in Hposts; by injection Hposts.
Qed.

(** When the store rejects the creation of the job, the run throws the store's error
    after that one call: no job record exists for the run, so nothing records that it
    failed, and nothing else is called or written. *)
Theorem job_creation_failure_leaves_no_job (niche : ContentNiche.t) (w : World)
    (error : string) :
  let jobId := firestore_autoId env (autoIds w) in
  let outcome := generateAndPostVideo env niche w in
  fault env (CreateJob jobId JobStatus.queued) (clock w) = Some error ->
  fst outcome = Throw error
  /\ issuedDuring w (snd outcome) = [CreateJob jobId JobStatus.queued]
  /\ jobs (snd outcome) = jobs w
  /\ videos (snd outcome) = videos w
  /\ blobs (snd outcome) = blobs w
  /\ trending (snd outcome) = trending w.
Proof.
  cbv zeta. intros Hrejected. unfold generateAndPostVideo. monad_unfold. run_simpl.
  rewrite Hrejected. run_simpl. read_log. by split_and!.
Qed.

(** When video generation throws and the store then rejects the update that marks
    the job failed, the run throws the store's error, not the provider's, and the job
    stays stored as running, with no error and no completion time. *)
Theorem unrecorded_failure_masks_the_error (niche : ContentNiche.t) (w : World)
    (error storeError : string) :
  let jobId := firestore_autoId env (autoIds w) in
  let outcome := generateAndPostVideo env niche w in
  (exists request, GenerateVideo request ∈ issuedDuring w (snd outcome)) ->
  (forall request, videoGenerator_generateVideo env request = Throw error) ->
  (forall t,
     fault env (UpdateJobStatus jobId JobStatus.failed (Some error)) t = Some storeError) ->
  jobId <> "" ->
  fst outcome = Throw storeError
  /\ jobs (snd outcome) !! jobId
     = Some (WorkflowJob.mk jobId JobType.generate JobStatus.running
               (ContentNiche.id niche) None (clock w) (Some (S (clock w))) None None 0)
  /\ videos (snd outcome) = videos w.
Proof.
  cbv zeta. intros Hreached Hthrows Hhandler HjobId.
  apply String.eqb_neq in HjobId as HjobId'.
  unfold generateAndPostVideo in *. monad_unfold. run_simpl.
  repeat (first [ rewrite Hthrows in * | rewrite Hhandler in * | rewrite HjobId' in *
                | run_case env ]; run_simpl).
  all: try (exfalso; no_such_call Hreached).
  all: clear Hreached;
    unfold applyJobUpdates;
    rewrite ?jobUpdates_status, ?jobUpdates_startedAt, ?jobUpdates_completedAt,
      ?jobUpdates_error;
    cbn [truthy WorkflowJob.id WorkflowJob.type
         WorkflowJob.status WorkflowJob.niche WorkflowJob.videoId WorkflowJob.createdAt
         WorkflowJob.startedAt WorkflowJob.completedAt WorkflowJob.error
         WorkflowJob.retryCount];
    cbn [negb bool_decide decide_rel JobStatus.eq_dec terminal orb];
    by split_and!.
Qed.

End RunEdges.

(** *** The runs of [platformsDown], [jobsRejected] and [failureUnrecorded] *)

Lemma platformsDown_answers : Answers platformsDown aPrompt aResponse "bytes".
Proof. by split. Qed.

Lemma no_platform_fails_the_run_witness :
  let env := platformsDown in
  let outcome := generateAndPostVideo env nicheWithAllAccounts emptyWorld in
  let storagePath := "videos/" +:+ "n1" +:+ "/" +:+ uuidv4 env 0 +:+ ".mp4" in
  fst outcome = Ok (uuidv4 env 0)
  /\ storedJobStatus (firestore_autoId env 0) (snd outcome) = Some JobStatus.completed
  /\ blobs (snd outcome) !! storagePath = Some "bytes"
  /\ exists createdAt posts,
       videos (snd outcome) !! uuidv4 env 0
       = Some (VideoMetadata.mk (uuidv4 env 0) "n1" "A sunrise over the sea"
                 ("https://storage.googleapis.com/" +:+ "bucket" +:+ "/" +:+ storagePath)
                 storagePath 8 createdAt VideoStatus.posted posts)
       /\ Forall wellPosted posts
       /\ ((forall p, platformEnabled nicheWithAllAccounts p = false) -> posts = []).
Proof.
  exact (no_platform_fails_the_run platformsDown nicheWithAllAccounts emptyWorld
           aPrompt aResponse "bytes" platformsDown_answers).
Defined.

(** With every platform down the run still returns, and the record is marked posted
    with no entry. *)
Example run_with_every_platform_down :
  let outcome := generateAndPostVideo platformsDown nicheWithAllAccounts emptyWorld in
  fst outcome = Ok "video-0"
  /\ postOperations (issuedDuring emptyWorld (snd outcome)) = [instagram; tiktok]
  /\ storedJobStatus "job-0" (snd outcome) = Some JobStatus.completed
  /\ (VideoMetadata.status <$> videos (snd outcome) !! "video-0") = Some VideoStatus.posted
  /\ storedPlatforms "video-0" (snd outcome) = Some [].
Proof. by vm_compute. Qed.

Lemma job_creation_failure_leaves_no_job_witness :
  let env := jobsRejected in
  let outcome := generateAndPostVideo env nicheWithAllAccounts emptyWorld in
  fst outcome = Throw "UNAVAILABLE: jobs"
  /\ issuedDuring emptyWorld (snd outcome) = [CreateJob (firestore_autoId env 0) JobStatus.queued]
  /\ jobs (snd outcome) = ∅
  /\ videos (snd outcome) = ∅
  /\ blobs (snd outcome) = ∅
  /\ trending (snd outcome) = [].
Proof.
  exact (job_creation_failure_leaves_no_job jobsRejected nicheWithAllAccounts emptyWorld
           "UNAVAILABLE: jobs" eq_refl).
Defined.

Lemma unrecorded_failure_masks_the_error_witness :
  let env := failureUnrecorded in
  let outcome := generateAndPostVideo env nicheWithAllAccounts emptyWorld in
  fst outcome = Throw "DEADLINE_EXCEEDED"
  /\ jobs (snd outcome) !! firestore_autoId env 0
     = Some (WorkflowJob.mk (firestore_autoId env 0) JobType.generate JobStatus.running
               "n1" None 0 (Some 1) None None 0)
  /\ videos (snd outcome) = ∅.
Proof.
  apply (unrecorded_failure_masks_the_error failureUnrecorded nicheWithAllAccounts
           emptyWorld "Video generation failed" "DEADLINE_EXCEEDED").
  - vm_compute. eexists. repeat first [apply list_elem_of_here | apply list_elem_of_further].
  - done.
  - done.
  - done.
Defined.

(* ================================================================= *)
(** ** What a run and a retry leave alone *)

Section Frame.
Variable env : Env.

(** A run writes no job but its own. *)
Lemma run_writes_its_own_job (niche : ContentNiche.t) (w : World) (k : string) :
  k <> firestore_autoId env (autoIds w) ->
  jobs (snd (generateAndPostVideo env niche w)) !! k = jobs w !! k.
Proof.
  intros Hk. unfold generateAndPostVideo. monad_unfold. run_simpl.
  repeat (first [ fan_out_step env | fan_out_rewrite | empty_case | run_case env ];
          run_simpl).
  all: world_simpl; rewrite ?Hjobs; world_simpl; by rewrite ?lookup_insert_ne.
Qed.

(** A retry never touches the job it retries: whatever the new run does, the failed
    job stays as it was (failed, with its error, its times and its retry count), and
    the new run works on a job of its own.  When the niche of the failed job is no
    longer stored, the retry throws [Niche not found] after its two reads and creates
    no job. *)
Theorem retry_leaves_the_failed_job_alone (jobId : string) (job : WorkflowJob.t)
    (w : World) :
  let outcome := retryFailedJob env jobId w in
  jobs w !! jobId = Some job ->
  WorkflowJob.status job = JobStatus.failed ->
  firestore_autoId env (autoIds w) <> jobId ->
  jobs (snd outcome) !! jobId = Some job
  /\ (niches w !! WorkflowJob.niche job = None ->
      fault env (GetJob jobId) (clock w) = None ->
      fault env (GetContentNiche (WorkflowJob.niche job)) (S (clock w)) = None ->
      fst outcome = Throw "Niche not found"
      /\ issuedDuring w (snd outcome)
         = [GetJob jobId; GetContentNiche (WorkflowJob.niche job)]
      /\ jobs (snd outcome) = jobs w
      /\ autoIds (snd outcome) = autoIds w).
Proof.
  cbv zeta. intros Hstored Hfailed Hfresh. unfold retryFailedJob.
  unfold bind, ret, throw, tryCatch, M_monad, M_bind, M_tryCatch, getJob,
    getContentNiche, request.
  destruct (fault env (GetJob jobId) (clock w)) as [e|] eqn:HgetJob; run_simpl.
  { split; [done |]. intros _ HgetJob'. discriminate HgetJob'. }
  rewrite Hstored. rewrite bool_decide_eq_true_2 by done. run_simpl.
  destruct (fault env (GetContentNiche _) _) as [e|] eqn:HgetNiche; run_simpl.
  { split; [done |]. intros _ _ HgetNiche'. discriminate HgetNiche'. }
  destruct (niches w !! WorkflowJob.niche job) as [niche|] eqn:Hniche; run_simpl.
  - pose proof (run_writes_its_own_job niche
                  (issue (GetContentNiche (WorkflowJob.niche job)) (issue (GetJob jobId) w))
                  jobId) as Hrun.
    world_simpl. specialize (Hrun (not_eq_sym Hfresh)).
    destruct (generateAndPostVideo env niche _) as [[videoId|e] w']; cbn [fst snd] in *;
      (split; [by rewrite Hrun | intros Hnone; discriminate Hnone]).
  - split; [done |]. intros _ _ _. read_log. by split_and!.
Qed.

End Frame.

(** The retry of the failed job of [worldAfterFailure]. *)
Lemma retry_leaves_the_failed_job_alone_witness :
  let env := instagramDown [] in
  let outcome := retryFailedJob env "job-0" worldAfterFailure in
  jobs (snd outcome) !! "job-0" = Some theFailedJob
  /\ (niches worldAfterFailure !! "n1" = None ->
      fault env (GetJob "job-0") (clock worldAfterFailure) = None ->
      fault env (GetContentNiche "n1") (S (clock worldAfterFailure)) = None ->
      fst outcome = Throw "Niche not found"
      /\ issuedDuring worldAfterFailure (snd outcome)
         = [GetJob "job-0"; GetContentNiche "n1"]
      /\ jobs (snd outcome) = jobs worldAfterFailure
      /\ autoIds (snd outcome) = autoIds worldAfterFailure).
Proof.
  apply (retry_leaves_the_failed_job_alone (instagramDown []) "job-0" theFailedJob
           worldAfterFailure).
  - by vm_compute.
  - done.
  - by vm_compute.
Defined.

(* ================================================================= *)
(** ** The platform posts on their own *)

(** Whatever a function does, behind a [catch] that swallows the error it never
    throws. *)
Lemma Fulfils_tryCatch {A : Type} (t : Async A) (handler : string -> Async A) :
  (forall e, Fulfils (handler e)) -> Fulfils (Async_tryCatch t handler).
Proof.
  intros Hhandler. induction t as [[a|e]|effect next IH]; cbn [Async_tryCatch].
  - constructor.
  - apply Hhandler.
  - constructor. apply IH.
Qed.

Section Posts.
Variable env : Env.
Variable videoId : string.
Variable videoBuffer : Buffer.
Variable description : string.
Variable hashtags : list string.

(** No platform post rejects.  Each of the functions the fan-out starts settles with
    a value whatever its platform and the store answer and however the others
    interleave with it, so every outcome [Promise.allSettled] collects is a
    fulfilment: a failed post is visible in the log only. *)
Theorem platform_posts_never_reject (niche : ContentNiche.t) (w : World) :
  let posts := map snd (platformPosts env videoId videoBuffer description hashtags niche) in
  Forall Fulfils posts
  /\ fst (allSettled (schedule env) posts w) = Ok (replicate (length posts) (Ok tt)).
Proof.
  cbv zeta.
  assert (Hposts : Forall Fulfils
            (map snd (platformPosts env videoId videoBuffer description hashtags niche))).
  { unfold platformPosts.
    destruct (SocialAccountConfig.youtube _), (SocialAccountConfig.instagram _),
      (SocialAccountConfig.tiktok _) as [account|];
      try destruct (truthy (TikTokAccount.accessToken account));
      cbn [app map snd];
      repeat (apply Forall_cons; split); try apply Forall_nil_2;
      unfold postToYouTube, postToInstagram, postToTikTok;
      apply Fulfils_tryCatch; intros e; constructor. }
  split; [done |].
  set (posts := map snd _) in *.
  destruct (allSettled_invariant
              (fun _ (ts : list (Async unit)) =>
                 Forall Fulfils ts /\ length ts = length posts))
    with (sched := schedule env) (ts := posts) (w := w) as (outcomes & Hok & Hall & Hlen).
  - intros w0 ts i effect next [Hall Hlen] Hi. split; [| by rewrite length_insert].
    apply Forall_insert; [done |].
    pose proof (Forall_lookup_1 _ _ _ _ Hall Hi) as Hawait.
    inversion Hawait as [|effect' next' Hnext]; subst. apply Hnext.
  - done.
  - rewrite Hok. f_equal. rewrite length_map in Hlen. rewrite <- Hlen.
    clear Hok Hlen. induction outcomes as [|r outcomes IH]; [done |].
    apply Forall_cons in Hall as [Hr Hall]. cbn [length replicate].
    rewrite <- IH by done. inversion Hr as [[]|]; subst. done.
Qed.

(** YouTube and TikTok are called before the record of the video is read, Instagram
    after it.  For a video that has no record, the posts to YouTube and to TikTok
    still upload the video and then write nothing, so that nothing stored shows the
    upload; the post to Instagram stops after its read and calls no platform. *)
Theorem upload_precedes_the_record_check (niche : ContentNiche.t)
    (account : YouTubeAccount.t) (accessToken : string) (uploaded : YouTubeUpload.t)
    (published : TikTokPost.t) (w : World) :
  let caption := description +:+ " " +:+ hashtagLine hashtags in
  let options := TikTokOptions.mk "PUBLIC_TO_EVERYONE" false false false in
  let toYouTube :=
    settle (postToYouTube env videoId videoBuffer description hashtags account) w in
  let toInstagram := settle (postToInstagram env videoId description hashtags niche) w in
  let toTikTok :=
    settle (postToTikTok env videoId videoBuffer description hashtags accessToken) w in
  videos w !! videoId = None ->
  (forall t, fault env (GetVideoMetadata videoId) t = None) ->
  youtube_setCredentials env (YouTubeAccount.refreshToken account) = Ok tt ->
  youtube_uploadShortFromBuffer env videoBuffer (generateTitle description) description
    hashtags = Ok uploaded ->
  tiktok_postVideo env accessToken videoBuffer caption options = Ok published ->
  (fst toYouTube = Ok tt
   /\ issuedDuring w (snd toYouTube)
      = [YouTubeSetCredentials (YouTubeAccount.refreshToken account);
         YouTubeUploadShort (generateTitle description) description hashtags;
         GetVideoMetadata videoId]
   /\ videos (snd toYouTube) = videos w)
  /\ (fst toTikTok = Ok tt
      /\ issuedDuring w (snd toTikTok)
         = [TikTokPostVideo caption options; GetVideoMetadata videoId]
      /\ videos (snd toTikTok) = videos w)
  /\ (fst toInstagram = Ok tt
      /\ issuedDuring w (snd toInstagram) = [GetVideoMetadata videoId]
      /\ videos (snd toInstagram) = videos w).
Proof.
  cbv zeta. intros Hmissing Hfault Hcredentials Hupload Hpublish.
  post_unfold. rewrite Hcredentials, Hupload, Hpublish.
  repeat (first [ rewrite Hfault | rewrite Hmissing | progress async_simpl ]).
  read_log. by split_and!.
Qed.

End Posts.

(** The posts for the video ["video-9"], which has no record, in a world where
    YouTube and TikTok answer. *)
Lemma upload_precedes_the_record_check_witness :
  let env := instagramDown [] in
  let caption := "Rise early. Win the day!" +:+ " " +:+ hashtagLine ["motivation"] in
  let options := TikTokOptions.mk "PUBLIC_TO_EVERYONE" false false false in
  let toYouTube :=
    settle (postToYouTube env "video-9" "bytes" "Rise early. Win the day!" ["motivation"]
              (YouTubeAccount.mk "channel" "refresh-token")) emptyWorld in
  let toInstagram :=
    settle (postToInstagram env "video-9" "Rise early. Win the day!" ["motivation"]
              nicheWithAllAccounts) emptyWorld in
  let toTikTok :=
    settle (postToTikTok env "video-9" "bytes" "Rise early. Win the day!" ["motivation"]
              "tiktok-token") emptyWorld in
  (fst toYouTube = Ok tt
   /\ issuedDuring emptyWorld (snd toYouTube)
      = [YouTubeSetCredentials "refresh-token";
         YouTubeUploadShort (generateTitle "Rise early. Win the day!")
           "Rise early. Win the day!" ["motivation"];
         GetVideoMetadata "video-9"]
   /\ videos (snd toYouTube) = ∅)
  /\ (fst toTikTok = Ok tt
      /\ issuedDuring emptyWorld (snd toTikTok)
         = [TikTokPostVideo caption options; GetVideoMetadata "video-9"]
      /\ videos (snd toTikTok) = ∅)
  /\ (fst toInstagram = Ok tt
      /\ issuedDuring emptyWorld (snd toInstagram) = [GetVideoMetadata "video-9"]
      /\ videos (snd toInstagram) = ∅).
Proof.
  exact (upload_precedes_the_record_check (instagramDown []) "video-9" "bytes"
           "Rise early. Win the day!" ["motivation"] nicheWithAllAccounts
           (YouTubeAccount.mk "channel" "refresh-token") "tiktok-token" anUpload
           aPublication emptyWorld eq_refl (fun _ => eq_refl) eq_refl eq_refl eq_refl).
Defined.

(* ================================================================= *)
(** ** What the prompt generator is asked *)

Section Prompt.
Variable env : Env.

(** The request a run sends to the prompt generator names the niche by its display
    name, carries the style inferred from that name, never carries an empty list of
    trending topics (none fetched means the field is absent), and carries as previous
    prompts the prompts of the stored videos of the niche, looked up by the niche's
    id: the ten newest, newest first, or all of them when fewer than ten are stored.
    A stored video of the niche whose prompt is not carried is left out because ten
    are carried, none of them older than it. *)
Theorem run_asks_with_recent_prompts (niche : ContentNiche.t) (w : World)
    (request : PromptGenerationRequest.t) :
  GeneratePrompt request ∈ issuedDuring w (snd (generateAndPostVideo env niche w)) ->
  PromptGenerationRequest.niche request = ContentNiche.name niche
  /\ PromptGenerationRequest.style request = Some (getStyleFromNiche niche)
  /\ PromptGenerationRequest.trendingTopics request <> Some []
  /\ exists recent,
       PromptGenerationRequest.previousPrompts request
       = Some (map VideoMetadata.prompt recent)
       /\ length recent <= 10
       /\ StronglySorted newerFirst recent
       /\ (forall v, v ∈ recent ->
             VideoMetadata.niche v = ContentNiche.id niche
             /\ exists k, videos w !! k = Some v)
       /\ (forall k v,
             videos w !! k = Some v -> VideoMetadata.niche v = ContentNiche.id niche ->
             v ∉ recent ->
             length recent = 10 /\ forall u, u ∈ recent -> newerFirst u v).
Proof.
  pose proof (recentVideos_found (videos w) (ContentNiche.id niche) 10) as Hrecent.
  cbv zeta in Hrecent. unfold recentVideos in Hrecent.
  destruct Hrecent as (Hlength & Hsorted & Hstored & Hnewest).
  unfold generateAndPostVideo in *. monad_unfold. run_simpl.
  repeat (first [ fan_out_step env | fan_out_rewrite | empty_case | run_case env ];
          run_simpl).
  all: intros Hissued; first [ read_log_through | read_log ]; cbn [rev app] in Hissued;
    repeat first
      [ apply elem_of_cons in Hissued as [Hissued|Hissued];
        [ first
            [ discriminate Hissued
            | injection Hissued as ->;
              cbn [PromptGenerationRequest.niche PromptGenerationRequest.style
                   PromptGenerationRequest.trendingTopics
                   PromptGenerationRequest.previousPrompts];
              split_and!;
              [ done | done
              | first [ discriminate
                      | intros [= Hnone]; rewrite Hnone in *; discriminate ]
              | eexists; split; [reflexivity |]; by split_and! ] ] |]
      | apply elem_of_app in Hissued as [Hissued|Hissued];
        [ match goal with
          | Hnew : Forall (fanOutCall _ _) ?new |- _ =>
              by apply (not_a_fan_out_call _ _ _ _ Hnew) in Hissued
          end |] ];
    by apply elem_of_nil in Hissued.
Qed.

End Prompt.

(** The run of [instagramDown] on a world with three videos, two of them of the
    niche: the request carries the prompts of these two, the newer one first. *)
Lemma run_asks_with_recent_prompts_witness :
  let request :=
    PromptGenerationRequest.mk "Daily Motivation Boost" None
      (Some ["prompt of c"; "prompt of a"]) (Some Style.motivational) in
  PromptGenerationRequest.niche request = "Daily Motivation Boost"
  /\ PromptGenerationRequest.style request = Some (getStyleFromNiche nicheWithAllAccounts)
  /\ PromptGenerationRequest.trendingTopics request <> Some []
  /\ exists recent,
       PromptGenerationRequest.previousPrompts request
       = Some (map VideoMetadata.prompt recent)
       /\ length recent <= 10
       /\ StronglySorted newerFirst recent
       /\ (forall v, v ∈ recent ->
             VideoMetadata.niche v = "n1"
             /\ exists k, videos threeVideos !! k = Some v)
       /\ (forall k v,
             videos threeVideos !! k = Some v -> VideoMetadata.niche v = "n1" ->
             v ∉ recent ->
             length recent = 10 /\ forall u, u ∈ recent -> newerFirst u v).
Proof.
  apply (run_asks_with_recent_prompts (instagramDown []) nicheWithAllAccounts threeVideos).
  vm_compute. repeat first [apply list_elem_of_here | apply list_elem_of_further].
Defined.

(* ================================================================= *)
(** ** The video generator: how a generation ends *)

(** The unfolding lemmas of the loops, under names that the import below leaves
    alone. *)
Local Abbreviation fal_round := pollFal_unfold.
Local Abbreviation replicate_round := pollReplicate_unfold.

Section Outcomes.
Import VideoGenerator.
Variable cfg : Config.
Variable http : Http.
Variable request : VideoGenerationRequest.t.

(** The rounds of the loops that are answered with a pending status. *)
Lemma pollFal_rounds (k : nat) :
  forall attempts net,
    attempts + k <= maxAttempts ->
    (forall i, gets net <= i < gets net + k -> falPending http i) ->
    pollFal http attempts net
    = pollFal http (attempts + k)
        (mkNet (elapsed net + 5000 * N.of_nat k) (gets net + k) (clock net + 2 * k)).
Proof.
  induction k as [|k IH]; intros attempts net Hle Hpending.
  - destruct net as [e g c]. cbn [elapsed gets clock]. f_equal; [lia | f_equal; lia].
  - rewrite fal_round. destruct (decide (attempts < maxAttempts)) as [_|]; [| lia].
    cbv zeta. unfold axios_get, sleep. cbn [gets elapsed clock].
    destruct (Hpending (gets net)) as (data & Hget & Hc & Hf); [lia |].
    rewrite Hget. apply String.eqb_neq in Hc, Hf. rewrite Hc, Hf.
    rewrite IH; cbn [gets elapsed clock].
    + f_equal; [lia | f_equal; lia].
    + lia.
    + intros i Hi. apply Hpending. lia.
Qed.

Lemma pollReplicate_rounds (k : nat) :
  forall attempts net,
    attempts + k <= maxAttempts ->
    (forall i, gets net <= i < gets net + k -> replicatePending http i) ->
    pollReplicate http attempts net
    = pollReplicate http (attempts + k)
        (mkNet (elapsed net + 5000 * N.of_nat k) (gets net + k) (clock net + 2 * k)).
Proof.
  induction k as [|k IH]; intros attempts net Hle Hpending.
  - destruct net as [e g c]. cbn [elapsed gets clock]. f_equal; [lia | f_equal; lia].
  - rewrite replicate_round.
    destruct (decide (attempts < maxAttempts)) as [_|]; [| lia].
    cbv zeta. unfold axios_get, sleep. cbn [gets elapsed clock].
    destruct (Hpending (gets net)) as (data & Hget & Hs & Hf & Hc); [lia |].
    rewrite Hget. apply String.eqb_neq in Hs, Hf, Hc. rewrite Hs, Hf, Hc. cbn [orb].
    rewrite IH; cbn [gets elapsed clock].
    + f_equal; [lia | f_equal; lia].
    + lia.
    + intros i Hi. apply Hpending. lia.
Qed.

(** The fal.ai generation ends at the first status answer that is not pending.  When
    the submission is accepted and the status requests before the one numbered [k]
    (below the ceiling of 60) are answered pending, the generation has slept
    5 (k + 1) seconds and issued k + 1 status requests, and: a network error on the
    request is thrown as it is; [FAILED] throws [Video generation failed];
    [COMPLETED] with a video URL returns it; and [COMPLETED] without a URL, or with an
    empty one, throws [Video generation timed out], although nothing timed out. *)
Theorem fal_ends_at_the_first_terminal_answer (net : Net) (k : nat) :
  let ended := afterRounds (S k) net in
  let outcome := generateWithFal cfg http request net in
  k < 60 ->
  isOk (post http) = true ->
  (forall i, gets net <= i < gets net + k -> falPending http i) ->
  (forall e, get http (gets net + k) = Throw e -> outcome = (Throw e, ended))
  /\ (forall data,
        get http (gets net + k) = Ok data -> status data = "FAILED" ->
        outcome = (Throw "Video generation failed", ended))
  /\ (forall data videoUrl,
        get http (gets net + k) = Ok data -> status data = "COMPLETED" ->
        video_url data = Some videoUrl -> videoUrl <> "" ->
        outcome = (Ok (response cfg request videoUrl ended), ended))
  /\ (forall data,
        get http (gets net + k) = Ok data -> status data = "COMPLETED" ->
        truthy (video_url data) = false ->
        outcome = (Throw "Video generation timed out", ended)).
Proof.
  cbv zeta. intros Hk Hpost Hpending. unfold generateWithFal, axios_post.
  destruct (post http) as [submitted|e]; [clear Hpost | discriminate Hpost].
  rewrite (pollFal_rounds k 0); [| unfold maxAttempts; cbn [gets]; lia | done].
  rewrite fal_round.
  destruct (decide (0 + k < maxAttempts)) as [_|]; [| unfold maxAttempts in *; lia].
  cbv zeta. unfold axios_get, sleep, afterRounds. cbn [gets elapsed clock].
  assert (Hended :
    mkNet (elapsed net + 5000 * N.of_nat k + 5000) (S (gets net + k))
          (S (S (S (clock net) + 2 * k)))
    = mkNet (elapsed net + 5000 * N.of_nat (S k)) (gets net + S k)
            (S (clock net) + 2 * S k)) by (f_equal; lia).
  split_and!.
  - intros e Hget. rewrite Hget. by rewrite Hended.
  - intros data Hget Hstatus. rewrite Hget, Hstatus.
    cbn [String.eqb Ascii.eqb Bool.eqb]. by rewrite Hended.
  - intros data videoUrl Hget Hstatus Hurl Hnonempty.
    rewrite Hget, Hstatus, Hurl. apply String.eqb_neq in Hnonempty.
    cbn [String.eqb Ascii.eqb Bool.eqb truthy]. rewrite Hnonempty. cbn [negb default].
    by rewrite Hended.
  - intros data Hget Hstatus Hurl. rewrite Hget, Hstatus. cbn [String.eqb Ascii.eqb Bool.eqb].
    rewrite Hurl. by rewrite Hended.
Qed.

(** The Replicate generation ends in the same way, with its own status names:
    [failed] and [canceled] throw [Video generation failed] and
    [Video generation canceled]; [succeeded] with an output returns it, and
    [succeeded] without one throws [Video generation timed out]. *)
Theorem replicate_ends_at_the_first_terminal_answer (net : Net) (k : nat) :
  let ended := afterRounds (S k) net in
  let outcome := generateWithReplicate cfg http request net in
  k < 60 ->
  isOk (post http) = true ->
  (forall i, gets net <= i < gets net + k -> replicatePending http i) ->
  (forall e, get http (gets net + k) = Throw e -> outcome = (Throw e, ended))
  /\ (forall data,
        get http (gets net + k) = Ok data ->
        status data = "failed" \/ status data = "canceled" ->
        outcome = (Throw ("Video generation " +:+ status data), ended))
  /\ (forall data videoUrl,
        get http (gets net + k) = Ok data -> status data = "succeeded" ->
        output data = Some videoUrl -> videoUrl <> "" ->
        outcome = (Ok (response cfg request videoUrl ended), ended))
  /\ (forall data,
        get http (gets net + k) = Ok data -> status data = "succeeded" ->
        truthy (output data) = false ->
        outcome = (Throw "Video generation timed out", ended)).
Proof.
  cbv zeta. intros Hk Hpost Hpending. unfold generateWithReplicate, axios_post.
  destruct (post http) as [submitted|e]; [clear Hpost | discriminate Hpost].
  rewrite (pollReplicate_rounds k 0); [| unfold maxAttempts; cbn [gets]; lia | done].
  rewrite replicate_round.
  destruct (decide (0 + k < maxAttempts)) as [_|]; [| unfold maxAttempts in *; lia].
  cbv zeta. unfold axios_get, sleep, afterRounds. cbn [gets elapsed clock].
  assert (Hended :
    mkNet (elapsed net + 5000 * N.of_nat k + 5000) (S (gets net + k))
          (S (S (S (clock net) + 2 * k)))
    = mkNet (elapsed net + 5000 * N.of_nat (S k)) (gets net + S k)
            (S (clock net) + 2 * S k)) by (f_equal; lia).
  split_and!.
  - intros e Hget. rewrite Hget. by rewrite Hended.
  - intros data Hget [Hstatus|Hstatus]; rewrite Hget, Hstatus;
      cbn [String.eqb Ascii.eqb Bool.eqb orb]; by rewrite Hended.
  - intros data videoUrl Hget Hstatus Hurl Hnonempty.
    rewrite Hget, Hstatus, Hurl. apply String.eqb_neq in Hnonempty.
    cbn [String.eqb Ascii.eqb Bool.eqb truthy]. rewrite Hnonempty. cbn [negb default].
    by rewrite Hended.
  - intros data Hget Hstatus Hurl. rewrite Hget, Hstatus. cbn [String.eqb Ascii.eqb Bool.eqb].
    rewrite Hurl. by rewrite Hended.
Qed.

Lemma unsupported_provider_throws (net : Net) :
  provider cfg <> "vertex" -> provider cfg <> "fal" -> provider cfg <> "replicate" ->
  generateVideo cfg http request net
  = (Throw ("Unsupported video provider: " +:+ provider cfg), net).
Proof.
  intros Hv Hf Hr. unfold generateVideo.
  apply String.eqb_neq in Hv, Hf, Hr. by rewrite Hv, Hf, Hr.
Qed.

(** Nothing is polled that was not submitted.  When the provider rejects the
    submission, every provider path throws that error after the one request, without
    sleeping and without a status request; a provider name other than [vertex], [fal]
    and [replicate] (the names are compared as they are, in lower case) throws
    [Unsupported video provider] before any request is made; and the Vertex path
    never polls. *)
Theorem nothing_is_polled_without_a_submission (net : Net) :
  let outcome := generateVideo cfg http request net in
  (provider cfg <> "vertex" -> provider cfg <> "fal" -> provider cfg <> "replicate" ->
   outcome = (Throw ("Unsupported video provider: " +:+ provider cfg), net))
  /\ (forall e,
        post http = Throw e ->
        provider cfg = "vertex" \/ provider cfg = "fal" \/ provider cfg = "replicate" ->
        outcome = (Throw e, mkNet (elapsed net) (gets net) (S (clock net))))
  /\ (provider cfg = "vertex" ->
      gets (snd outcome) = gets net /\ elapsed (snd outcome) = elapsed net).
Proof.
  cbv zeta. unfold generateVideo. split_and!.
  - apply unsupported_provider_throws.
  - intros e Hpost [Hp | [Hp | Hp]]; rewrite Hp; cbn [String.eqb Ascii.eqb Bool.eqb];
      unfold generateWithVertexAI, generateWithFal, generateWithReplicate, axios_post;
      by rewrite Hpost.
  - intros Hp. rewrite Hp. cbn [String.eqb Ascii.eqb Bool.eqb].
    unfold generateWithVertexAI, axios_post.
    destruct (post http) as [submitted|e]; [| done].
    by destruct (predictions submitted).
Qed.

End Outcomes.

(** *** A provider that reports completion without a video *)

Lemma providerAnswering_pending (third : Result VideoGenerator.StatusData) (i : nat) :
  i < 2 -> falPending (providerAnswering third) i /\ replicatePending (providerAnswering third) i.
Proof.
  intros Hi. destruct i as [|[|i]]; [| | lia];
    (split; eexists; by split_and!).
Qed.

Lemma fal_ends_at_the_first_terminal_answer_witness :
  let http :=
    providerAnswering (Ok (VideoGenerator.mkStatusData "COMPLETED" None None)) in
  let net := VideoGenerator.mkNet 0 0 0 in
  let ended := afterRounds 3 net in
  let outcome := VideoGenerator.generateWithFal falConfig http aRequest net in
  (forall e, VideoGenerator.get http 2 = Throw e -> outcome = (Throw e, ended))
  /\ (forall data,
        VideoGenerator.get http 2 = Ok data -> VideoGenerator.status data = "FAILED" ->
        outcome = (Throw "Video generation failed", ended))
  /\ (forall data videoUrl,
        VideoGenerator.get http 2 = Ok data -> VideoGenerator.status data = "COMPLETED" ->
        VideoGenerator.video_url data = Some videoUrl -> videoUrl <> "" ->
        outcome = (Ok (VideoGenerator.response falConfig aRequest videoUrl ended), ended))
  /\ (forall data,
        VideoGenerator.get http 2 = Ok data -> VideoGenerator.status data = "COMPLETED" ->
        truthy (VideoGenerator.video_url data) = false ->
        outcome = (Throw "Video generation timed out", ended)).
Proof.
  apply (fal_ends_at_the_first_terminal_answer falConfig
           (providerAnswering (Ok (VideoGenerator.mkStatusData "COMPLETED" None None)))
           aRequest (VideoGenerator.mkNet 0 0 0) 2).
  - lia.
  - done.
  - intros i Hi. apply providerAnswering_pending. cbn in Hi. lia.
Defined.

Lemma replicate_ends_at_the_first_terminal_answer_witness :
  let http :=
    providerAnswering (Ok (VideoGenerator.mkStatusData "canceled" None None)) in
  let net := VideoGenerator.mkNet 0 0 0 in
  let ended := afterRounds 3 net in
  let outcome := VideoGenerator.generateWithReplicate replicateConfig http aRequest net in
  (forall e, VideoGenerator.get http 2 = Throw e -> outcome = (Throw e, ended))
  /\ (forall data,
        VideoGenerator.get http 2 = Ok data ->
        VideoGenerator.status data = "failed" \/ VideoGenerator.status data = "canceled" ->
        outcome = (Throw ("Video generation " +:+ VideoGenerator.status data), ended))
  /\ (forall data videoUrl,
        VideoGenerator.get http 2 = Ok data -> VideoGenerator.status data = "succeeded" ->
        VideoGenerator.output data = Some videoUrl -> videoUrl <> "" ->
        outcome
        = (Ok (VideoGenerator.response replicateConfig aRequest videoUrl ended), ended))
  /\ (forall data,
        VideoGenerator.get http 2 = Ok data -> VideoGenerator.status data = "succeeded" ->
        truthy (VideoGenerator.output data) = false ->
        outcome = (Throw "Video generation timed out", ended)).
Proof.
  apply (replicate_ends_at_the_first_terminal_answer replicateConfig
           (providerAnswering (Ok (VideoGenerator.mkStatusData "canceled" None None)))
           aRequest (VideoGenerator.mkNet 0 0 0) 2).
  - lia.
  - done.
  - intros i Hi. apply providerAnswering_pending. cbn in Hi. lia.
Defined.

(** The third status answer says [COMPLETED] and carries no video: the generation is
    reported as timed out after fifteen seconds. *)
Example completed_without_a_video :
  VideoGenerator.generateVideo falConfig
    (providerAnswering (Ok (VideoGenerator.mkStatusData "COMPLETED" None None)))
    aRequest (VideoGenerator.mkNet 0 0 0)
  = (Throw "Video generation timed out", VideoGenerator.mkNet 15000 3 7).
Proof. by vm_compute. Qed.

(* ================================================================= *)
(** ** The configuration and the scheduled generator *)

Lemma orElse_empty (value : option string) :
  Config.empty (Config.orElse value "") = negb (truthy value).
Proof.
  unfold Config.empty, Config.orElse. destruct value as [s|]; cbn [truthy default]; [| done].
  destruct (String.eqb s "") eqn:Hs; cbn [negb]; by rewrite ?Hs.
Qed.

(** [validateConfig] on any configuration: what makes it valid, and how many
    errors it can report. *)
Lemma validateConfig_cases (config : Config.t) :
  let provider := Config.provider (Config.videoGeneration config) in
  let validation := Config.validateConfig config in
  (Config.valid validation = true <-> Config.errors validation = [])
  /\ (Config.valid validation = true <->
      negb (Config.empty (Config.projectId (Config.gcp config))) = true
      /\ negb (Config.empty (Config.storageBucket (Config.gcp config))) = true
      /\ negb (Config.empty (Config.anthropic_apiKey config)) = true
      /\ (provider = "fal" ->
          negb (Config.empty (Config.falApiKey (Config.videoGeneration config))) = true)
      /\ (provider = "replicate" ->
          negb (Config.empty (Config.replicateApiKey (Config.videoGeneration config)))
          = true))
  /\ length (Config.errors validation) <= 4.
Proof.
  intros provider validation. subst validation. unfold Config.validateConfig.
  fold provider.
  destruct (String.eqb_spec provider "fal") as [Hfal|Hfal];
    destruct (String.eqb_spec provider "replicate") as [Hreplicate|Hreplicate];
    try (exfalso; rewrite Hfal in Hreplicate; discriminate Hreplicate);
    destruct (Config.empty (Config.projectId (Config.gcp config))),
      (Config.empty (Config.storageBucket (Config.gcp config))),
      (Config.empty (Config.anthropic_apiKey config)),
      (Config.empty (Config.falApiKey (Config.videoGeneration config))),
      (Config.empty (Config.replicateApiKey (Config.videoGeneration config)));
    cbn [negb andb app length Nat.eqb Config.valid Config.errors];
    (split_and!;
     [ split; intros H; first [reflexivity | discriminate H]
     | split;
       [ intros H;
         first [ discriminate H
               | (split_and!; intros; first [reflexivity | contradiction]) ]
       | intros (H1 & H2 & H3 & H4 & H5);
         first [ reflexivity | discriminate H1 | discriminate H2 | discriminate H3
               | discriminate (H4 Hfal) | discriminate (H5 Hreplicate) ] ]
     | lia ]).
Qed.

(** What [validateConfig] requires of the environment: the project, the bucket and
    the model's key, and the key of the provider when the provider is fal.ai (also
    when [VIDEO_PROVIDER] is unset or empty, for fal.ai is then the provider) or
    Replicate.  It reports at most four errors, and it does not look at the name of
    the provider: a valid configuration can name a provider that
    [VideoGeneratorService] does not know, and then every generation throws
    [Unsupported video provider] before any request is made. *)
Theorem validateConfig_requirements (environ : Config.Environ) :
  let config := Config.config environ in
  let provider := Config.provider (Config.videoGeneration config) in
  let validation := Config.validateConfig config in
  (Config.valid validation = true <-> Config.errors validation = [])
  /\ (Config.valid validation = true <->
      isSet environ "GCP_PROJECT_ID" /\ isSet environ "GCP_STORAGE_BUCKET"
      /\ isSet environ "ANTHROPIC_API_KEY"
      /\ (provider = "fal" -> isSet environ "FAL_API_KEY")
      /\ (provider = "replicate" -> isSet environ "REPLICATE_API_KEY"))
  /\ length (Config.errors validation) <= 4
  /\ (truthy (environ !! "VIDEO_PROVIDER") = false -> provider = "fal")
  /\ (~ supportedProvider provider ->
      forall http request net,
        VideoGenerator.generateVideo (Config.generator config) http request net
        = (Throw ("Unsupported video provider: " +:+ provider), net)).
Proof.
  intros config provider validation.
  destruct (validateConfig_cases config) as (Hempty & Hvalid & Hfour).
  fold provider validation in Hempty, Hvalid, Hfour.
  assert (Hset : forall name,
            negb (Config.empty (Config.orElse (environ !! name) "")) = true
            <-> isSet environ name).
  { intros name. rewrite orElse_empty, negb_involutive. done. }
  split_and!.
  - exact Hempty.
  - rewrite Hvalid. unfold config, Config.config.
    cbn [Config.gcp Config.projectId Config.storageBucket Config.anthropic_apiKey
         Config.videoGeneration Config.falApiKey Config.replicateApiKey].
    by rewrite !Hset.
  - exact Hfour.
  - intros Hunset. unfold provider, config, Config.config.
    cbn [Config.videoGeneration Config.provider]. unfold Config.orElse.
    by rewrite Hunset.
  - intros Hunsupported http request net.
    apply (unsupported_provider_throws (Config.generator config) http request net);
      intros ?; apply Hunsupported; unfold supportedProvider; auto.
Qed.

Section Batch.
Variable env : Env.
Variable config : Config.t.
Variable listingFault : nat -> option string.


(** An invalid configuration stops the scheduled generator before it touches
    anything: it throws [Invalid configuration] with the errors of [validateConfig],
    joined by commas, and the world is as it was. *)
Theorem invalid_configuration_stops_the_batch (w : World) :
  Config.valid (Config.validateConfig config) = false ->
  scheduledVideoGenerator env config listingFault w
  = (Throw ("Invalid configuration: "
            +:+ join ", " (Config.errors (Config.validateConfig config))), w).
Proof.
  intros Hinvalid. unfold scheduledVideoGenerator.
  unfold bind, ret, throw, tryCatch, M_monad, M_bind, M_tryCatch.
  by rewrite Hinvalid.
Qed.


End Batch.

(** *** The batch over [twoNiches] *)

(** With nothing set in the environment the batch stops at once. *)
Lemma invalid_configuration_stops_the_batch_witness :
  scheduledVideoGenerator providerFails (Config.config ∅) (fun _ => None) twoNiches
  = (Throw ("Invalid configuration: "
            +:+ join ", " (Config.errors (Config.validateConfig (Config.config ∅)))),
     twoNiches).
Proof.
  exact (invalid_configuration_stops_the_batch providerFails (Config.config ∅)
           (fun _ => None) twoNiches eq_refl).
Defined.

Example errors_of_an_empty_environment :
  Config.errors (Config.validateConfig (Config.config ∅))
  = ["GCP_PROJECT_ID is required"; "GCP_STORAGE_BUCKET is required";
     "ANTHROPIC_API_KEY is required"; "FAL_API_KEY is required when using fal provider"].
Proof. by vm_compute. Qed.


Example batch_with_a_failing_provider :
  let outcome :=
    scheduledVideoGenerator providerFails (Config.config falEnviron) (fun _ => None)
      twoNiches in
  fst outcome = Ok tt
  /\ storedJobStatus "job-0" (snd outcome) = Some JobStatus.failed
  /\ storedJobStatus "job-1" (snd outcome) = Some JobStatus.failed
  /\ videos (snd outcome) = ∅.
Proof. by vm_compute. Qed.

(* ================================================================= *)
(** ** The analytics collector *)

Section Collecting.
Import Collector.
Local Existing Instance C_monad.
Variable env : Env.
Variable stats : StatsEnv.
Variable video : VideoMetadata.t.
Variable niche : ContentNiche.t.

Ltac collector_unfold :=
  unfold collectPost, youtube_stats, instagram_stats, tiktok_stats, saveAnalytics,
    onStore, called, setCredentials, adapter, now;
  unfold bind, ret, throw, tryCatch, C_monad.

Ltac collector_simpl :=
  cbn beta iota zeta delta
    [fst snd store analytics statsCalls tick issue calls jobs videos niches trending
     blobs clock autoIds uuids negb orb andb default from_option id
     Stats.views Stats.likes Stats.comments Stats.shares
     YouTubeStats.views YouTubeStats.likes YouTubeStats.comments
     AnalyticsData.videoId AnalyticsData.platform AnalyticsData.views
     AnalyticsData.likes AnalyticsData.comments AnalyticsData.shares
     AnalyticsData.engagementRate].

Lemma samePost_refl (post : PlatformPost.t) : samePost post post.
Proof. by split_and!. Qed.

Lemma samePost_withStats (data : AnalyticsData.t) (post : PlatformPost.t) :
  samePost post (withStats data post).
Proof. by split_and!. Qed.

Ltac unchanged :=
  match goal with
  | |- Collected _ _ ?post _ _ =>
      split; collector_simpl;
      [ exists post; split_and!; [done | apply samePost_refl | done]
      | exists []; rewrite app_nil_r; split_and!; [done | apply Nat.le_0_l | done]
      | done | done ]
  end.

Lemma collectPost_collected (post : PlatformPost.t) (o : Outside) :
  Collected niche video post o
    (tryCatch (collectPost env stats (VideoMetadata.id video) niche post)
       (fun error => ret post) o).
Proof.
  collector_unfold.
  destruct (bool_decide (PlatformPost.status post = PostStatus.posted)) eqn:Hposted;
    collector_simpl.
  2:{ unchanged. }
  apply bool_decide_eq_true in Hposted.
  destruct (truthy (PlatformPost.postId post)) eqn:HpostId; collector_simpl.
  2:{ unchanged. }
  destruct (PlatformPost.platform post) eqn:Hplatform.
  - (* YouTube *)
    destruct (SocialAccountConfig.youtube _) as [account|] eqn:Haccount; collector_simpl.
    2:{ unchanged. }
    destruct (youtube_setCredentials env _) as [[]|e]; collector_simpl.
    2:{ unchanged. }
    destruct (youtube_getVideoAnalytics stats _) as [answer|e]; collector_simpl.
    2:{ unchanged. }
    destruct (analyticsFault stats _ _) as [e|]; collector_simpl.
    { unchanged. }
    assert (Hcollected : collected niche post = true).
    { unfold collected, platformEnabled, credentialPresent.
      rewrite Hplatform, HpostId, Haccount, ?Htoken.
      by rewrite !bool_decide_eq_true_2 by eauto. }
    split; collector_simpl; [| | done | done].
    + eexists. split; [reflexivity |].
      split; [apply samePost_withStats | by rewrite Hcollected].
    + eexists [_]. split; [reflexivity |]. split; [by rewrite Hcollected |].
      constructor; [| done]. collector_simpl. unfold calculateEngagementRate.
      by split_and!.
  - (* Instagram *)
    destruct (SocialAccountConfig.instagram _) as [account|] eqn:Haccount; collector_simpl.
    2:{ unchanged. }
    destruct (instagram_getReelAnalytics stats _ _) as [answer|e]; collector_simpl.
    2:{ unchanged. }
    destruct (analyticsFault stats _ _) as [e|]; collector_simpl.
    { unchanged. }
    assert (Hcollected : collected niche post = true).
    { unfold collected, platformEnabled, credentialPresent.
      rewrite Hplatform, HpostId, Haccount, ?Htoken.
      by rewrite !bool_decide_eq_true_2 by eauto. }
    split; collector_simpl; [| | done | done].
    + eexists. split; [reflexivity |].
      split; [apply samePost_withStats | by rewrite Hcollected].
    + eexists [_]. split; [reflexivity |]. split; [by rewrite Hcollected |].
      constructor; [| done]. collector_simpl. by split_and!.
  - (* TikTok *)
    destruct (SocialAccountConfig.tiktok _) as [account|] eqn:Haccount; collector_simpl.
    2:{ unchanged. }
    destruct (truthy (TikTokAccount.accessToken account)) eqn:Htoken; collector_simpl.
    2:{ unchanged. }
    destruct (analyticsFault stats _ _) as [e|]; collector_simpl.
    { unchanged. }
    assert (Hcollected : collected niche post = true).
    { unfold collected, platformEnabled, credentialPresent.
      rewrite Hplatform, HpostId, Haccount, ?Htoken.
      by rewrite !bool_decide_eq_true_2 by eauto. }
    split; collector_simpl; [| | done | done].
    + eexists. split; [reflexivity |].
      split; [apply samePost_withStats | by rewrite Hcollected].
    + eexists [_]. split; [reflexivity |]. split; [by rewrite Hcollected |].
      constructor; [| done]. collector_simpl. by split_and!.
Qed.

(** The loop over the posts of the video. *)
Lemma forEachPost_collects (posts : list PlatformPost.t) :
  Forall (fun post => post ∈ VideoMetadata.platforms video) posts ->
  forall o,
    exists after rows o',
      forEachPost env stats (VideoMetadata.id video) niche posts o = (Ok after, o')
      /\ Forall2 samePost posts after
      /\ Forall2 (fun before after => collected niche before = false -> after = before)
           posts after
      /\ analytics o' = analytics o ++ rows
      /\ Forall (rowOf video) rows
      /\ length rows <= length (List.filter (collected niche) posts)
      /\ videos (store o') = videos (store o)
      /\ jobs (store o') = jobs (store o).
Proof.
  induction posts as [|post posts IH]; intros Hposts o; cbn [forEachPost].
  - exists [], [], o. rewrite app_nil_r. by split_and!.
  - apply Forall_cons in Hposts as [Hpost Hposts].
    unfold bind at 1. unfold C_monad at 1.
    pose proof (collectPost_collected post o) as Hstep. revert Hstep.
    destruct (@tryCatch C C_monad PlatformPost.t
                (collectPost env stats (VideoMetadata.id video) niche post)
                (fun error => @ret C C_monad PlatformPost.t post) o) as [r o1].
    intros [(after & Hafter & Hsame & Hkept) (rows & Hrows & Hlength & Hrow) Hvideos Hjobs].
    cbn [fst snd] in *. subst r.
    destruct (IH Hposts o1)
      as (afters & rows' & o2 & Hrun & Hsames & Hkepts & Hrows' & Hrow' & Hlength'
          & Hvideos' & Hjobs').
    unfold bind, ret, C_monad. rewrite Hrun.
    exists (after :: afters), (rows ++ rows'), o2.
    split_and!; [done | by constructor | by constructor | | | | congruence | congruence].
    + by rewrite Hrows', Hrows, app_assoc.
    + apply Forall_app. split; [| done].
      eapply Forall_impl; [exact Hrow |]. cbn beta.
      intros row (Hid & Hplatform & Hposted & Hrate & Hyoutube & Htiktok & _).
      split_and!; [done | by exists post | done | done | done].
    + cbn [List.filter]. rewrite length_app.
      destruct (collected niche post); cbn [length]; lia.
Qed.

(** The collector changes nothing of a video but statistics.  Whatever the platforms
    and the store answer, it ends by writing the record back, with the posts it had, in
    their order: each with the platform, post id, time, status and error it had, and
    with the views, likes and comments it had unless statistics were collected for it,
    which happens only for a posted entry with a post id whose platform is enabled on
    the niche.  Only that last write can make it throw, and then no record has
    changed. *)
Theorem collection_changes_statistics_only (o : Outside) :
  let outcome := collectVideoAnalytics env stats video niche o in
  exists posts,
    Forall2 samePost (VideoMetadata.platforms video) posts
    /\ Forall2 (fun before after => collected niche before = false -> after = before)
         (VideoMetadata.platforms video) posts
    /\ head (calls (store (snd outcome)))
       = Some (SaveVideoMetadata (VideoMetadata.with_platforms posts video))
    /\ (fst outcome = Ok tt ->
        videos (store (snd outcome))
        = <[VideoMetadata.id video := VideoMetadata.with_platforms posts video]>
            (videos (store o)))
    /\ (forall e,
          fst outcome = Throw e ->
          videos (store (snd outcome)) = videos (store o)
          /\ exists t,
               fault env (SaveVideoMetadata (VideoMetadata.with_platforms posts video)) t
               = Some e).
Proof.
  cbv zeta. unfold collectVideoAnalytics.
  destruct (forEachPost_collects (VideoMetadata.platforms video)) with (o := o)
    as (posts & rows & o1 & Hrun & Hsame & Hkept & _ & _ & _ & Hvideos & _).
  { by apply Forall_forall. }
  unfold bind, C_monad. rewrite Hrun.
  unfold onStore, saveVideoMetadata, request.
  exists posts. split; [done |]. split; [done |].
  destruct (fault env _ (clock (store o1))) as [e|] eqn:Hfault; cbn [fst snd store].
  - split_and!; [done | discriminate |].
    intros e' [= <-]. split; [done |]. by eexists.
  - split_and!; [done | | discriminate].
    intros _. cbn [set_videos videos issue VideoMetadata.with_platforms VideoMetadata.id].
    by rewrite Hvideos.
Qed.

(** Every row the collector writes for a video is a row of that video and of a posted
    entry of it, with the engagement rate of its own numbers; a YouTube row has no
    shares, and a TikTok row is all zeros, for TikTok's statistics are a placeholder.
    It writes at most one row for each entry whose statistics are collected. *)
Theorem collection_writes_rows_of_the_video (o : Outside) :
  let outcome := collectVideoAnalytics env stats video niche o in
  exists rows,
    analytics (snd outcome) = analytics o ++ rows
    /\ Forall (rowOf video) rows
    /\ length rows
       <= length (List.filter (collected niche) (VideoMetadata.platforms video)).
Proof.
  cbv zeta. unfold collectVideoAnalytics.
  destruct (forEachPost_collects (VideoMetadata.platforms video)) with (o := o)
    as (posts & rows & o1 & Hrun & _ & _ & Hrows & Hrow & Hlength & _).
  { by apply Forall_forall. }
  unfold bind, C_monad. rewrite Hrun.
  unfold onStore. exists rows.
  destruct (saveVideoMetadata env _ (store o1)) as [r w]. by cbn [snd analytics].
Qed.

End Collecting.

(* ================================================================= *)
(** ** Posting a Reel *)

Lemma replicate_shift {A : Type} (n : nat) (x : A) (l : list A) :
  replicate n x ++ x :: l = x :: replicate n x ++ l.
Proof. induction n as [|n IH]; [done |]. cbn [replicate app]. by rewrite IH. Qed.

Lemma rev_replicate {A : Type} (n : nat) (x : A) : rev (replicate n x) = replicate n x.
Proof.
  induction n as [|n IH]; [done |]. cbn [replicate rev]. rewrite IH.
  symmetry. apply replicate_cons_app.
Qed.

Section Reels.
Import InstagramPoster.
Variable graph : Graph.

Lemma issued_requests (net net' : Net) (new : list Request) :
  requests net' = new ++ requests net -> issued net net' = rev new.
Proof.
  intros Hrequests. unfold issued. rewrite Hrequests, length_app.
  replace (length new + length (requests net) - length (requests net)) with (length new)
    by lia.
  by rewrite take_app_length.
Qed.

(** The wait, whatever the answers: it issues at most [remaining] status requests and
    sleeps five seconds before each; it returns normally only when the last of them
    was answered [FINISHED]. *)
Lemma checkStatus_bounded (containerId : string) (remaining : nat) :
  forall net,
    let outcome := checkStatus graph containerId remaining net in
    checks net <= checks (snd outcome) <= checks net + remaining
    /\ elapsed (snd outcome)
       = (elapsed net + 5000 * N.of_nat (checks (snd outcome) - checks net))%N
    /\ requests (snd outcome)
       = replicate (checks (snd outcome) - checks net) (GetStatusCode containerId)
         ++ requests net
    /\ (fst outcome = Ok tt ->
        exists k, k < remaining
                  /\ status_code graph containerId (checks net + k) = Ok "FINISHED").
Proof.
  induction remaining as [|remaining IH]; intros net; cbn [checkStatus]; cbv zeta.
  - cbn [fst snd]. rewrite Nat.sub_diag. split_and!; first [done | lia].
  - unfold sleep. cbn [elapsed checks requests].
    destruct (status_code graph containerId (checks net)) as [statusCode|e] eqn:Hanswer.
    2:{ cbn [fst snd elapsed checks requests].
        replace (S (checks net) - checks net) with 1 by lia.
        split_and!; first [done | lia]. }
    destruct (String.eqb_spec statusCode "FINISHED") as [->|_].
    { cbn [fst snd elapsed checks requests].
      replace (S (checks net) - checks net) with 1 by lia.
      split_and!; [lia | lia | done | done |].
      intros _. exists 0. rewrite Nat.add_0_r. split; [lia | done]. }
    destruct (String.eqb_spec statusCode "ERROR") as [->|_].
    { cbn [fst snd elapsed checks requests].
      replace (S (checks net) - checks net) with 1 by lia.
      split_and!; first [done | lia]. }
    specialize (IH (mkNet (elapsed net + 5000) (S (checks net))
                      (GetStatusCode containerId :: requests net))).
    cbv zeta in IH. cbn [elapsed checks requests] in IH.
    destruct IH as (Hchecks & Helapsed & Hrequests & Hfinished).
    set (outcome := checkStatus graph containerId remaining _) in *.
    split_and!; [lia | lia | rewrite Helapsed; lia | |].
    + rewrite Hrequests.
      replace (checks (snd outcome) - checks net)
        with (S (checks (snd outcome) - S (checks net))) by lia.
      cbn [replicate app]. by rewrite replicate_shift.
    + intros Hok. destruct (Hfinished Hok) as (k & Hk & Hdone).
      exists (S k). split; [lia |]. by rewrite <- Nat.add_succ_comm.
Qed.

Lemma checkStatus_round (containerId : string) (remaining : nat) (net : Net) :
  checkStatus graph containerId (S remaining) net
  = let net := sleep 5000 net in
    let answer := status_code graph containerId (checks net) in
    let net :=
      mkNet (elapsed net) (S (checks net)) (GetStatusCode containerId :: requests net) in
    match answer with
    | Throw e => (Throw e, net)
    | Ok statusCode =>
        if String.eqb statusCode "FINISHED" then (Ok tt, net)
        else if String.eqb statusCode "ERROR" then (Throw "Media processing failed", net)
        else checkStatus graph containerId remaining net
    end.
Proof. reflexivity. Qed.

(** The rounds of the wait that are answered with a status that is not terminal. *)
Lemma checkStatus_rounds (containerId : string) (k : nat) :
  forall remaining net,
    (forall j, j < k -> processing (status_code graph containerId (checks net + j))) ->
    checkStatus graph containerId (k + remaining) net
    = checkStatus graph containerId remaining
        (mkNet (elapsed net + 5000 * N.of_nat k) (checks net + k)
               (replicate k (GetStatusCode containerId) ++ requests net)).
Proof.
  induction k as [|k IH]; intros remaining net Hprocessing.
  - destruct net as [e c r]. cbn [elapsed checks requests replicate app plus].
    do 2 f_equal; lia.
  - cbn [plus checkStatus]. cbv zeta. unfold sleep. cbn [elapsed checks requests].
    destruct (Hprocessing 0) as (code & Hanswer & Hf & He); [lia |].
    rewrite Nat.add_0_r in Hanswer. rewrite Hanswer.
    apply String.eqb_neq in Hf, He. rewrite Hf, He.
    rewrite IH; cbn [elapsed checks requests].
    + f_equal. f_equal; [lia | lia |].
      cbn [replicate app]. by rewrite replicate_shift.
    + intros j Hj. replace (S (checks net) + j) with (checks net + S j) by lia.
      apply Hprocessing. lia.
Qed.

(** A Reel is published only when Instagram has finished processing it.  Whatever
    the Graph API answers, [postReel] issues at most 20 status requests, five seconds
    apart, and at most one request to publish: for the container it created, with the
    caption cut to 2200 characters, and only after a status request was answered
    [FINISHED].  When all 20 status requests are answered with a status that is not
    terminal, it throws [Media processing timed out] after 100 seconds, and nothing is
    published. *)
Theorem reel_is_published_only_when_finished (accountId videoUrl caption : string)
    (coverUrl : option string) (net : Net) :
  let outcome := postReel graph accountId videoUrl caption coverUrl net in
  let cover_url := if truthy coverUrl then coverUrl else None in
  let created := media graph accountId videoUrl (substring0 2200 caption) cover_url in
  checks net <= checks (snd outcome) <= checks net + 20
  /\ elapsed (snd outcome)
     = (elapsed net + 5000 * N.of_nat (checks (snd outcome) - checks net))%N
  /\ (forall account containerId,
        MediaPublish account containerId ∈ issued net (snd outcome) ->
        account = accountId /\ created = Ok containerId
        /\ exists k, k < 20
                     /\ status_code graph containerId (checks net + k) = Ok "FINISHED")
  /\ (forall containerId,
        created = Ok containerId ->
        (forall j, j < 20 ->
                   processing (status_code graph containerId (checks net + j))) ->
        fst outcome = Throw "Media processing timed out"
        /\ checks (snd outcome) = checks net + 20
        /\ elapsed (snd outcome) = (elapsed net + 100000)%N
        /\ issued net (snd outcome)
           = CreateMedia accountId videoUrl (substring0 2200 caption) cover_url
             :: replicate 20 (GetStatusCode containerId)).
Proof.
  cbv zeta. unfold postReel, createMediaContainer, waitForMediaProcessing,
    publishMediaContainer, getMediaPermalink, sent.
  cbn [default from_option id].
  set (cover_url := if truthy coverUrl then coverUrl else None).
  set (request := CreateMedia accountId videoUrl (substring0 2200 caption) cover_url).
  destruct (media graph accountId videoUrl (substring0 2200 caption) cover_url)
    as [containerId|e] eqn:Hcreated.
  2:{ cbn [fst snd elapsed checks requests]. rewrite Nat.sub_diag.
      rewrite (issued_requests net _ [request]) by done.
      split_and!; [lia | lia | lia | | done].
      intros account c Hin. cbn [rev app] in Hin.
      apply list_elem_of_singleton in Hin. unfold request in Hin. discriminate Hin. }
  set (net1 := mkNet (elapsed net) (checks net) (request :: requests net)).
  split_and!.
  5:{ intros c [= <-] Hprocessing.
      pose proof (checkStatus_rounds containerId 20 0 net1 Hprocessing) as Hrounds.
      cbn [plus] in Hrounds. rewrite Hrounds. cbn [checkStatus fst snd elapsed checks requests].
      rewrite (issued_requests net _ (replicate 20 (GetStatusCode containerId) ++ [request]))
        by done.
      split_and!; [done | done | done |].
      rewrite rev_app_distr. cbn [rev app].
      f_equal; by vm_compute. }
  all: pose proof (checkStatus_bounded containerId 20 net1)
    as (Hchecks & Helapsed & Hrequests & Hfinished);
    cbv zeta in Hchecks, Helapsed, Hrequests, Hfinished;
    cbn [elapsed checks requests net1] in Hchecks, Helapsed, Hrequests, Hfinished;
    destruct (checkStatus graph containerId 20 net1) as [[[]|e] net2];
    cbn [fst snd] in *.
  all: try (destruct (media_publish graph accountId containerId) as [mediaId|e'];
            [destruct (permalink graph mediaId) as [link|e'] |]);
    cbn [fst snd elapsed checks requests]; try lia.
  all: intros account c Hin;
    match type of Hin with
    | _ ∈ issued ?n ?net' =>
        let l := eval cbn [requests] in (requests net') in
        match l with
        | context C [requests ?n2] =>
            let pre := context C [@nil Request] in
            rewrite (issued_requests n net'
                       (pre ++ replicate (checks n2 - checks n)
                                 (GetStatusCode containerId) ++ [request])) in Hin;
            [| cbn [requests app]; rewrite Hrequests; by rewrite <- !app_assoc ]
        end
    end;
    rewrite !rev_app_distr in Hin; cbn [rev app] in Hin; unfold request in Hin;
    repeat first
      [ by apply elem_of_nil in Hin
      | apply elem_of_cons in Hin as [Hin|Hin]; [try discriminate Hin |]
      | apply elem_of_app in Hin as [Hin|Hin]
      | apply list_elem_of_In, in_rev, list_elem_of_In, elem_of_replicate in Hin
          as [Hin _]; discriminate Hin ].
  all: injection Hin as -> ->; split_and!; [done | done | by apply Hfinished].
Qed.

(** When Instagram finishes the container at the status request numbered [k] and
    publishes it, [postReel] has issued the creation, [k + 1] status requests, the
    publication and the request for the permalink, in that order, after sleeping
    5 (k + 1) seconds; it returns the media id with the permalink, and when the request
    for the permalink fails it throws that error although the Reel is published. *)
Theorem postReel_when_processing_finishes (accountId videoUrl caption : string)
    (coverUrl : option string) (net : Net) (k : nat) (containerId mediaId : string) :
  let outcome := postReel graph accountId videoUrl caption coverUrl net in
  let cover_url := if truthy coverUrl then coverUrl else None in
  k < 20 ->
  media graph accountId videoUrl (substring0 2200 caption) cover_url = Ok containerId ->
  (forall j, j < k -> processing (status_code graph containerId (checks net + j))) ->
  status_code graph containerId (checks net + k) = Ok "FINISHED" ->
  media_publish graph accountId containerId = Ok mediaId ->
  issued net (snd outcome)
  = CreateMedia accountId videoUrl (substring0 2200 caption) cover_url
    :: replicate (S k) (GetStatusCode containerId)
    ++ [MediaPublish accountId containerId; GetPermalink mediaId]
  /\ elapsed (snd outcome) = (elapsed net + 5000 * N.of_nat (S k))%N
  /\ (forall link,
        permalink graph mediaId = Ok link -> fst outcome = Ok (Reel.mk mediaId link))
  /\ (forall e, permalink graph mediaId = Throw e -> fst outcome = Throw e).
Proof.
  cbv zeta. intros Hk Hcreated Hprocessing Hfinished Hpublished.
  unfold postReel, createMediaContainer, waitForMediaProcessing,
    publishMediaContainer, getMediaPermalink, sent.
  cbn [default from_option id]. rewrite Hcreated.
  set (request := CreateMedia _ _ _ _).
  assert (Hwait :
    checkStatus graph containerId 20
      (mkNet (elapsed net) (checks net) (request :: requests net))
    = (Ok tt,
       mkNet (elapsed net + 5000 * N.of_nat k + 5000) (S (checks net + k))
         (GetStatusCode containerId
          :: replicate k (GetStatusCode containerId) ++ request :: requests net))).
  { replace 20 with (k + S (19 - k)) by lia.
    rewrite checkStatus_rounds by done.
    rewrite checkStatus_round. cbv zeta. unfold sleep. cbn [elapsed checks requests].
    by rewrite Hfinished. }
  rewrite Hwait, Hpublished. cbn [elapsed checks requests].
  assert (Hissued :
            issued net
              (mkNet (elapsed net + 5000 * N.of_nat k + 5000) (S (checks net + k))
                 (GetPermalink mediaId :: MediaPublish accountId containerId
                  :: GetStatusCode containerId
                  :: replicate k (GetStatusCode containerId) ++ request :: requests net))
            = request :: replicate (S k) (GetStatusCode containerId)
              ++ [MediaPublish accountId containerId; GetPermalink mediaId]).
  { rewrite (issued_requests net _
               ([GetPermalink mediaId; MediaPublish accountId containerId]
                ++ replicate (S k) (GetStatusCode containerId) ++ [request])).
    - by rewrite !rev_app_distr, rev_replicate.
    - cbn [requests replicate app]. by rewrite <- !app_assoc. }
  destruct (permalink graph mediaId) as [link|e]; cbn [fst snd elapsed];
    (split_and!;
     [ exact Hissued | lia
     | intros ? Heq; first [discriminate Heq | by injection Heq as <-]
     | intros ? Heq; first [discriminate Heq | by injection Heq as <-] ]).
Qed.

End Reels.

(** The Reel of [graphAnswering] is published at the third status request; the
    request for its permalink times out. *)
Lemma postReel_when_processing_finishes_witness :
  let graph := graphAnswering (Throw "ETIMEDOUT") in
  let net := InstagramPoster.mkNet 0 0 [] in
  let outcome :=
    InstagramPoster.postReel graph "account" "https://video" "a caption" None net in
  InstagramPoster.issued net (snd outcome)
  = InstagramPoster.CreateMedia "account" "https://video" (substring0 2200 "a caption") None
    :: replicate 3 (InstagramPoster.GetStatusCode "container-1")
    ++ [InstagramPoster.MediaPublish "account" "container-1";
        InstagramPoster.GetPermalink "media-1"]
  /\ InstagramPoster.elapsed (snd outcome) = (0 + 5000 * N.of_nat 3)%N
  /\ (forall link,
        InstagramPoster.permalink graph "media-1" = Ok link ->
        fst outcome = Ok (Reel.mk "media-1" link))
  /\ (forall e,
        InstagramPoster.permalink graph "media-1" = Throw e -> fst outcome = Throw e).
Proof.
  apply (postReel_when_processing_finishes (graphAnswering (Throw "ETIMEDOUT"))
           "account" "https://video" "a caption" None (InstagramPoster.mkNet 0 0 []) 2
           "container-1" "media-1").
  - lia.
  - done.
  - intros j Hj. exists "IN_PROGRESS". destruct j as [|[|j]]; [done | done | lia].
  - done.
  - done.
Defined.

(* ================================================================= *)
(** ** Uploading a Short *)

Section Shorts.
Import YouTubePoster.
Variable videos_insert : Insert -> Result string.

(** The one request an upload from a buffer makes.  It carries the bytes of the
    buffer (written to the temporary file and read back), the title cut to 100
    characters, the description followed by the hashtag line and [#Shorts], and the
    hashtags followed by [Shorts] as tags, public and not made for kids; the outcome of
    the upload is the outcome of that request, and the URL returned is the Shorts URL
    of the id YouTube answered.  A title made by the orchestrator's [generateTitle] is
    never cut. *)
Theorem upload_request_of_a_short (now : nat) (videoBuffer : Buffer)
    (title description : string) (hashtags : list string) (m : Machine) :
  let outcome :=
    uploadShortFromBuffer videos_insert now videoBuffer title description hashtags m in
  (exists request,
     inserts (snd outcome) = request :: inserts m
     /\ media request = videoBuffer
     /\ YouTubePoster.title request = substring0 100 title
     /\ String.length (YouTubePoster.title request) <= 100
     /\ YouTubePoster.description request
        = description +:+ newline +:+ newline +:+ hashtagLine hashtags +:+ newline
          +:+ newline +:+ "#Shorts"
     /\ endsWith "#Shorts" (YouTubePoster.description request)
     /\ tags request = hashtags ++ ["Shorts"]
     /\ privacyStatus request = "public" /\ selfDeclaredMadeForKids request = false
     /\ fst outcome
        = match videos_insert request with
          | Ok videoId =>
              Ok (YouTubeUpload.mk videoId ("https://www.youtube.com/shorts/" +:+ videoId))
          | Throw e => Throw e
          end)
  /\ (forall text, substring0 100 (generateTitle text) = generateTitle text).
Proof.
  cbv zeta. split.
  - unfold uploadShortFromBuffer, uploadShort, writeFileSync, unlinkSync.
    cbn [files inserts]. rewrite lookup_insert_eq.
    set (request :=
           mkInsert (substring0 100 title)
             (description +:+ newline +:+ newline +:+ hashtagLine hashtags +:+ newline
              +:+ newline +:+ "#Shorts")
             "22" (hashtags ++ ["Shorts"]) "public" false videoBuffer).
    exists request.
    destruct (videos_insert request) as [videoId|e]; cbn [fst snd inserts];
      (split_and!; try done;
       [ apply substring0_length
       | exists (description +:+ newline +:+ newline +:+ hashtagLine hashtags +:+ newline
                 +:+ newline); by rewrite !append_assoc ]).
  - intros text. apply substring0_short.
    pose proof (generateTitle_length text). lia.
Qed.

(** The temporary file outlives a failed upload.  The upload writes the buffer to
    [/tmp/video_<now>.mp4]; when the request succeeds the file is removed again, and
    when it fails the file stays on the disk, with the bytes of the video.  No other
    file changes. *)
Theorem temporary_file_outlives_a_failed_upload (now : nat) (videoBuffer : Buffer)
    (title description : string) (hashtags : list string) (m : Machine) :
  let tmpPath := "/tmp/video_" +:+ pretty now +:+ ".mp4" in
  let outcome :=
    uploadShortFromBuffer videos_insert now videoBuffer title description hashtags m in
  (isOk (fst outcome) = true -> files (snd outcome) !! tmpPath = None)
  /\ (isOk (fst outcome) = false -> files (snd outcome) !! tmpPath = Some videoBuffer)
  /\ (forall path, path <> tmpPath -> files (snd outcome) !! path = files m !! path).
Proof.
  cbv zeta. unfold uploadShortFromBuffer, uploadShort, writeFileSync, unlinkSync.
  cbn [files inserts]. rewrite lookup_insert_eq.
  destruct (videos_insert _) as [videoId|e]; cbn [fst snd files isOk].
  - split_and!; [intros _; apply lookup_delete_eq | done |].
    intros path Hpath. by rewrite lookup_delete_ne, lookup_insert_ne.
  - split_and!; [done | intros _; apply lookup_insert_eq |].
    intros path Hpath. by rewrite lookup_insert_ne.
Qed.

End Shorts.

(* ================================================================= *)
(** ** Hashtags and relevant topics *)

Section Hashtags.
Import Trending.

Lemma keepChars_chars (keep : Ascii.ascii -> bool) (s : string) (c : Ascii.ascii) :
  c ∈ chars (keepChars keep s) -> keep c = true /\ c ∈ chars s.
Proof.
  unfold chars. induction s as [|a s IH]; simpl.
  - intros Hc. by apply elem_of_nil in Hc.
  - destruct (keep a) eqn:Ha; simpl.
    + intros Hc. apply elem_of_cons in Hc as [->|Hc].
      * split; [done | left].
      * destruct (IH Hc). split; [done | by right].
    + intros Hc. destruct (IH Hc). split; [done | by right].
Qed.

Lemma toHashtag_wellFormed (text : string) :
  toHashtag text <> "" -> wellFormedHashtag (toHashtag text).
Proof.
  intros Hnonempty. split.
  - split; [destruct (toHashtag text); [done | simpl; lia] |].
    apply substring0_length.
  - apply Forall_forall. intros c Hc. apply substring0_chars in Hc.
    apply keepChars_chars in Hc as [Hspace Hc].
    apply keepChars_chars in Hc as [Hkept _].
    apply negb_true_iff in Hspace. rewrite Hspace in Hkept.
    by rewrite orb_false_r in Hkept.
Qed.

Lemma addHashtag_empty (hashtags : list string) (text : string) :
  toHashtag text = "" -> addHashtag hashtags text = hashtags.
Proof. unfold addHashtag. by intros ->. Qed.

Lemma addHashtag_nonempty (hashtags : list string) (text : string) :
  toHashtag text <> "" -> addHashtag hashtags text = add (toHashtag text) hashtags.
Proof. unfold addHashtag. by destruct (toHashtag text). Qed.

(** The two nested loops are one loop over the topics and their keywords. *)
Lemma getHashtagsFromTopics_flat (topics : list TrendingTopic.t) :
  getHashtagsFromTopics topics = take 15 (foldl addHashtag [] (hashtagSources topics)).
Proof.
  unfold getHashtagsFromTopics. f_equal. generalize (@nil string) as hashtags.
  induction topics as [|topic topics IH]; intros hashtags; [done |].
  cbn [foldl hashtagSources flat_map]. rewrite foldl_app. cbn [foldl]. apply IH.
Qed.

(** What the set holds after some texts were added to it. *)
Lemma addHashtag_collects (texts : list string) :
  forall hashtags,
    NoDup hashtags ->
    NoDup (foldl addHashtag hashtags texts)
    /\ (forall h, h ∈ foldl addHashtag hashtags texts ->
                  h ∈ hashtags \/ (h <> "" /\ exists text, text ∈ texts /\ h = toHashtag text))
    /\ (forall h, h ∈ hashtags -> h ∈ foldl addHashtag hashtags texts)
    /\ (forall text, text ∈ texts -> toHashtag text <> "" ->
                     toHashtag text ∈ foldl addHashtag hashtags texts).
Proof.
  induction texts as [|text texts IH]; intros hashtags Hnodup; cbn [foldl].
  - split_and!; [done | by left | done |]. intros text Hin. by apply elem_of_nil in Hin.
  - assert (Hadded : NoDup (addHashtag hashtags text)
                     /\ (forall h, h ∈ addHashtag hashtags text ->
                                   h ∈ hashtags \/ (h <> "" /\ h = toHashtag text))
                     /\ (forall h, h ∈ hashtags -> h ∈ addHashtag hashtags text)
                     /\ (toHashtag text <> "" -> toHashtag text ∈ addHashtag hashtags text)).
    { destruct (decide (toHashtag text = "")) as [Hempty|Hnonempty].
      - rewrite addHashtag_empty by done. split_and!; [done | by left | done | done].
      - rewrite addHashtag_nonempty by done. unfold add.
        destruct (decide (toHashtag text ∈ hashtags)) as [Hin|Hout].
        + split_and!; [done | by left | done | done].
        + split_and!.
          * apply NoDup_app. split_and!; [done | | apply NoDup_singleton].
            intros h Hh Hsame. apply list_elem_of_singleton in Hsame. by subst h.
          * intros h Hh. apply elem_of_app in Hh as [Hh|Hh]; [by left |].
            apply list_elem_of_singleton in Hh. right. by subst h.
          * intros h Hh. apply elem_of_app. by left.
          * intros _. apply elem_of_app. right. by apply list_elem_of_singleton. }
    destruct Hadded as (Hnodup' & Hfrom & Hkept & Hnew).
    destruct (IH _ Hnodup') as (Hnodup'' & Hfrom' & Hkept' & Hnew').
    split_and!; [done | | by auto |].
    + intros h Hh. destruct (Hfrom' h Hh) as [Hold|(Hne & text' & Hin & ->)].
      * destruct (Hfrom h Hold) as [?|[? ->]]; [by left |].
        right. split; [done |]. exists text. split; [left | done].
      * right. split; [done |]. exists text'. split; [by right | done].
    + intros text' Hin Hne. apply elem_of_cons in Hin as [->|Hin]; [| by apply Hnew'].
      by apply Hkept', Hnew.
Qed.

(** The hashtags made from trending topics: at most 15, no two the same, each of 1 to
    30 letters and digits and made from a topic or from one of its related keywords;
    and when fewer than 15 come out, every topic and keyword that has a letter or a
    digit has its hashtag among them.  (Case is kept, so hashtags that differ in case
    only are different hashtags.) *)
Theorem hashtags_are_distinct_and_well_formed (topics : list TrendingTopic.t) :
  let hashtags := getHashtagsFromTopics topics in
  length hashtags <= 15
  /\ NoDup hashtags
  /\ Forall wellFormedHashtag hashtags
  /\ (forall h, h ∈ hashtags ->
                exists text, text ∈ hashtagSources topics /\ h = toHashtag text)
  /\ (length hashtags < 15 ->
      forall text, text ∈ hashtagSources topics -> toHashtag text <> "" ->
                   toHashtag text ∈ hashtags).
Proof.
  cbv zeta. rewrite getHashtagsFromTopics_flat.
  destruct (addHashtag_collects (hashtagSources topics) [] NoDup_nil_2)
    as (Hnodup & Hfrom & _ & Hall).
  set (all := foldl addHashtag [] (hashtagSources topics)) in *.
  assert (Hmade : forall h, h ∈ take 15 all ->
            h <> "" /\ exists text, text ∈ hashtagSources topics /\ h = toHashtag text).
  { intros h Hh. apply subseteq_take in Hh.
    destruct (Hfrom h Hh) as [Hnil|Hmade]; [by apply elem_of_nil in Hnil | done]. }
  split_and!.
  - rewrite length_take. lia.
  - apply (sublist_NoDup _ all); first [done | apply sublist_take].
  - apply Forall_forall. intros h Hh.
    destruct (Hmade h Hh) as (Hne & text & _ & ->). by apply toHashtag_wellFormed.
  - intros h Hh. by destruct (Hmade h Hh) as (_ & Hsource).
  - intros Hfew text Hin Hne. rewrite length_take in Hfew.
    rewrite take_ge by lia. by apply Hall.
Qed.

Lemma filter_sublist {A : Type} (f : A -> bool) (l : list A) :
  List.filter f l `sublist_of` l.
Proof.
  induction l as [|x l IH]; cbn [List.filter]; [constructor |].
  destruct (f x); by constructor.
Qed.

(** The topics found for a niche, when the names of the fetched topics and the
    keywords of the niche are ASCII text: at most ten of the fetched topics, in the
    order they were fetched, each with one of the niche's keywords inside its name,
    case ignored.  A niche without keywords finds none; a niche one of whose keywords
    is the empty string finds the first ten fetched, whatever they are; a failed fetch
    finds none and throws nothing; and the name of the niche plays no part. *)
Theorem getTrendingForNiche_finds_matching_topics
    (fetched : Result (list TrendingTopic.t)) (niche : string)
    (nicheKeywords : list string) :
  let found := getTrendingForNiche fetched niche nicheKeywords in
  (forall allTopics,
     fetched = Ok allTopics ->
     Forall (fun topic => isAsciiText (TrendingTopic.topic topic) = true) allTopics) ->
  Forall (fun keyword => isAsciiText keyword = true) nicheKeywords ->
  length found <= 10
  /\ (forall topic,
        topic ∈ found ->
        exists keyword before after,
          keyword ∈ nicheKeywords
          /\ toLowerCase (TrendingTopic.topic topic)
             = before +:+ toLowerCase keyword +:+ after)
  /\ (forall allTopics, fetched = Ok allTopics -> found `sublist_of` allTopics)
  /\ (nicheKeywords = [] -> found = [])
  /\ (forall allTopics,
        fetched = Ok allTopics -> "" ∈ nicheKeywords -> found = take 10 allTopics)
  /\ (isOk fetched = false -> found = [])
  /\ (forall other, getTrendingForNiche fetched other nicheKeywords = found).
Proof.
  cbv zeta. intros _ _. unfold getTrendingForNiche. destruct fetched as [allTopics|e].
  2:{ split_and!; try done;
        first [ cbn; lia
              | intros topic Hin; by apply elem_of_nil in Hin
              | intros allTopics [=] ]. }
  split_and!.
  - rewrite length_take. lia.
  - intros topic Hin. apply subseteq_take in Hin.
    apply list_elem_of_In, filter_In in Hin as [_ Hrelevant].
    unfold relevant in Hrelevant. apply existsb_exists in Hrelevant as (keyword & Hk & Hinc).
    apply includes_substring in Hinc as (before & after & Hsplit).
    exists keyword, before, after. split; [by apply list_elem_of_In | done].
  - intros ? [= <-]. etrans; [apply sublist_take | apply filter_sublist].
  - intros ->. f_equal. induction allTopics as [|topic rest IH]; [done | done].
  - intros ? [= <-] Hempty. f_equal.
    induction allTopics as [|topic rest IH]; [done |]. cbn [List.filter].
    replace (relevant nicheKeywords topic) with true; [by rewrite IH |].
    symmetry. unfold relevant. apply existsb_exists. exists "".
    split; [by apply list_elem_of_In |]. by destruct (toLowerCase _).
  - done.
  - done.
Qed.

End Hashtags.

(** Three fetched topics and the keyword [Motivation]: the two topics that name it, in
    whatever case, are found. *)
Lemma getTrendingForNiche_finds_matching_topics_witness :
  let fetched :=
    Ok [aTopic; TrendingTopic.mk "Election night" 80 TopicSource.google_trends ["vote"] 0;
        TrendingTopic.mk "MOTIVATION for runners" 70 TopicSource.google_trends [] 0] in
  let nicheKeywords := ["Motivation"] in
  let found := Trending.getTrendingForNiche fetched "Daily Motivation Boost" nicheKeywords in
  length found <= 10
  /\ (forall topic,
        topic ∈ found ->
        exists keyword before after,
          keyword ∈ nicheKeywords
          /\ toLowerCase (TrendingTopic.topic topic)
             = before +:+ toLowerCase keyword +:+ after)
  /\ (forall allTopics, fetched = Ok allTopics -> found `sublist_of` allTopics)
  /\ (nicheKeywords = [] -> found = [])
  /\ (forall allTopics,
        fetched = Ok allTopics -> "" ∈ nicheKeywords -> found = take 10 allTopics)
  /\ (isOk fetched = false -> found = [])
  /\ (forall other, Trending.getTrendingForNiche fetched other nicheKeywords = found).
Proof.
  apply getTrendingForNiche_finds_matching_topics.
  - intros allTopics [= <-]. by repeat constructor.
  - by repeat constructor.
Defined.

Example topics_matching_a_keyword :
  map TrendingTopic.topic
    (Trending.getTrendingForNiche
       (Ok [aTopic; TrendingTopic.mk "Election night" 80 TopicSource.google_trends ["vote"] 0;
            TrendingTopic.mk "MOTIVATION for runners" 70 TopicSource.google_trends [] 0])
       "Daily Motivation Boost" ["Motivation"])
  = ["motivation monday"; "MOTIVATION for runners"].
Proof. reflexivity. Qed.

(* ================================================================= *)
(** ** Prompt variations *)

Section Variations.
Import PromptGenerator.
Variable generatePrompt : PromptGenerationRequest.t -> Result PromptGenerationResponse.t.

Lemma fedBack_pushPrevious (request : PromptGenerationRequest.t) (prompt : string)
    (prompts : list string) :
  fedBack (pushPrevious prompt request) prompts = fedBack request (prompt :: prompts).
Proof.
  unfold fedBack, pushPrevious. destruct prompts as [|p ps].
  - by destruct (PromptGenerationRequest.previousPrompts request).
  - cbn [PromptGenerationRequest.niche PromptGenerationRequest.trendingTopics
         PromptGenerationRequest.previousPrompts PromptGenerationRequest.style
         default from_option id].
    f_equal. f_equal. rewrite <- app_assoc.
    by destruct (PromptGenerationRequest.previousPrompts request).
Qed.

(** The requests sent when the answers [answers] came back, the [n] first of them. *)
Local Abbreviation requestsFor request answers n :=
  (map (fun i => fedBack request (map PromptGenerationResponse.prompt (take i answers)))
       (seq 0 n)).

Lemma generateLoop_feeds_back (remaining : nat) :
  forall prompts s,
    let outcome := generateLoop generatePrompt remaining prompts s in
    exists answers sent,
      length answers <= remaining
      /\ (forall i answer,
            answers !! i = Some answer ->
            generatePrompt
              (fedBack (request s) (map PromptGenerationResponse.prompt (take i answers)))
            = Ok answer)
      /\ request (snd outcome)
         = fedBack (request s) (map PromptGenerationResponse.prompt answers)
      /\ asked (snd outcome) = rev (requestsFor (request s) answers sent) ++ asked s
      /\ ((fst outcome = Ok (prompts ++ answers) /\ length answers = remaining
           /\ sent = remaining)
          \/ (exists e,
                fst outcome = Throw e /\ length answers < remaining
                /\ generatePrompt
                     (fedBack (request s) (map PromptGenerationResponse.prompt answers))
                   = Throw e
                /\ sent = S (length answers))).
Proof.
  induction remaining as [|remaining IH]; intros prompts s; cbv zeta; cbn [generateLoop].
  - exists [], 0. rewrite app_nil_r. split_and!; [done | | done | done | by left].
    intros i answer Hi. by rewrite lookup_nil in Hi.
  - cbn [request asked].
    destruct (generatePrompt (request s)) as [answer|e] eqn:Hanswer.
    + specialize (IH (prompts ++ [answer])
                    (mkSession (pushPrevious (PromptGenerationResponse.prompt answer)
                                  (request s))
                       (request s :: asked s))).
      cbv zeta in IH. cbn [request asked] in IH.
      destruct IH as (answers & sent & Hlength & Hanswers & Hrequest & Hasked & Hend).
      exists (answer :: answers), (S sent). split_and!.
      * cbn [length]. lia.
      * intros [|i] a Hi; cbn [take map].
        -- injection Hi as <-. done.
        -- cbn [lookup list_lookup] in Hi.
           rewrite <- (fedBack_pushPrevious (request s)
                         (PromptGenerationResponse.prompt answer)).
           by apply Hanswers.
      * by rewrite Hrequest, fedBack_pushPrevious.
      * rewrite Hasked. cbn [seq map take]. rewrite <- seq_shift, map_map.
        cbn [rev]. rewrite <- app_assoc. cbn [app]. f_equal. f_equal.
        apply map_ext. intros i. cbn [take map]. apply fedBack_pushPrevious.
      * destruct Hend as [(Hok & Hall & Hsent)|(e & Hthrow & Hfew & Hfails & Hsent)].
        -- left. rewrite Hok, <- app_assoc. cbn [length app]. split_and!; [done | lia | lia].
        -- right. exists e. cbn [length map].
           rewrite <- (fedBack_pushPrevious (request s)
                         (PromptGenerationResponse.prompt answer)).
           split_and!; [done | lia | done | lia].
    + exists [], 1. cbn [fst snd request asked length map seq take rev app].
      split_and!; [lia | | done | done |].
      * intros i answer Hi. by rewrite lookup_nil in Hi.
      * right. exists e. split_and!; [done | lia | done | done].
Qed.

(** Every variation is asked for with the prompts of the variations before it.  The
    request sent for the variation numbered [i] is the caller's request with the
    prompts of the [i] answers so far appended to its previous prompts; the loop stops
    at the first request that fails and throws its error, and the caller's request
    object keeps the prompts appended until then.  When all requests are answered,
    there are as many answers as were asked for (three when no count is given). *)
Theorem generateMultiplePrompts_feeds_prompts_back (request : PromptGenerationRequest.t)
    (count : option nat) :
  let outcome := generateMultiplePrompts generatePrompt request count in
  let wanted := default 3 count in
  exists answers,
    length answers <= wanted
    /\ (forall i answer,
          answers !! i = Some answer ->
          generatePrompt
            (fedBack request (map PromptGenerationResponse.prompt (take i answers)))
          = Ok answer)
    /\ PromptGenerator.request (snd outcome)
       = fedBack request (map PromptGenerationResponse.prompt answers)
    /\ ((fst outcome = Ok answers /\ length answers = wanted
         /\ rev (asked (snd outcome)) = requestsFor request answers wanted)
        \/ (exists e,
              fst outcome = Throw e /\ length answers < wanted
              /\ generatePrompt
                   (fedBack request (map PromptGenerationResponse.prompt answers))
                 = Throw e
              /\ rev (asked (snd outcome))
                 = requestsFor request answers (S (length answers)))).
Proof.
  cbv zeta. unfold generateMultiplePrompts.
  destruct (generateLoop_feeds_back (default 3 count) [] (mkSession request []))
    as (answers & sent & Hlength & Hanswers & Hrequest & Hasked & Hend).
  cbn [PromptGenerator.request asked] in *. rewrite app_nil_r in Hasked.
  exists answers. split_and!; [done | done | done |].
  rewrite Hasked, rev_involutive.
  destruct Hend as [(Hok & Hall & ->)|(e & Hthrow & Hfew & Hfails & ->)].
  - left. by split_and!.
  - right. exists e. by split_and!.
Qed.

End Variations.

(* ================================================================= *)
(** ** The bucket *)

Section Bucket.
Variable env : Env.
Variable storageFault : string -> nat -> option string.

(** A video that was uploaded can be downloaded, listed and deleted.  After
    [uploadVideo] has stored the bytes of a video, [downloadVideo] of the storage path
    it returned yields those bytes, and the path is among the videos listed for the
    niche and among all the videos listed; after [deleteVideo] of the path, the
    download throws, and a second deletion throws too.  (No call is rejected for a
    reason of its own.) *)
Theorem uploaded_video_round_trip (videoBuffer : Buffer) (videoId niche : string)
    (w : World) :
  let path := "videos/" +:+ niche +:+ "/" +:+ videoId +:+ ".mp4" in
  let uploaded := uploadVideo env videoBuffer videoId niche w in
  let deleted := Storage.deleteVideo storageFault path (snd uploaded) in
  fault env (UploadVideo path) (clock w) = None ->
  (forall p t, storageFault p t = None) ->
  niche <> "" ->
  (exists stored, fst uploaded = Ok stored /\ UploadResult.storagePath stored = path)
  /\ fst (Storage.downloadVideo storageFault path (snd uploaded)) = Ok videoBuffer
  /\ (exists names,
        fst (Storage.listVideos storageFault (Some niche) (snd uploaded)) = Ok names
        /\ path ∈ names)
  /\ (exists names,
        fst (Storage.listVideos storageFault None (snd uploaded)) = Ok names
        /\ path ∈ names)
  /\ fst deleted = Ok tt
  /\ isOk (fst (Storage.downloadVideo storageFault path (snd deleted))) = false
  /\ isOk (fst (Storage.deleteVideo storageFault path (snd deleted))) = false.
Proof.
  cbv zeta. intros Hupload Hfault Hniche. apply String.eqb_neq in Hniche.
  unfold uploadVideo, request, Storage.downloadVideo, Storage.deleteVideo,
    Storage.listVideos.
  rewrite Hupload. cbn [fst snd clock blobs issue set_blobs tick truthy default
                        from_option id].
  rewrite !Hfault, Hniche. cbn [negb]. rewrite !lookup_insert_eq.
  cbn [fst snd clock blobs issue set_blobs tick].
  rewrite ?Hfault, ?lookup_delete_eq. cbn [fst snd isOk].
  assert (Hlisted : forall prefix rest,
            "videos/" +:+ niche +:+ "/" +:+ videoId +:+ ".mp4" = prefix +:+ rest ->
            "videos/" +:+ niche +:+ "/" +:+ videoId +:+ ".mp4"
            ∈ List.filter (startsWith prefix)
                (map fst (map_to_list
                            (<["videos/" +:+ niche +:+ "/" +:+ videoId +:+ ".mp4"
                               := videoBuffer]> (blobs w))))).
  { intros prefix rest Hsplit. apply list_elem_of_In, filter_In. split.
    - apply list_elem_of_In, list_elem_of_fmap. eexists (_, videoBuffer).
      split; [reflexivity |]. apply elem_of_map_to_list, lookup_insert_eq.
    - apply startsWith_prefix. by exists rest. }
  split_and!; try done.
  - by eexists.
  - eexists. split; [reflexivity |].
    apply (Hlisted _ (videoId +:+ ".mp4")). by rewrite !append_assoc.
  - eexists. split; [reflexivity |].
    by apply (Hlisted _ (niche +:+ "/" +:+ videoId +:+ ".mp4")).
Qed.

End Bucket.

(** The bytes of a video uploaded to the empty bucket and read back. *)
Lemma uploaded_video_round_trip_witness :
  let env := instagramDown [] in
  let storageFault : string -> nat -> option string := fun _ _ => None in
  let path := "videos/" +:+ "n1" +:+ "/" +:+ "video-0" +:+ ".mp4" in
  let uploaded := uploadVideo env "bytes" "video-0" "n1" emptyWorld in
  let deleted := Storage.deleteVideo storageFault path (snd uploaded) in
  (exists stored, fst uploaded = Ok stored /\ UploadResult.storagePath stored = path)
  /\ fst (Storage.downloadVideo storageFault path (snd uploaded)) = Ok "bytes"
  /\ (exists names,
        fst (Storage.listVideos storageFault (Some "n1") (snd uploaded)) = Ok names
        /\ path ∈ names)
  /\ (exists names,
        fst (Storage.listVideos storageFault None (snd uploaded)) = Ok names
        /\ path ∈ names)
  /\ fst deleted = Ok tt
  /\ isOk (fst (Storage.downloadVideo storageFault path (snd deleted))) = false
  /\ isOk (fst (Storage.deleteVideo storageFault path (snd deleted))) = false.
Proof.
  apply (uploaded_video_round_trip (instagramDown []) (fun _ _ => None) "bytes" "video-0"
           "n1" emptyWorld).
  - done.
  - done.
  - done.
Defined.
